(** * uqbar: an IoC container — registry, instance cache and resolver

    A shallow embedding of [src/index.js] and a verification of what its
    specification says about registration and resolution.

    The container's three [Map]s are finite maps keyed by service name.
    The callbacks the source creates as closures are first-order data
    ([cont], one constructor per closure of the source), applied by
    [invoke_]; [resolve_] is the source's [resolve].  Both run on a
    [World]: the container, the state of the [async.map] calls in flight,
    the callback invocations waiting in the event loop, and a trace of
    the calls of user functions and of callbacks, which is what the
    theorems about resolution read.  A user function returns, raises,
    uses the callback it was given, or asks the container it closes over
    to resolve names and goes on from the answer.  Exceptions are an
    outcome of their own, since the source has no [try]; the depth of
    nested calls is bounded by a budget, since a cycle of dependencies
    never ends.

    Definitions come first: the model, the sample containers the
    theorems are tried on, and the predicates the invariants are stated
    with.  The theorems follow, by topic. *)

From Stdlib Require Import ZArith.
From stdpp Require Import gmap strings list fin_maps.

Open Scope string_scope.
Open Scope list_scope.
Open Scope nat_scope.
Set Warnings "-register-all".

(** ** JavaScript values *)

(** Primitives, object references (an object is its identity: [===]
    compares references), the objects [new] makes under [callCtor]
    ([VNew ctor serial] is the instance of the function [ctor] made at its
    invocation number [serial]: two of them differ when the invocations
    do), [Error] objects and the arrays the resolver builds. *)
Inductive value :=
| VUndefined
| VNull
| VBool (b : bool)
| VNum (n : Z)
| VNaN
| VStr (s : string)
| VObj (ref : nat)
| VNew (ctor serial : nat)
| VError (message : string)
| VArr (items : list value).

(** [if (x)]: the falsy values are [undefined], [null], [false], [0],
    [NaN] and the empty string. *)
Definition truthy (x : value) : bool :=
  match x with
  | VUndefined | VNull | VNaN => false
  | VBool b => b
  | VNum n => negb (n =? 0)%Z
  | VStr s => negb (String.eqb s "")
  | VObj _ | VNew _ _ | VError _ | VArr _ => true
  end.

(** The values that are objects: what a constructor may return in the
    place of [this]. *)
Definition is_object (x : value) : bool :=
  match x with
  | VObj _ | VNew _ _ | VError _ | VArr _ => true
  | _ => false
  end.

(** The argument list of [f.apply(null, services)]. *)
Definition args_of (services : value) : list value :=
  match services with
  | VArr l => l
  | _ => []
  end.

(** ** User functions *)

(** What [resolve] is asked for: one name or an array of names. *)
Inductive target :=
| One (name : string)
| Many (names : list string).

(** What one invocation of a user-supplied function does with the
    arguments it got: return, raise, report through the node-style
    callback it was handed, either before returning or from a later turn
    of the event loop, or call [container.resolve(name, (err, v) => ...)]
    on the container it closes over, as the one-parameter factories of the
    README and of the tests do; [next err v] is then what the function it
    passes to [resolve] does when it is called with [err] and [v], the
    callback being the one the outer function was handed. *)
Inductive behaviour :=
| Returns (v : value)
| Throws (e : value)
| CallsBack (err v : value)
| CallsBackLater (err v : value)
| Resolves (name : target) (next : value -> value -> behaviour).

(** A function object: an identity, whether [new] can be applied to it
    (a function declared with [function] is a constructor, an arrow
    function is not), its [length] property (the number of formal
    parameters before the first one with a default value or the rest
    parameter), its formal parameter names (what [get-parameter-names]
    reads), the optional ['@require'] property, and its body, which sees
    the arguments and the number of earlier invocations of this function
    (so that [() => ++i] and [() => ({})] are expressible). *)
Record jsfun := {
  fid : nat;
  is_constructor : bool;
  fn_length : nat;
  params : list string;
  require : option (list string);
  body : list value -> nat -> behaviour
}.

Definition getParNames (func : jsfun) : list string := params func.

(** [arr.slice(0, -1)] *)
Definition slice_0_m1 {A} (l : list A) : list A := take (length l - 1) l.

Definition getDependenciesNames (func : jsfun) (ignoreLastArg : bool) : list string :=
  match require func with
  | Some names => names
  | None =>
      if ignoreLastArg then slice_0_m1 (getParNames func)
      else getParNames func
  end.

(** The value a synchronous call evaluates to: a body that only uses its
    callback returns [undefined]. *)
Definition returned (b : behaviour) : value :=
  match b with
  | Returns v => v
  | _ => VUndefined
  end.

(** ** Registry, cache and interface index *)

Record Config := {
  singleton : value;
  interfaces : option (list string)
}.

(** The options object of a registration call, of the documented shape:
    [singleton] is any value, [interfaces] an array of names; a field is
    [None] when the property is not there. *)
Record Options := {
  opt_singleton : option value;
  opt_interfaces : option (list string)
}.

Definition default_register_options : Config :=
  {| singleton := VBool true; interfaces := None |}.

(** [xtend(defaults, options || {})]: the properties of [options] win. *)
Definition xtend (d : Config) (options : option Options) : Config :=
  match options with
  | None => d
  | Some o =>
      {| singleton := default (singleton d) (opt_singleton o);
         interfaces := match opt_interfaces o with
                       | Some l => Some l
                       | None => interfaces d
                       end |}
  end.

(** The five shapes of the stored [asyncFactory]: the factory itself
    ([register], one formal parameter), the three closures over
    [this.call], [this.callSync] and [this.callCtor], and the closure of
    [registerInstance]. *)
Inductive asyncFactory :=
| Direct (factory : jsfun)
| ViaCall (factory : jsfun)
| ViaCallSync (factory : jsfun)
| ViaCallCtor (factory : jsfun)
| Instance (instance : value).

Record Registration := {
  factory : asyncFactory;
  config : Config
}.

Record Container := {
  _registry : gmap string Registration;
  _instances : gmap string value;
  _interfaces : gmap string (list string)
}.

(** [new Container()] *)
Definition new_Container : Container :=
  {| _registry := ∅; _instances := ∅; _interfaces := ∅ |}.

(** A call either returns or raises. *)
Inductive completion (A : Type) :=
| Returned (a : A)
| Raised (e : value).
Arguments Returned {A} a.
Arguments Raised {A} e.

(** The second argument of a registration call: a function, or anything
    else. *)
Inductive jsarg :=
| Fn (f : jsfun)
| NotFn (v : value).

(** [!name || typeof name !== 'string'] fails: the name as a string. *)
Definition checked_name (name : value) : option string :=
  match name with
  | VStr s => if String.eqb s "" then None else Some s
  | _ => None
  end.

Definition add_implementation (name : string) (m : gmap string (list string))
    (i : string) : gmap string (list string) :=
  <[i := default [] (m !! i) ++ [name]]> m.

Definition _addInterfaceMapping (name : string) (interfaces : option (list string))
    (c : Container) : Container :=
  match interfaces with
  | Some l =>
      if 0 <? length l then
        {| _registry := _registry c;
           _instances := _instances c;
           _interfaces := foldl (add_implementation name) (_interfaces c) l |}
      else c
  | None => c
  end.

(** [this._registry.set(name, { factory, config })] followed by
    [this._addInterfaceMapping(name, config.interfaces)]. *)
Definition store (name : string) (af : asyncFactory) (cfg : Config)
    (c : Container) : Container :=
  _addInterfaceMapping name (interfaces cfg)
    {| _registry := <[name := {| factory := af; config := cfg |}]> (_registry c);
       _instances := _instances c;
       _interfaces := _interfaces c |}.

Definition register (name : value) (factory : jsarg) (options : option Options)
    (c : Container) : completion Container :=
  match checked_name name with
  | None => Raised (VError "name is required")
  | Some name =>
      match factory with
      | NotFn _ => Raised (VError "the factory function is required")
      | Fn factory =>
          if fn_length factory =? 0 then
            Raised (VError "the factory function needs at least 1 argument (callback)")
          else
            let config := xtend default_register_options options in
            let asyncFactory :=
              if fn_length factory =? 1 then Direct factory else ViaCall factory in
            Returned (store name asyncFactory config c)
      end
  end.

Definition registerSync (name : value) (factory : jsarg) (options : option Options)
    (c : Container) : completion Container :=
  match checked_name name with
  | None => Raised (VError "name is required")
  | Some name =>
      match factory with
      | NotFn _ => Raised (VError "the factory function is required")
      | Fn factory =>
          let config := xtend default_register_options options in
          Returned (store name (ViaCallSync factory) config c)
      end
  end.

Definition registerCtor (name : value) (factory : jsarg) (options : option Options)
    (c : Container) : completion Container :=
  match checked_name name with
  | None => Raised (VError "name is required")
  | Some name =>
      match factory with
      | NotFn _ => Raised (VError "the factory function is required")
      | Fn factory =>
          let config := xtend default_register_options options in
          Returned (store name (ViaCallCtor factory) config c)
      end
  end.

(** The instance argument is a value; a function passed as instance is
    an object reference like any other, it is never called. *)
Definition registerInstance (name : value) (instance : value) (options : option Options)
    (c : Container) : completion Container :=
  match checked_name name with
  | None => Raised (VError "name is required")
  | Some name =>
      match instance with
      | VUndefined => Raised (VError "instance is required")
      | _ =>
          let config := xtend default_register_options options in
          Returned (store name (Instance instance) config c)
      end
  end.

(** ** Callbacks, the event loop and [async.map] *)

(** The callbacks of the source, one constructor per closure:
    - [KTop id]: a completion callback of the container's client;
    - [KUndefined]: no callback at all (what a factory finds in its
      callback position under [callSync] and [callCtor]);
    - [KStore]: the arrow function [resolve] passes to [r.factory],
      closed over [name], [r.config.singleton] and [callback];
    - [KCall], [KSync], [KCtor]: the functions [call], [callSync] and
      [callCtor] pass to [this.resolve], closed over [factory] and
      [callback];
    - [KMapItem job index]: the per-element callback of one [async.map]
      call;
    - [KUser next callback]: the function a user function passed to
      [container.resolve], closed over the callback [callback] that the
      user function was handed. *)
Inductive cont :=
| KTop (id : nat)
| KUndefined
| KStore (name : string) (is_singleton : value) (callback : cont)
| KCall (factory : jsfun) (callback : cont)
| KSync (factory : jsfun) (callback : cont)
| KCtor (factory : jsfun) (callback : cont)
| KMapItem (job index : nat)
| KUser (next : value -> value -> behaviour) (callback : cont).

(** A callback invocation waiting in the event loop. *)
Inductive task :=
| Deferred (callback : cont) (err v : value).

(** Modelled from the spec: the state one [async.map] call shares
    between its per-element callbacks ([async] is a package the sources
    require and do not contain): the [results] array, the counter of
    completed elements, the collection's length, whether the
    [once]-wrapped final callback has run, and which [onlyOnce]-wrapped
    element callbacks have. *)
Record job := mkJob {
  results : list value;
  completed : nat;
  total : nat;
  fired : bool;
  seen : list nat;
  done_cb : cont
}.

Inductive event :=
| ECall (f : nat) (args : list value)
| EInvoke (callback : cont) (err v : value).

Record World := mkWorld {
  container : Container;
  jobs : list job;
  pending : list task;
  trace : list event
}.

Definition new_World (c : Container) : World :=
  mkWorld c [] [] [].

Definition log (ev : event) (w : World) : World :=
  mkWorld (container w) (jobs w) (pending w) (trace w ++ [ev]).

Definition defer (t : task) (w : World) : World :=
  mkWorld (container w) (jobs w) (pending w ++ [t]) (trace w).

Definition drop_task (i : nat) (w : World) : World :=
  mkWorld (container w) (jobs w) (delete i (pending w)) (trace w).

Definition add_job (jb : job) (w : World) : World :=
  mkWorld (container w) (jobs w ++ [jb]) (pending w) (trace w).

Definition set_job (j : nat) (jb : job) (w : World) : World :=
  mkWorld (container w) (<[j := jb]> (jobs w)) (pending w) (trace w).

(** [this._instances.set(name, instance)] *)
Definition set_instance (name : string) (instance : value) (w : World) : World :=
  mkWorld {| _registry := _registry (container w);
             _instances := <[name := instance]> (_instances (container w));
             _interfaces := _interfaces (container w) |}
          (jobs w) (pending w) (trace w).

Definition is_call (f : nat) (ev : event) : bool :=
  match ev with
  | ECall g _ => f =? g
  | EInvoke _ _ _ => false
  end.

(** How many times the function [f] has been invoked so far. *)
Definition calls_of (f : nat) (tr : list event) : nat :=
  length (filter (fun ev => is_call f ev = true) tr).

Definition behave (f : jsfun) (args : list value) (w : World) : behaviour :=
  body f args (calls_of (fid f) (trace w)).

(** [results[index] = v] on a JavaScript array: an index past the end
    extends the array, leaving holes that read as [undefined]. *)
Definition arr_set (i : nat) (v : value) (l : list value) : list value :=
  if i <? length l then <[i := v]> l
  else l ++ replicate (i - length l) VUndefined ++ [v].

(** An execution returns, raises (the exception unwinds every frame: the
    source has no [try]), or exceeds the recursion budget. *)
Inductive Outcome :=
| Normal (w : World)
| Thrown (e : value) (w : World)
| OutOfFuel.

(** The two entry points every call chain goes through. *)
Inductive op :=
| Resolve (name : target) (callback : cont)
| Invoke (callback : cont) (err v : value).

Definition unknown_service (name : string) : value :=
  VError ("unknown service or interface " +:+ name).

Section Engine.

(** The recursive calls: [rec (Resolve n k)] is [this.resolve(n, k)],
    [rec (Invoke k err v)] is [k(err, v)]. *)
Variable rec : op -> World -> Outcome.

(** What a user function does, [callback] being the callback it was
    handed: [callback(err, v)], [setImmediate(callback, err, v)] or an
    asynchronous operation that ends that way, or
    [container.resolve(name, next)]. *)
Definition run_body (b : behaviour) (callback : cont) (w : World) : Outcome :=
  match b with
  | Returns _ => Normal w
  | Throws e => Thrown e w
  | CallsBack err v => rec (Invoke callback err v) w
  | CallsBackLater err v => Normal (defer (Deferred callback err v) w)
  | Resolves name next => rec (Resolve name (KUser next callback)) w
  end.

(** [f.apply(null, args.concat([callback]))] *)
Definition apply_fn (f : jsfun) (args : list value) (callback : cont)
    (w : World) : Outcome :=
  run_body (behave f args w) callback (log (ECall (fid f) args) w).

(** [setImmediate(callback, err)] *)
Definition setImmediate (callback : cont) (err : value) (w : World) : Outcome :=
  Normal (defer (Deferred callback err VUndefined) w).

(** Modelled from the spec: the final callback of an [async.map] call
    under [once]: its first call goes through, with the [results] array;
    a later one is dropped. *)
Definition once_done (j : nat) (jb : job) (err : value) (w : World) : Outcome :=
  if fired jb then Normal (set_job j jb w)
  else
    let jb' := mkJob (results jb) (completed jb) (total jb) true (seen jb) (done_cb jb) in
    rec (Invoke (done_cb jb) err (VArr (results jb))) (set_job j jb' w).

(** Modelled from the spec: the callback [async.map] hands to the
    iteratee for the element [i].  It writes [results[i]]; under
    [onlyOnce], a second call raises; an error goes to the final callback
    at once, and so does [null] when the last element completes. *)
Definition item_done (j i : nat) (err v : value) (w : World) : Outcome :=
  match jobs w !! j with
  | None => Normal w
  | Some jb =>
      let written := arr_set i v (results jb) in
      if bool_decide (i ∈ seen jb) then
        Thrown (VError "Callback was already called.")
          (set_job j (mkJob written (completed jb) (total jb) (fired jb) (seen jb) (done_cb jb)) w)
      else if truthy err then
        once_done j (mkJob written (completed jb) (total jb) (fired jb) (i :: seen jb) (done_cb jb))
          err w
      else
        let jb' := mkJob written (S (completed jb)) (total jb) (fired jb) (i :: seen jb) (done_cb jb) in
        if completed jb' =? total jb' then once_done j jb' VNull w
        else Normal (set_job j jb' w)
  end.

(** Modelled from the spec: the loop of [async.map] over the
    collection, with [this.resolve.bind(this)] for iteratee: every
    element is handed to [resolve] before any answer is awaited. *)
Fixpoint map_loop (j : nat) (coll : list string) (index : nat) (w : World) : Outcome :=
  match coll with
  | [] => Normal w
  | name :: rest =>
      match rec (Resolve (One name) (KMapItem j index)) w with
      | Normal w' => map_loop j rest (S index) w'
      | o => o
      end
  end.

(** Modelled from the spec: [async.map(coll, this.resolve.bind(this),
    callback)].  §4.3 fixes the contract: every element is resolved, the
    result sequence is aligned with the input, the first failure fails
    the whole call; an empty collection succeeds at once with [[]]. *)
Definition async_map (coll : list string) (callback : cont) (w : World) : Outcome :=
  let j := length (jobs w) in
  let jb := mkJob [] 0 (length coll) false [] callback in
  match coll with
  | [] => once_done j jb VNull (add_job jb w)
  | _ => map_loop j coll 0 (add_job jb w)
  end.

Definition call (factory : jsfun) (callback : cont) (w : World) : Outcome :=
  let dependencies := getDependenciesNames factory true in
  rec (Resolve (Many dependencies) (KCall factory callback)) w.

Definition callSync (factory : jsfun) (callback : cont) (w : World) : Outcome :=
  let dependencies := getDependenciesNames factory false in
  rec (Resolve (Many dependencies) (KSync factory callback)) w.

Definition callCtor (factory : jsfun) (callback : cont) (w : World) : Outcome :=
  let dependencies := getDependenciesNames factory false in
  rec (Resolve (Many dependencies) (KCtor factory callback)) w.

(** [r.factory(callback)] *)
Definition run_factory (af : asyncFactory) (callback : cont) (w : World) : Outcome :=
  match af with
  | Direct f => apply_fn f [] callback w
  | ViaCall f => call f callback w
  | ViaCallSync f => callSync f callback w
  | ViaCallCtor f => callCtor f callback w
  | Instance instance => rec (Invoke callback VNull instance) w
  end.

Definition resolve_ (name : target) (callback : cont) (w : World) : Outcome :=
  match name with
  | Many names => async_map names callback w
  | One name =>
      match _registry (container w) !! name with
      | None =>
          match _interfaces (container w) !! name with
          | Some interfaceImplementations =>
              if 0 <? length interfaceImplementations then
                async_map interfaceImplementations callback w
              else setImmediate callback (unknown_service name) w
          | None => setImmediate callback (unknown_service name) w
          end
      | Some r =>
          let produce :=
            run_factory (factory r) (KStore name (singleton (config r)) callback) w in
          if truthy (singleton (config r)) then
            match _instances (container w) !! name with
            | Some instance =>
                if truthy instance then rec (Invoke callback VNull instance) w
                else produce
            | None => produce
            end
          else produce
      end
  end.

(** The object [new Factory()] evaluates to, for the invocation number
    [n] of the constructor [f] whose body did [b]: the object the body
    returned when it returned one, the new instance [this] otherwise. *)
Definition constructed (f : jsfun) (n : nat) (b : behaviour) : value :=
  if is_object (returned b) then returned b else VNew (fid f) n.

(** The [TypeError] of [new Factory()] when [factory] is not a
    constructor. *)
Definition not_a_constructor : value := VError "Factory is not a constructor".

(** [callback(null, factory.apply(null, services))] *)
Definition apply_sync (factory : jsfun) (services : list value) (callback : cont)
    (w : World) : Outcome :=
  match apply_fn factory services KUndefined w with
  | Normal w' => rec (Invoke callback VNull (returned (behave factory services w))) w'
  | o => o
  end.

(** [callback(null, new Factory())], [Factory] being [factory] bound to
    [services]: [new] raises when [factory] is not a constructor. *)
Definition apply_new (factory : jsfun) (services : list value) (callback : cont)
    (w : World) : Outcome :=
  if is_constructor factory then
    match apply_fn factory services KUndefined w with
    | Normal w' =>
        rec (Invoke callback VNull
               (constructed factory (calls_of (fid factory) (trace w))
                  (behave factory services w))) w'
    | o => o
    end
  else Thrown not_a_constructor w.

(** [k(err, v)], by the closure [k] is. *)
Definition invoke_ (k : cont) (err v : value) (w0 : World) : Outcome :=
  let w := log (EInvoke k err v) w0 in
  match k with
  | KTop _ => Normal w
  | KUndefined => Thrown (VError "callback is not a function") w
  | KStore name is_singleton callback =>
      if truthy err then rec (Invoke callback err VUndefined) w
      else
        let w' := if truthy is_singleton then set_instance name v w else w in
        rec (Invoke callback VNull v) w'
  | KCall factory callback =>
      if truthy err then rec (Invoke callback err VUndefined) w
      else apply_fn factory (args_of v) callback w
  | KSync factory callback =>
      if truthy err then rec (Invoke callback err VUndefined) w
      else apply_sync factory (args_of v) callback w
  | KCtor factory callback =>
      if truthy err then rec (Invoke callback err VUndefined) w
      else apply_new factory (args_of v) callback w
  | KMapItem j i => item_done j i err v w
  | KUser next callback => run_body (next err v) callback w
  end.

Definition exec_body (o : op) (w : World) : Outcome :=
  match o with
  | Resolve name callback => resolve_ name callback w
  | Invoke k err v => invoke_ k err v w
  end.

End Engine.

(** Tying the knot: [fuel] bounds the depth of nested calls. *)
Fixpoint exec (fuel : nat) (o : op) (w : World) : Outcome :=
  match fuel with
  | 0 => OutOfFuel
  | S fuel' => exec_body (exec fuel') o w
  end.

(** [container.resolve(name, callback)] *)
Definition resolve (fuel : nat) (name : target) (callback : cont) (w : World) : Outcome :=
  exec fuel (Resolve name callback) w.

Definition invoke (fuel : nat) (k : cont) (err v : value) (w : World) : Outcome :=
  exec fuel (Invoke k err v) w.

(** The event loop: [sched] picks, turn after turn, which pending
    invocation runs next (any order; a pick that names no task is
    skipped).  An exception raised by a task ends the run. *)
Fixpoint run (fuel : nat) (sched : list nat) (w : World) : Outcome :=
  match sched with
  | [] => Normal w
  | i :: rest =>
      match pending w !! i with
      | None => run fuel rest w
      | Some (Deferred k err v) =>
          match invoke fuel k err v (drop_task i w) with
          | Normal w' => run fuel rest w'
          | o => o
          end
      end
  end.

Definition and_then (o : Outcome) (f : World -> Outcome) : Outcome :=
  match o with
  | Normal w => f w
  | _ => o
  end.

(** The world an execution ends in, when it ends. *)
Definition final (o : Outcome) : option World :=
  match o with
  | Normal w | Thrown _ w => Some w
  | OutOfFuel => None
  end.

(** What the client's callback [id] has received, in order. *)
Definition delivery (id : nat) (ev : event) : option (value * value) :=
  match ev with
  | EInvoke (KTop id') err v => if id =? id' then Some (err, v) else None
  | _ => None
  end.

Definition deliveries (id : nat) (tr : list event) : list (value * value) :=
  omap (delivery id) tr.

(** The argument lists the function [f] was invoked with, in order. *)
Definition invocation (f : nat) (ev : event) : option (list value) :=
  match ev with
  | ECall g args => if f =? g then Some args else None
  | _ => None
  end.

Definition invocations (f : nat) (tr : list event) : list (list value) :=
  omap (invocation f) tr.

(** ** Registration *)

(** The four registration operations as one request type, for statements
    that range over all of them. *)
Inductive registration :=
| ByRegister (factory : jsarg)
| ByRegisterSync (factory : jsarg)
| ByRegisterCtor (factory : jsarg)
| ByRegisterInstance (instance : value).

Definition perform (r : registration) (name : value) (options : option Options)
    (c : Container) : completion Container :=
  match r with
  | ByRegister f => register name f options c
  | ByRegisterSync f => registerSync name f options c
  | ByRegisterCtor f => registerCtor name f options c
  | ByRegisterInstance v => registerInstance name v options c
  end.

(** The [asyncFactory] a valid request stores. *)
Definition normalized (r : registration) : option asyncFactory :=
  match r with
  | ByRegister (Fn f) =>
      if fn_length f =? 0 then None
      else if fn_length f =? 1 then Some (Direct f) else Some (ViaCall f)
  | ByRegisterSync (Fn f) => Some (ViaCallSync f)
  | ByRegisterCtor (Fn f) => Some (ViaCallCtor f)
  | ByRegisterInstance VUndefined => None
  | ByRegisterInstance v => Some (Instance v)
  | _ => None
  end.

(** ** Sample functions and containers *)

(** What a registration call returned, or the container unchanged when
    it raised. *)
Definition or_else {A} (c : completion A) (d : A) : A :=
  match c with
  | Returned a => a
  | Raised _ => d
  end.

(** [var i = 0; () => i++] *)
Definition post_increment : jsfun :=
  {| fid := 1; is_constructor := false; fn_length := 0;
     params := []; require := None;
     body := fun _ n => Returns (VNum (Z.of_nat n)) |}.

(** [() => { throw new Error('boom') }] *)
Definition boom : jsfun :=
  {| fid := 2; is_constructor := false; fn_length := 0;
     params := []; require := None;
     body := fun _ _ => Throws (VError "boom") |}.


(** [function (a, b) { return [a, b] }] with ['@require'] naming other
    services than its parameters. *)
Definition pair_sync : jsfun :=
  {| fid := 4; is_constructor := true; fn_length := 2;
     params := ["a"; "b"]; require := Some ["x"; "y"];
     body := fun args _ => Returns (VArr args) |}.

(** [() => obj] for the object with reference [5]. *)
Definition constant_obj : jsfun :=
  {| fid := 5; is_constructor := false; fn_length := 0;
     params := []; require := None;
     body := fun _ _ => Returns (VObj 5) |}.

(** [function (cb) { setTimeout(() => cb(null, v)) }] *)
Definition later (id : nat) (v : value) : jsfun :=
  {| fid := id; is_constructor := true; fn_length := 1;
     params := ["cb"]; require := None;
     body := fun _ _ => CallsBackLater VNull v |}.

Definition with_post_increment : Container :=
  or_else (registerSync (VStr "service") (Fn post_increment) None new_Container)
    new_Container.

Definition with_boom : Container :=
  or_else (registerSync (VStr "svc") (Fn boom) None new_Container) new_Container.


Definition with_pair : Container :=
  let c := or_else (registerInstance (VStr "x") (VObj 1) None new_Container) new_Container in
  let c := or_else (registerInstance (VStr "y") (VObj 2) None c) c in
  or_else (registerSync (VStr "svc") (Fn pair_sync) None c) c.

(** A container whose cache holds the instance of an earlier
    registration of ["a"]. *)
Definition cached_then (again : registration) : World :=
  let c := or_else (registerSync (VStr "a") (Fn constant_obj) None new_Container) new_Container in
  match resolve 9 (One "a") (KTop 0) (new_World c) with
  | Normal w =>
      mkWorld (or_else (perform again (VStr "a") None (container w)) (container w))
        (jobs w) (pending w) (trace w)
  | _ => new_World c
  end.

Definition transient : option Options :=
  Some {| opt_singleton := Some (VBool false); opt_interfaces := None |}.

Definition implementing (tags : list string) : option Options :=
  Some {| opt_singleton := None; opt_interfaces := Some tags |}.

(** Three services that answer from a later turn of the event loop, and
    one interface with two implementations. *)
Definition with_slow_services : Container :=
  let c := or_else (register (VStr "a") (Fn (later 11 (VObj 1))) None new_Container) new_Container in
  let c := or_else (register (VStr "b") (Fn (later 12 (VObj 2))) (implementing ["stream"]) c) c in
  or_else (register (VStr "c") (Fn (later 13 (VObj 3))) (implementing ["stream"]) c) c.

(** The world an outcome carries ([d] when there is none). *)
Definition world_of (o : Outcome) (d : World) : World :=
  match final o with
  | Some w => w
  | None => d
  end.

(** The three slow services are resolved together and answer in the
    order ["c"], ["a"], ["b"]. *)
Definition out_of_order : Outcome :=
  and_then (resolve 9 (Many ["a"; "b"; "c"]) (KTop 0) (new_World with_slow_services))
    (run 9 [2; 0; 0]).

(** The interface ["stream"] is resolved; ["c"] answers before ["b"]. *)
Definition streams_out_of_order : Outcome :=
  and_then (resolve 9 (One "stream") (KTop 0) (new_World with_slow_services))
    (run 9 [1; 0]).

(** Two services that answer from a later turn of the event loop, one
    a singleton and one transient, resolved together; the transient one
    answers first. *)
Definition mixed_lifetimes : Container :=
  let c := or_else (register (VStr "kept") (Fn (later 11 (VObj 1))) None new_Container)
             new_Container in
  or_else (register (VStr "fresh") (Fn (later 12 (VObj 2))) transient c) c.


(** One interface with a single implementation. *)
Definition with_single_implementation : Container :=
  or_else (registerInstance (VStr "only") (VObj 7) (implementing ["tag"]) new_Container)
    new_Container.

(** ** What an execution may change *)

(** The callbacks [resolve] made for a factory, inside [k], carry the
    [singleton] option of the record registered under their name. *)
Fixpoint cont_registered (c : Container) (k : cont) : Prop :=
  match k with
  | KTop _ | KUndefined | KMapItem _ _ => True
  | KStore name is_singleton callback =>
      (exists r, _registry c !! name = Some r /\ singleton (config r) = is_singleton) /\
      cont_registered c callback
  | KCall _ callback | KSync _ callback | KCtor _ callback | KUser _ callback =>
      cont_registered c callback
  end.

(** The callbacks a world holds, in the event loop and in the
    [async.map] calls in flight, were made under the registry it has: no
    registration has been replaced while its resolution was pending. *)
Definition sound (w : World) : Prop :=
  (forall k err v, In (Deferred k err v) (pending w) -> cont_registered (container w) k) /\
  (forall jb, In jb (jobs w) -> cont_registered (container w) (done_cb jb)).

(** The events [new] justify the cache of [w'] against the one of [w]:
    an entry that was not there is under a name registered as a
    singleton, and it is the value [v] with which the callback [resolve]
    gave to the factory of that registration was called without error,
    and with which it called [resolve]'s own callback in turn. *)
Definition cache_justified (new : list event) (w w' : World) : Prop :=
  forall name v,
    _instances (container w') !! name = Some v ->
    _instances (container w) !! name = Some v \/
    exists r callback err,
      _registry (container w) !! name = Some r /\
      truthy (singleton (config r)) = true /\ truthy err = false /\
      In (EInvoke (KStore name (singleton (config r)) callback) err v) new /\
      In (EInvoke callback VNull v) new.

(** [w'] comes after [w]: same registry, same interface index, a longer
    trace, a cache the new events justify, and callbacks made under the
    registry. *)
Definition frame (w w' : World) : Prop :=
  _registry (container w') = _registry (container w) /\
  _interfaces (container w') = _interfaces (container w) /\
  sound w' /\
  exists new, trace w' = trace w ++ new /\ cache_justified new w w'.

(** [R] holds of the world an outcome carries. *)
Definition ends (R : World -> Prop) (o : Outcome) : Prop :=
  match o with
  | Normal w | Thrown _ w => R w
  | OutOfFuel => True
  end.

(** What a call starts from: a sound world and a callback made under
    its registry. *)
Definition ready (o : op) (w : World) : Prop :=
  sound w /\
  match o with
  | Resolve _ callback | Invoke callback _ _ => cont_registered (container w) callback
  end.

(** What is expected of one call: the frame, and for the invocation of
    a callback that it is the first thing logged. *)
Definition framed (o : op) (w w' : World) : Prop :=
  frame w w' /\
  match o with
  | Invoke k err v => exists rest, trace w' = trace w ++ EInvoke k err v :: rest
  | Resolve _ _ => True
  end.

(** The cache cannot shadow the instance [v] registered under [name]:
    the registration is transient, or no other truthy value is cached
    under [name]. *)
Definition unshadowed (name : string) (v : value) (cfg : Config) (c : Container) : Prop :=
  truthy (singleton cfg) = false \/
  forall cached, _instances c !! name = Some cached -> truthy cached = true -> cached = v.

(** [rec'] does what [rec] does wherever [rec] has budget enough. *)
Definition refines (rec rec' : op -> World -> Outcome) : Prop :=
  forall o w, rec o w <> OutOfFuel -> rec' o w = rec o w.

(** [name] stands for the instance [v] in [c]: [registerInstance] stored
    [v] under it, and the cache does not shadow it. *)
Definition settled (c : Container) (name : string) (v : value) : Prop :=
  exists cfg,
    _registry c !! name = Some {| factory := Instance v; config := cfg |} /\
    unshadowed name v cfg c.

(** [resolve] does not answer [name] from the cache: the registration
    is transient, or nothing truthy is cached under [name]. *)
Definition cache_unused (name : string) (cfg : Config) (c : Container) : Prop :=
  truthy (singleton cfg) = false \/
  _instances c !! name = None \/
  exists cached, _instances c !! name = Some cached /\ truthy cached = false.

(** ** The state of one [async.map] call along an execution *)

(** Every per-element callback of the call [j] inside [k] has an index
    below [n]. *)
Fixpoint cont_within (j n : nat) (k : cont) : Prop :=
  match k with
  | KTop _ | KUndefined => True
  | KStore _ _ callback | KCall _ callback | KSync _ callback | KCtor _ callback
  | KUser _ callback =>
      cont_within j n callback
  | KMapItem j' i => j' = j -> i < n
  end.

(** [k] names no [async.map] call from the [b]-th on. *)
Fixpoint cont_below (b : nat) (k : cont) : Prop :=
  match k with
  | KTop _ | KUndefined => True
  | KStore _ _ callback | KCall _ callback | KSync _ callback | KCtor _ callback
  | KUser _ callback =>
      cont_below b callback
  | KMapItem j _ => j < b
  end.

(** The callbacks a world holds name only [async.map] calls that have
    been made. *)
Definition world_below (w : World) : Prop :=
  (forall k err v, In (Deferred k err v) (pending w) -> cont_below (length (jobs w)) k) /\
  (forall jb, In jb (jobs w) -> cont_below (length (jobs w)) (done_cb jb)).

(** [ev] is a call of an element callback of the [async.map] call [j]. *)
Definition item_of (j : nat) (ev : event) : Prop :=
  exists i e v, ev = EInvoke (KMapItem j i) e v.

(** What is known once the final callback of the call [j] has run: an
    element failed, or the final callback was (or, with [extra], is about
    to be) called without error with an array that has, at each of the
    [n] indices, a value that element's callback was called with. *)
Definition fired_ok (j n : nat) (k : cont) (extra new : list event) : Prop :=
  (exists i e v, In (EInvoke (KMapItem j i) e v) new /\ truthy e = true) \/
  (exists vs, In (EInvoke k VNull (VArr vs)) (new ++ extra) /\
     length vs = n /\
     forall i, i < n ->
       exists e v, vs !! i = Some v /\ In (EInvoke (KMapItem j i) e v) new).

(** What the state [jb] of the call [j] (over [n] elements, with final
    callback [k]) has to do with the events [new] logged since the call
    was made; [extra] is an invocation about to be logged. *)
Record job_inv (j n : nat) (k : cont) (extra new : list event) (jb : job) : Prop := {
  ji_total : total jb = n;
  ji_done : done_cb jb = k;
  ji_seen_lt : forall i, i ∈ seen jb -> i < n;
  ji_nodup : NoDup (seen jb);
  ji_event_seen : forall i e v, In (EInvoke (KMapItem j i) e v) new -> i ∈ seen jb;
  ji_count_le : completed jb <= length (seen jb);
  ji_count :
    (forall i e v, In (EInvoke (KMapItem j i) e v) new -> truthy e = false) ->
    completed jb = length (seen jb);
  ji_fired_ge : total jb <= completed jb -> fired jb = true;
  ji_results :
    forall i, i ∈ seen jb ->
      exists e v, results jb !! i = Some v /\ In (EInvoke (KMapItem j i) e v) new;
  ji_results_len : length (results jb) <= n;
  ji_fired : fired jb = true -> fired_ok j n k extra new
}.

Record inv (j n : nat) (k : cont) (tr0 : list event) (extra : list event) (w : World)
  : Prop := {
  inv_job : exists jb new,
      jobs w !! j = Some jb /\ trace w = tr0 ++ new /\ job_inv j n k extra new jb;
  inv_pending : forall k' e v, In (Deferred k' e v) (pending w) -> cont_within j n k';
  inv_done : forall j' jb', jobs w !! j' = Some jb' -> cont_within j n (done_cb jb')
}.

(** What a call needs to start from. *)
Definition pre (j n : nat) (k : cont) (tr0 : list event) (o : op) (w : World) : Prop :=
  match o with
  | Resolve _ callback => inv j n k tr0 [] w /\ cont_within j n callback
  | Invoke k' err v => inv j n k tr0 [EInvoke k' err v] w /\ cont_within j n k'
  end.

(** What the element callbacks of the [async.map] call [j] were called
    with, in order: index, error, value. *)
Definition item_event (j : nat) (ev : event) : option (nat * value * value) :=
  match ev with
  | EInvoke (KMapItem j' i) err v => if j' =? j then Some (i, err, v) else None
  | _ => None
  end.

Definition item_events (j : nat) (tr : list event) : list (nat * value * value) :=
  omap (item_event j) tr.

(** ** Clients of the container *)

(** One registration call: the operation, the name and the options. *)
Definition request : Type := registration * value * option Options.

(** The calls [reqs] made in turn on [c], by a client that goes on after
    a call that raised. *)
Definition perform_all (reqs : list request) (c : Container) : Container :=
  foldl (fun c (q : request) => or_else (perform q.1.1 q.1.2 q.2 c) c) c reqs.

(** Every interface of the index has implementations, and each of them
    is a registered name. *)
Definition well_indexed (c : Container) : Prop :=
  forall tag impls,
    _interfaces c !! tag = Some impls ->
    impls <> [] /\ forall name, name ∈ impls -> is_Some (_registry c !! name).

(** [container.registerInstance(name, v, { interfaces: [tag] })] for
    each [(name, v)] of [svcs], in order. *)
Definition register_implementations (tag : string) (svcs : list (string * value))
    (c : Container) : Container :=
  foldl (fun c (nv : string * value) =>
           or_else (registerInstance (VStr nv.1) nv.2 (implementing [tag]) c) c)
        c svcs.

(** The events of the container's own callbacks: neither a call of a
    user function, or of a function it passed to [resolve], nor a call of
    a client's callback. *)
Definition internal (ev : event) : Prop :=
  match ev with
  | ECall _ _ | EInvoke (KTop _) _ _ | EInvoke (KUser _ _) _ _ => False
  | EInvoke _ _ _ => True
  end.

(** The three registrations that resolve the dependencies of [f] before
    applying it, each with the callback it hands to [resolve] and the
    names it asks for. *)
Inductive injection :=
| InjectCall
| InjectSync
| InjectCtor.

Definition injecting (i : injection) (f : jsfun) : asyncFactory :=
  match i with
  | InjectCall => ViaCall f
  | InjectSync => ViaCallSync f
  | InjectCtor => ViaCallCtor f
  end.

Definition injector (i : injection) : jsfun -> cont -> cont :=
  match i with
  | InjectCall => KCall
  | InjectSync => KSync
  | InjectCtor => KCtor
  end.

Definition injected (i : injection) (f : jsfun) : list string :=
  match i with
  | InjectCall => getDependenciesNames f true
  | InjectSync | InjectCtor => getDependenciesNames f false
  end.

(** What the function that [call], [callSync] or [callCtor] gave to
    [resolve] does with the services [vs], once it has found no error. *)
Definition supply (rec : op -> World -> Outcome) (i : injection) (f : jsfun)
    (vs : list value) (callback : cont) (w : World) : Outcome :=
  match i with
  | InjectCall => apply_fn rec f vs callback w
  | InjectSync => apply_sync rec f vs callback w
  | InjectCtor => apply_new rec f vs callback w
  end.

(** [name] is registered with [registerInstance]. *)
Definition instance_name (c : Container) (name : string) : Prop :=
  exists v cfg, _registry c !! name = Some {| factory := Instance v; config := cfg |}.

(** [name] stands for [v] in [c]: it is a registered instance [v] that
    the cache does not shadow, or it is an interface, and no service,
    whose implementations are such instances, [v] being the array of
    them in the order of the index. *)
Definition provided (c : Container) (name : string) (v : value) : Prop :=
  settled c name v \/
  exists impls vs,
    _registry c !! name = None /\ _interfaces c !! name = Some impls /\ impls <> [] /\
    Forall2 (settled c) impls vs /\ v = VArr vs.

(** [w1] is reached from [w] through the container's own callbacks:
    nothing was left to the event loop, no user function and no callback
    of a client was called, the [async.map] calls below [b] are as they
    were, the registry and the interface index too, and the cache changed
    at names of registered instances only, which still stand for their
    instances. *)
Definition quietly (b : nat) (w w1 : World) : Prop :=
  pending w1 = pending w /\
  (exists extra, trace w1 = trace w ++ extra /\ Forall internal extra) /\
  (forall j jb, j < b -> jobs w !! j = Some jb -> jobs w1 !! j = Some jb) /\
  _registry (container w1) = _registry (container w) /\
  _interfaces (container w1) = _interfaces (container w) /\
  (forall other, ~ instance_name (container w) other ->
     _instances (container w1) !! other = _instances (container w) !! other) /\
  (forall name v, settled (container w) name v -> settled (container w1) name v).

(** ** More sample functions and containers *)

(** [var i = 0; () => ++i] *)
Definition pre_increment : jsfun :=
  {| fid := 6; is_constructor := false; fn_length := 0;
     params := []; require := None;
     body := fun _ n => Returns (VNum (Z.of_nat (S n))) |}.

(** [callback => callback(new Error('no database'), 'partial')] *)
Definition fails : jsfun :=
  {| fid := 7; is_constructor := false; fn_length := 1;
     params := ["callback"]; require := None;
     body := fun _ _ => CallsBack (VError "no database") (VStr "partial") |}.

(** [callback => callback(0, 'ready')] *)
Definition answers_with_zero : jsfun :=
  {| fid := 8; is_constructor := false; fn_length := 1;
     params := ["callback"]; require := None;
     body := fun _ _ => CallsBack (VNum 0) (VStr "ready") |}.

(** [var i = 0; cb => { const n = ++i; setImmediate(() => cb(null, n)) }] *)
Definition counts_later : jsfun :=
  {| fid := 9; is_constructor := false; fn_length := 1;
     params := ["cb"]; require := None;
     body := fun _ n => CallsBackLater VNull (VNum (Z.of_nat (S n))) |}.

(** [function serviceC (serviceA, serviceB, callback) {
       callback(null, [serviceA, serviceB]) }] *)
Definition serviceC : jsfun :=
  {| fid := 10; is_constructor := true; fn_length := 3;
     params := ["serviceA"; "serviceB"; "callback"]; require := None;
     body := fun args _ => CallsBack VNull (VArr args) |}.

(** [(serviceA, serviceB) => [serviceA, serviceB]] *)
Definition depends_on_two : jsfun :=
  {| fid := 11; is_constructor := false; fn_length := 2;
     params := ["serviceA"; "serviceB"]; require := None;
     body := fun args _ => Returns (VArr args) |}.

(** [(loop) => [loop]] *)
Definition needs_itself : jsfun :=
  {| fid := 12; is_constructor := false; fn_length := 1;
     params := ["loop"]; require := None;
     body := fun args _ => Returns (VArr args) |}.

(** [(serviceA, ghost, serviceB) => [serviceA, ghost, serviceB]] *)
Definition needs_ghost : jsfun :=
  {| fid := 13; is_constructor := false; fn_length := 3;
     params := ["serviceA"; "ghost"; "serviceB"]; require := None;
     body := fun args _ => Returns (VArr args) |}.

Definition with_pre_increment (options : option Options) : Container :=
  or_else (registerSync (VStr "service") (Fn pre_increment) options new_Container)
    new_Container.

Definition with_services_A_B : Container :=
  let c := or_else (registerInstance (VStr "serviceA") (VObj 1) None new_Container)
             new_Container in
  or_else (registerInstance (VStr "serviceB") (VObj 2) None c) c.

(** [new_World c] after the registration [r] under [name]. *)
Definition registered (r : registration) (name : string) (c : Container) : World :=
  new_World (or_else (perform r (VStr name) None c) c).

(** What an execution from [w] keeps, when it ends: the registry and the
    interface index, the trace as a prefix, a cache whose new entries the
    new events justify, and a sound world. *)
Definition keeps_registrations (w : World) (o : Outcome) : Prop :=
  match final o with
  | Some w' =>
      _registry (container w') = _registry (container w) /\
      _interfaces (container w') = _interfaces (container w) /\
      sound w' /\
      exists new, trace w' = trace w ++ new /\ cache_justified new w w'
  | None => True
  end.

(** Two services registered as implementations of ["plugin"]. *)
Definition plugins : list (string * value) := [("first", VObj 1); ("second", VObj 2)].

(** The function [f], applied under the injection [i] to [vs] at its
    invocation number [n], reports the value [v]: under [call] by calling
    its callback without error and with [v]; under [callSync] by
    returning [v]; under [callCtor], [f] being a constructor, by
    returning, [v] being what [new] evaluates to then (the object [f]
    returned, or else the new instance). *)
Definition produces (i : injection) (f : jsfun) (vs : list value) (n : nat)
    (v : value) : Prop :=
  match i, body f vs n with
  | InjectCall, CallsBack err v' => truthy err = false /\ v' = v
  | InjectSync, Returns v' => v' = v
  | InjectCtor, Returns r => is_constructor f = true /\ constructed f n (Returns r) = v
  | _, _ => False
  end.

(** Whether the stored factory gets to apply the function it wraps once
    the dependencies are there: [callCtor] does not, for a function that
    is not a constructor. *)
Definition reaches (af : asyncFactory) : bool :=
  match af with
  | ViaCallCtor f => is_constructor f
  | _ => true
  end.

(** [(heater, pump) => [heater, pump]], a coffee maker. *)
Definition coffee_maker : jsfun :=
  {| fid := 14; is_constructor := false; fn_length := 2;
     params := ["heater"; "pump"]; require := None;
     body := fun args _ => Returns (VArr args) |}.

Definition brewing : Container :=
  let c := or_else (registerInstance (VStr "heater") (VObj 1) None new_Container)
             new_Container in
  let c := or_else (registerInstance (VStr "pump") (VObj 2) None c) c in
  or_else (registerSync (VStr "coffee_maker") (Fn coffee_maker) None c) c.

(** [(heater, pump, callback) => { throw new Error('no water') }] *)
Definition leaks : jsfun :=
  {| fid := 15; is_constructor := false; fn_length := 3;
     params := ["heater"; "pump"; "callback"]; require := None;
     body := fun _ _ => Throws (VError "no water") |}.

(** [function logger (bunyan, loggerStream) { return [bunyan, loggerStream] }],
    the logger of the README, and its container: two streams that
    implement ['loggerStream']. *)
Definition logger : jsfun :=
  {| fid := 16; is_constructor := true; fn_length := 2;
     params := ["bunyan"; "loggerStream"]; require := None;
     body := fun args _ => Returns (VArr args) |}.

Definition logging : Container :=
  let c := or_else (registerInstance (VStr "bunyan") (VObj 1) None new_Container)
             new_Container in
  let c := or_else (registerInstance (VStr "file_stream") (VObj 2)
                      (implementing ["loggerStream"]) c) c in
  let c := or_else (registerInstance (VStr "stdout_stream") (VObj 3)
                      (implementing ["loggerStream"]) c) c in
  or_else (registerSync (VStr "logger") (Fn logger) None c) c.

(** [function CoffeeMaker (heater, pump) { this.heater = heater;
    this.pump = pump }], the constructor of the README. *)
Definition CoffeeMaker : jsfun :=
  {| fid := 17; is_constructor := true; fn_length := 2;
     params := ["heater"; "pump"]; require := None;
     body := fun _ _ => Returns VUndefined |}.

(** [function Boxed (heater, pump) { return [heater, pump] }]: a
    constructor that returns an object of its own. *)
Definition Boxed : jsfun :=
  {| fid := 18; is_constructor := true; fn_length := 2;
     params := ["heater"; "pump"]; require := None;
     body := fun args _ => Returns (VArr args) |}.

(** The container of the README, with its classes registered the less
    verbose way: [registerCtor('coffee_maker', CoffeeMaker)]. *)
Definition brewing_with (ctor : jsfun) : Container :=
  let c := or_else (registerInstance (VStr "heater") (VObj 1) None new_Container)
             new_Container in
  let c := or_else (registerInstance (VStr "pump") (VObj 2) None c) c in
  or_else (registerCtor (VStr "coffee_maker") (Fn ctor) None c) c.

(** [() => v] *)
Definition constant (id : nat) (v : value) : jsfun :=
  {| fid := id; is_constructor := false; fn_length := 0;
     params := []; require := None;
     body := fun _ _ => Returns v |}.

(** The factory of the test 'should allow register a service with
    dependencies', which asks the container for its dependencies:
    [callback => { container.resolve(['serviceA', 'serviceB'],
       function (err, services) {
         if (err) { return callback(err); }
         callback(null, services) }) }] *)
Definition asks_for_two : jsfun :=
  {| fid := 19; is_constructor := false; fn_length := 1;
     params := ["callback"]; require := None;
     body := fun _ _ =>
       Resolves (Many ["serviceA"; "serviceB"])
         (fun err services =>
            if truthy err then CallsBack err VUndefined
            else CallsBack VNull services) |}.

(** The container of that test: [serviceA] and [serviceB] registered
    with [registerSync], [serviceC] with [register]. *)
Definition with_asking_service : Container :=
  let c := or_else (registerSync (VStr "serviceA") (Fn (constant 20 (VObj 1))) None
                      new_Container) new_Container in
  let c := or_else (registerSync (VStr "serviceB") (Fn (constant 21 (VObj 2))) None c) c in
  or_else (register (VStr "serviceC") (Fn asks_for_two) None c) c.

(** [callback => {
       container.resolve(['serviceA', 'serviceB'], (err, services) => {
         callback(new Error('unusable'), services) }) }] *)
Definition asks_then_fails : jsfun :=
  {| fid := 24; is_constructor := false; fn_length := 1;
     params := ["callback"]; require := None;
     body := fun _ _ =>
       Resolves (Many ["serviceA"; "serviceB"])
         (fun _ services => CallsBack (VError "unusable") services) |}.

Definition with_failing_asker : Container :=
  let c := or_else (registerSync (VStr "serviceA") (Fn (constant 20 (VObj 1))) None
                      new_Container) new_Container in
  let c := or_else (registerSync (VStr "serviceB") (Fn (constant 21 (VObj 2))) None c) c in
  or_else (register (VStr "serviceC") (Fn asks_then_fails) None c) c.

(** [function (callback) {
       container.resolve(['kept', 'fresh'], (err, services) => callback(err, services)) }]:
    a function that has the container resolve two names for its
    callback. *)
Definition asks_for_kept_and_fresh : jsfun :=
  {| fid := 22; is_constructor := true; fn_length := 1;
     params := ["callback"]; require := None;
     body := fun _ _ => Resolves (Many ["kept"; "fresh"]) CallsBack |}.

(** ** Resolution in direct style *)

(** The calls of user functions, in order: the function and its
    arguments. *)
Definition call_log : Type := list (nat * list value).

Definition call_of (ev : event) : option (nat * list value) :=
  match ev with
  | ECall f args => Some (f, args)
  | EInvoke _ _ _ => None
  end.

Definition calls_in (tr : list event) : call_log := omap call_of tr.

(** How many of the calls [cs] are calls of [f]. *)
Definition times (f : nat) (cs : list (nat * list value)) : nat :=
  length (filter (fun c : nat * list value => c.1 = f) cs).

(** The container after [this._instances.set(name, v)], made when
    [is_singleton] is truthy. *)
Definition cache_put (is_singleton : value) (name : string) (v : value)
    (c : Container) : Container :=
  if truthy is_singleton
  then {| _registry := _registry c;
          _instances := <[name := v]> (_instances c);
          _interfaces := _interfaces c |}
  else c.

(** What resolution computes when every factory involved answers before
    it returns, written without callbacks: [yields c cs t v c' cs'] says
    that from the container [c], after the calls [cs], the target [t]
    evaluates to [v], leaving the container [c'] and the calls [cs'].  A
    singleton with a truthy cached instance is that instance; a
    registered instance is itself; a factory stored as it is gets called;
    a factory stored as it is may ask the container for names first and
    call back with what it makes of the answer; a wrapped factory is
    applied to the values of its dependencies; an interface is the list
    of its implementations; a list is evaluated from left to right, and a
    singleton is cached as soon as it is made. *)
Inductive yields :
  Container -> call_log -> target -> value -> Container -> call_log -> Prop :=
| yields_cached c cs name r v :
    _registry c !! name = Some r ->
    truthy (singleton (config r)) = true ->
    _instances c !! name = Some v ->
    truthy v = true ->
    yields c cs (One name) v c cs
| yields_instance c cs name v cfg :
    _registry c !! name = Some {| factory := Instance v; config := cfg |} ->
    cache_unused name cfg c ->
    yields c cs (One name) v (cache_put (singleton cfg) name v c) cs
| yields_direct c cs name f cfg err v :
    _registry c !! name = Some {| factory := Direct f; config := cfg |} ->
    cache_unused name cfg c ->
    body f [] (times (fid f) cs) = CallsBack err v ->
    truthy err = false ->
    yields c cs (One name) v (cache_put (singleton cfg) name v c) (cs ++ [(fid f, [])])
| yields_asking c cs name f cfg t next answer c1 cs1 err v :
    _registry c !! name = Some {| factory := Direct f; config := cfg |} ->
    cache_unused name cfg c ->
    body f [] (times (fid f) cs) = Resolves t next ->
    yields c (cs ++ [(fid f, [])]) t answer c1 cs1 ->
    next VNull answer = CallsBack err v ->
    truthy err = false ->
    yields c cs (One name) v (cache_put (singleton cfg) name v c1) cs1
| yields_injected c cs name i f cfg vs v c1 cs1 :
    _registry c !! name = Some {| factory := injecting i f; config := cfg |} ->
    cache_unused name cfg c ->
    yields c cs (Many (injected i f)) (VArr vs) c1 cs1 ->
    produces i f vs (times (fid f) cs1) v ->
    yields c cs (One name) v (cache_put (singleton cfg) name v c1) (cs1 ++ [(fid f, vs)])
| yields_interface c cs name impls v c1 cs1 :
    _registry c !! name = None ->
    _interfaces c !! name = Some impls ->
    impls <> [] ->
    yields c cs (Many impls) v c1 cs1 ->
    yields c cs (One name) v c1 cs1
| yields_nil c cs :
    yields c cs (Many []) (VArr []) c cs
| yields_snoc c cs init vs c1 cs1 last v c2 cs2 :
    yields c cs (Many init) (VArr vs) c1 cs1 ->
    yields c1 cs1 (One last) v c2 cs2 ->
    yields c cs (Many (init ++ [last])) (VArr (vs ++ [v])) c2 cs2.

(** [w1] comes after [w] with nothing left to the event loop, no
    callback of a client called, and the [async.map] calls below [b] as
    they were. *)
Definition follows (b : nat) (w w1 : World) : Prop :=
  pending w1 = pending w /\
  (forall j jb, j < b -> jobs w !! j = Some jb -> jobs w1 !! j = Some jb) /\
  exists extra, trace w1 = trace w ++ extra /\ forall id, deliveries id extra = [].

(** With a budget of [F] nested calls and more, [resolve] on [t] calls
    its callback with [v], whatever the callback is, from a world that
    has the container [c'] and the calls [cs']. *)
Definition answers (F : nat) (c : Container) (cs : call_log) (t : target) (v : value)
    (c' : Container) (cs' : call_log) : Prop :=
  forall fuel k w,
    F <= fuel -> container w = c -> calls_in (trace w) = cs ->
    exists n w1,
      fuel <= n + F /\ follows (length (jobs w)) w w1 /\
      container w1 = c' /\ calls_in (trace w1) = cs' /\
      resolve fuel t k w = invoke n k VNull v w1.

(** The same for the loop of an [async.map] call [j] that awaits more
    elements than the list has: the loop returns with the elements'
    callbacks called. *)
Definition loops (F : nat) (c : Container) (cs : call_log) (t : target) (v : value)
    (c' : Container) (cs' : call_log) : Prop :=
  match t with
  | One _ => True
  | Many names =>
      forall fuel j hole index w jb,
        F <= fuel -> container w = c -> calls_in (trace w) = cs ->
        jobs w !! j = Some jb -> fired jb = false ->
        (forall x, x ∈ seen jb -> x < index /\ x <> hole) ->
        hole < index \/ index + length names <= hole ->
        completed jb + length names < total jb ->
        exists w' jb',
          map_loop (exec fuel) j names index w = Normal w' /\
          follows j w w' /\ container w' = c' /\ calls_in (trace w') = cs' /\
          jobs w' !! j = Some jb' /\
          fired jb' = false /\ done_cb jb' = done_cb jb /\ total jb' = total jb /\
          completed jb' = completed jb + length names /\
          (forall x, x ∈ seen jb' -> x < index + length names /\ x <> hole) /\
          (length (results jb) = index -> results jb' = results jb ++ args_of v)
  end.

(** ** Lists whose elements answer at once or later *)

(** [name] is a service that answers later with [v]: it is not
    answered from the cache, and its factory, which [register] stored as
    it is or wrapped (its dependencies are then registered instances or
    interfaces implemented by registered instances, of values [vs]),
    ends every invocation by calling its callback without error and with
    [v] from a later turn of the event loop. *)
Definition slow (c : Container) (name : string) (v : value) : Prop :=
  exists af f cfg vs,
    _registry c !! name = Some {| factory := af; config := cfg |} /\
    cache_unused name cfg c /\
    ((af = Direct f /\ vs = []) \/
     (af = ViaCall f /\ Forall2 (provided c) (getDependenciesNames f true) vs)) /\
    forall n, body f vs n = CallsBackLater VNull v.

(** An element of a list to resolve: its name, the value it resolves
    to, and whether it answers later or at once. *)
Record element := {
  el_name : string;
  el_value : value;
  el_later : bool
}.

(** The element stands for its value in [c]: at once as a registered
    instance or an interface of registered instances, or later as a slow
    service. *)
Definition answering (c : Container) (e : element) : Prop :=
  if el_later e then slow c (el_name e) (el_value e)
  else provided c (el_name e) (el_value e).

(** The three services of [with_slow_services], which answer later,
    and the two of them that implement ["stream"]. *)
Definition slow_three : list element :=
  [ {| el_name := "a"; el_value := VObj 1; el_later := true |};
    {| el_name := "b"; el_value := VObj 2; el_later := true |};
    {| el_name := "c"; el_value := VObj 3; el_later := true |} ].

Definition slow_streams : list element :=
  [ {| el_name := "b"; el_value := VObj 2; el_later := true |};
    {| el_name := "c"; el_value := VObj 3; el_later := true |} ].

(** [function (a, b) { return [a, b] }] with ['@require'] set to
    [['b', 'a']], registered with [registerSync] next to two services
    that answer later. *)
Definition swapped_pair : jsfun :=
  {| fid := 23; is_constructor := true; fn_length := 2;
     params := ["a"; "b"]; require := Some ["b"; "a"];
     body := fun args _ => Returns (VArr args) |}.

Definition with_swapped : Container :=
  let c := or_else (register (VStr "a") (Fn (later 11 (VObj 1))) None new_Container)
             new_Container in
  let c := or_else (register (VStr "b") (Fn (later 12 (VObj 2))) None c) c in
  or_else (registerSync (VStr "svc") (Fn swapped_pair) None c) c.

(** How many elements answer later. *)
Definition later_ones (els : list element) : nat :=
  length (filter (fun e => el_later e = true) els).

(** The picks [sched] run all of the [m] invocations that wait at the
    end of the event loop's queue, from position [p] on, in some order:
    each pick is one of those that still wait.  Every order in which the
    [m] answers may arrive is such a list. *)
Fixpoint picks (p m : nat) (sched : list nat) : Prop :=
  match sched, m with
  | [], 0 => True
  | i :: rest, S m' => (p <= i < p + m) /\ picks p m' rest
  | _, _ => False
  end.

(** An answer that the event loop still holds: the position of the
    element in its list, its name, the [singleton] option of its
    registration and its value. *)
Record waiting := {
  wt_index : nat;
  wt_name : string;
  wt_singleton : value;
  wt_value : value
}.

(** The invocation the event loop holds for it: the callback [resolve]
    gave to the factory, closed over the element callback of the
    [async.map] call [j]. *)
Definition task_of (j : nat) (t : waiting) : task :=
  Deferred (KStore (wt_name t) (wt_singleton t) (KMapItem j (wt_index t))) VNull (wt_value t).

(** The state [jb] of an [async.map] call over elements of values [vs]
    with final callback [k], when [index] elements have been handed to
    [resolve] and the answers [rem] are still to come: the final callback
    has not run, every element handed over has answered or is awaited,
    and the array holds, at the positions that have answered, the values
    of these positions. *)
Record awaiting (k : cont) (vs : list value) (index : nat) (rem : list waiting)
    (jb : job) : Prop := {
  aw_fired : fired jb = false;
  aw_done : done_cb jb = k;
  aw_total : total jb = length vs;
  aw_index : index <= length vs;
  aw_count : completed jb + length rem = index;
  aw_seen : forall i, i ∈ seen jb ->
              i < index /\ results jb !! i = vs !! i /\ i ∉ wt_index <$> rem;
  aw_rem : forall t, t ∈ rem -> wt_index t < index /\ vs !! wt_index t = Some (wt_value t);
  aw_nodup : NoDup (wt_index <$> rem);
  aw_cover : forall i, i < index -> i ∈ seen jb \/ i ∈ wt_index <$> rem;
  aw_len : length (results jb) <= index
}.

(** The services of [c1] are those of [c]: same registry, same
    interface index, a cache that differs at names of registered
    instances only, which still stand for their instances. *)
Definition same_services (c c1 : Container) : Prop :=
  _registry c1 = _registry c /\
  _interfaces c1 = _interfaces c /\
  (forall other, ~ instance_name c other -> _instances c1 !! other = _instances c !! other) /\
  (forall name v, settled c name v -> settled c1 name v).

(** [w1] comes after [w] with the same services, the [async.map] calls
    below [b] as they were, and no callback of a client called. *)
Definition calmly (b : nat) (w w1 : World) : Prop :=
  (forall j jb, j < b -> jobs w !! j = Some jb -> jobs w1 !! j = Some jb) /\
  (exists extra, trace w1 = trace w ++ extra /\ forall id, deliveries id extra = []) /\
  same_services (container w) (container w1).

(** ** Facts about registration *)

Lemma _addInterfaceMapping_registry name ifs c :
  _registry (_addInterfaceMapping name ifs c) = _registry c.
Proof. unfold _addInterfaceMapping. destruct ifs as [l|]; [destruct (0 <? length l)|]; reflexivity. Qed.

Lemma _addInterfaceMapping_instances name ifs c :
  _instances (_addInterfaceMapping name ifs c) = _instances c.
Proof. unfold _addInterfaceMapping. destruct ifs as [l|]; [destruct (0 <? length l)|]; reflexivity. Qed.

Lemma store_registry name af cfg c :
  _registry (store name af cfg c) = <[name := {| factory := af; config := cfg |}]> (_registry c).
Proof. unfold store. by rewrite _addInterfaceMapping_registry. Qed.

Lemma store_instances name af cfg c :
  _instances (store name af cfg c) = _instances c.
Proof. unfold store. by rewrite _addInterfaceMapping_instances. Qed.

(** A registration call that returns has stored the normalized factory
    under the checked name. *)
Lemma perform_returned r name options c c' :
  perform r name options c = Returned c' ->
  exists s af, checked_name name = Some s /\ normalized r = Some af /\
    c' = store s af (xtend default_register_options options) c.
Proof.
  destruct r as [f|f|f|v]; simpl;
    [unfold register|unfold registerSync|unfold registerCtor|unfold registerInstance];
    destruct (checked_name name) as [s|]; try discriminate.
  - destruct f as [f|v]; try discriminate.
    destruct (fn_length f =? 0); try discriminate.
    intros [= <-]. exists s. destruct (fn_length f =? 1); eauto.
  - destruct f as [f|v]; try discriminate. intros [= <-]. eauto.
  - destruct f as [f|v]; try discriminate. intros [= <-]. eauto.
  - destruct v; try discriminate; intros [= <-]; eauto.
Qed.


(** [_addInterfaceMapping] appends the name once per occurrence of the
    tag, behind the implementations registered earlier. *)
Lemma foldl_add_implementation_other name l (m : gmap string (list string)) i :
  i ∉ l -> foldl (add_implementation name) m l !! i = m !! i.
Proof.
  revert m. induction l as [|x l IH]; intros m Hi; simpl; [done|].
  apply not_elem_of_cons in Hi as [Hne Hi].
  rewrite IH by done. unfold add_implementation. by rewrite lookup_insert_ne.
Qed.

Lemma foldl_add_implementation name l (m : gmap string (list string)) i :
  i ∈ l ->
  foldl (add_implementation name) m l !! i =
  Some (default [] (m !! i) ++ replicate (length (filter (eq i) l)) name).
Proof.
  revert m. induction l as [|x l IH]; intros m Hi; simpl.
  - by apply elem_of_nil in Hi.
  - destruct (decide (i = x)) as [->|Hne].
    + rewrite filter_cons_True by done. simpl.
      destruct (decide (x ∈ l)) as [Hin|Hnin].
      * rewrite IH by done. unfold add_implementation.
        rewrite lookup_insert_eq. simpl. by rewrite <- app_assoc.
      * rewrite foldl_add_implementation_other by done.
        unfold add_implementation. rewrite lookup_insert_eq.
        assert (filter (eq x) l = []) as ->; [|done].
        clear -Hnin. induction l as [|y l IH]; [done|].
        apply not_elem_of_cons in Hnin as [Hne Hnin].
        rewrite filter_cons_False by done. auto.
    + rewrite filter_cons_False by done.
      apply elem_of_cons in Hi as [?|Hi]; [done|].
      rewrite IH by done. unfold add_implementation.
      by rewrite lookup_insert_ne.
Qed.

(** ** Basic facts about the engine *)

Lemma world_eta w : mkWorld (container w) (jobs w) (pending w) (trace w) = w.
Proof. by destruct w. Qed.

Lemma drop_task_defer t w : drop_task (length (pending w)) (defer t w) = w.
Proof.
  unfold drop_task, defer; simpl.
  replace (delete (length (pending w)) (pending w ++ [t])) with (pending w).
  - apply world_eta.
  - induction (pending w) as [|x l IH]; simpl; [done|]. by rewrite <- IH.
Qed.

Lemma deliveries_app id tr1 tr2 :
  deliveries id (tr1 ++ tr2) = deliveries id tr1 ++ deliveries id tr2.
Proof. apply omap_app. Qed.

Lemma calls_of_app f tr1 tr2 :
  calls_of f (tr1 ++ tr2) = calls_of f tr1 + calls_of f tr2.
Proof. unfold calls_of. by rewrite filter_app, length_app. Qed.

(** ** Unfolding equations *)

Lemma exec_resolve fuel name callback w :
  exec (S fuel) (Resolve name callback) w = resolve_ (exec fuel) name callback w.
Proof. reflexivity. Qed.

Lemma exec_invoke fuel k err v w :
  exec (S fuel) (Invoke k err v) w = invoke_ (exec fuel) k err v w.
Proof. reflexivity. Qed.

Lemma trace_log ev w : trace (log ev w) = trace w ++ [ev].
Proof. reflexivity. Qed.

Section Equations.

Variable rec : op -> World -> Outcome.

Lemma invoke_KTop id err v w :
  invoke_ rec (KTop id) err v w = Normal (log (EInvoke (KTop id) err v) w).
Proof. reflexivity. Qed.

Lemma invoke_KStore name sing callback err v w :
  truthy err = false ->
  invoke_ rec (KStore name sing callback) err v w =
  rec (Invoke callback VNull v)
    (if truthy sing
     then set_instance name v (log (EInvoke (KStore name sing callback) err v) w)
     else log (EInvoke (KStore name sing callback) err v) w).
Proof. intros H. unfold invoke_. by rewrite H. Qed.

Lemma invoke_KCall f callback err v w :
  truthy err = false ->
  invoke_ rec (KCall f callback) err v w =
  apply_fn rec f (args_of v) callback (log (EInvoke (KCall f callback) err v) w).
Proof. intros H. unfold invoke_. by rewrite H. Qed.

Lemma invoke_KSync f callback err v w :
  truthy err = false ->
  let w1 := log (EInvoke (KSync f callback) err v) w in
  invoke_ rec (KSync f callback) err v w =
  match apply_fn rec f (args_of v) KUndefined w1 with
  | Normal w' => rec (Invoke callback VNull (returned (behave f (args_of v) w1))) w'
  | o => o
  end.
Proof. intros H. unfold invoke_, apply_sync. by rewrite H. Qed.

Lemma invoke_KCtor f callback err v w :
  truthy err = false -> is_constructor f = true ->
  let w1 := log (EInvoke (KCtor f callback) err v) w in
  invoke_ rec (KCtor f callback) err v w =
  match apply_fn rec f (args_of v) KUndefined w1 with
  | Normal w' =>
      rec (Invoke callback VNull
             (constructed f (calls_of (fid f) (trace w1)) (behave f (args_of v) w1))) w'
  | o => o
  end.
Proof. intros H Hc. unfold invoke_, apply_new. by rewrite H, Hc. Qed.

Lemma invoke_KCtor_not_constructor f callback err v w :
  truthy err = false -> is_constructor f = false ->
  invoke_ rec (KCtor f callback) err v w =
  Thrown not_a_constructor (log (EInvoke (KCtor f callback) err v) w).
Proof. intros H Hc. unfold invoke_, apply_new. by rewrite H, Hc. Qed.

Lemma invoke_KUser next callback err v w :
  invoke_ rec (KUser next callback) err v w =
  run_body rec (next err v) callback (log (EInvoke (KUser next callback) err v) w).
Proof. reflexivity. Qed.

(** [async.map([], iteratee, callback)]: [callback(null, [])] at once. *)
Lemma async_map_nil callback w :
  async_map rec [] callback w =
  rec (Invoke callback VNull (VArr []))
    (set_job (length (jobs w)) (mkJob [] 0 0 true [] callback)
       (add_job (mkJob [] 0 0 false [] callback) w)).
Proof. reflexivity. Qed.

Lemma apply_fn_returns f args callback w v :
  behave f args w = Returns v ->
  apply_fn rec f args callback w = Normal (log (ECall (fid f) args) w).
Proof. intros H. unfold apply_fn. by rewrite H. Qed.

Lemma apply_fn_throws f args callback w e :
  behave f args w = Throws e ->
  apply_fn rec f args callback w = Thrown e (log (ECall (fid f) args) w).
Proof. intros H. unfold apply_fn. by rewrite H. Qed.

Lemma apply_fn_calls_back f args callback w err v :
  behave f args w = CallsBack err v ->
  apply_fn rec f args callback w = rec (Invoke callback err v) (log (ECall (fid f) args) w).
Proof. intros H. unfold apply_fn. by rewrite H. Qed.

Lemma apply_fn_calls_back_later f args callback w err v :
  behave f args w = CallsBackLater err v ->
  apply_fn rec f args callback w =
  Normal (defer (Deferred callback err v) (log (ECall (fid f) args) w)).
Proof. intros H. unfold apply_fn. by rewrite H. Qed.

Lemma apply_fn_resolves f args callback w name next :
  behave f args w = Resolves name next ->
  apply_fn rec f args callback w =
  rec (Resolve name (KUser next callback)) (log (ECall (fid f) args) w).
Proof. intros H. unfold apply_fn. by rewrite H. Qed.

End Equations.

(** Logging an invocation of a callback leaves the count of function
    calls as it is. *)
Lemma behave_log_invoke f args k err v w :
  behave f args (log (EInvoke k err v) w) = behave f args w.
Proof.
  unfold behave. rewrite trace_log, calls_of_app. simpl. by rewrite Nat.add_0_r.
Qed.

(** ** Unknown names *)

(** C4. For a name that is neither in the registry nor in the interface
    index, [resolve] returns without having called the callback: all it
    does is to leave one invocation of the callback for the event loop,
    with the error 'unknown service or interface <name>' (and no value).
    The callback is called when the event loop runs that invocation, and
    only then: a client's callback receives the error exactly once. *)
Theorem unknown_name_fails_asynchronously fuel name callback w :
  _registry (container w) !! name = None ->
  _interfaces (container w) !! name = None ->
  let failure := VError ("unknown service or interface " +:+ name) in
  exists w1,
    resolve (S fuel) (One name) callback w = Normal w1 /\
    trace w1 = trace w /\
    pending w1 = pending w ++ [Deferred callback failure VUndefined] /\
    container w1 = container w /\
    (forall fuel',
       run fuel' [length (pending w)] w1 = invoke fuel' callback failure VUndefined w) /\
    (forall id, callback = KTop id ->
       forall fuel', exists w2,
         run (S fuel') [length (pending w)] w1 = Normal w2 /\
         pending w2 = pending w /\
         deliveries id (trace w2) = deliveries id (trace w) ++ [(failure, VUndefined)]).
Proof.
  intros Hreg Hitf failure.
  exists (defer (Deferred callback failure VUndefined) w).
  assert (Hrun : forall fuel',
    run fuel' [length (pending w)] (defer (Deferred callback failure VUndefined) w)
    = invoke fuel' callback failure VUndefined w).
  { intros fuel'. simpl. rewrite lookup_app_r, Nat.sub_diag by lia. simpl.
    rewrite drop_task_defer. by destruct (invoke fuel' callback failure VUndefined w). }
  split; [|repeat split; try done].
  - unfold resolve. simpl. unfold resolve_. by rewrite Hreg, Hitf.
  - intros id -> fuel'. rewrite Hrun. eexists. split; [reflexivity|].
    split; [done|]. simpl. rewrite deliveries_app. simpl. by rewrite Nat.eqb_refl.
Qed.


Lemma unknown_name_fails_asynchronously_witness :
  exists w1,
    resolve 1 (One "ghost") (KTop 0) (new_World new_Container) = Normal w1 /\
    trace w1 = [] /\
    pending w1 = [Deferred (KTop 0) (VError "unknown service or interface ghost") VUndefined] /\
    exists w2,
      run 1 [0] w1 = Normal w2 /\
      pending w2 = [] /\
      deliveries 0 (trace w2) = [(VError "unknown service or interface ghost", VUndefined)].
Proof.
  destruct (unknown_name_fails_asynchronously 0 "ghost" (KTop 0) (new_World new_Container))
    as (w1 & H1 & H2 & H3 & _ & _ & H6).
  - reflexivity.
  - reflexivity.
  - exists w1. split; [exact H1|]. split; [exact H2|]. split; [exact H3|].
    destruct (H6 0 eq_refl 0) as (w2 & Hrun & Hpend & Hdel). exists w2. auto.
Defined.

(** ** More fuel changes nothing *)

Section Fuel.

Variables rec rec' : op -> World -> Outcome.
Hypothesis rec_refines : refines rec rec'.

Lemma run_body_refines b callback w :
  run_body rec b callback w <> OutOfFuel ->
  run_body rec' b callback w = run_body rec b callback w.
Proof. destruct b; simpl; auto. Qed.

Lemma apply_fn_refines f args callback w :
  apply_fn rec f args callback w <> OutOfFuel ->
  apply_fn rec' f args callback w = apply_fn rec f args callback w.
Proof. apply run_body_refines. Qed.

Lemma once_done_refines j jb err w :
  once_done rec j jb err w <> OutOfFuel ->
  once_done rec' j jb err w = once_done rec j jb err w.
Proof. unfold once_done. destruct (fired jb); auto. Qed.

Lemma item_done_refines j i err v w :
  item_done rec j i err v w <> OutOfFuel ->
  item_done rec' j i err v w = item_done rec j i err v w.
Proof.
  unfold item_done. destruct (jobs w !! j); [|done].
  destruct (bool_decide _); [done|].
  destruct (truthy err); [apply once_done_refines|].
  destruct (_ =? _); [apply once_done_refines|done].
Qed.

Lemma map_loop_refines j coll index w :
  map_loop rec j coll index w <> OutOfFuel ->
  map_loop rec' j coll index w = map_loop rec j coll index w.
Proof.
  revert index w. induction coll as [|name rest IH]; intros index w; simpl; [done|].
  intros H. rewrite rec_refines; [|by destruct (rec _ w)].
  destruct (rec _ w); auto.
Qed.

Lemma async_map_refines coll callback w :
  async_map rec coll callback w <> OutOfFuel ->
  async_map rec' coll callback w = async_map rec coll callback w.
Proof.
  unfold async_map. destruct coll; [apply once_done_refines|apply map_loop_refines].
Qed.

Lemma run_factory_refines af callback w :
  run_factory rec af callback w <> OutOfFuel ->
  run_factory rec' af callback w = run_factory rec af callback w.
Proof.
  destruct af; simpl; [apply apply_fn_refines|apply rec_refines..].
Qed.

Lemma resolve_refines name callback w :
  resolve_ rec name callback w <> OutOfFuel ->
  resolve_ rec' name callback w = resolve_ rec name callback w.
Proof.
  unfold resolve_. destruct name as [name|names]; [|apply async_map_refines].
  destruct (_registry (container w) !! name) as [r|].
  - destruct (truthy (singleton (config r))); [|apply run_factory_refines].
    destruct (_instances (container w) !! name) as [i|]; [|apply run_factory_refines].
    destruct (truthy i); [apply rec_refines|apply run_factory_refines].
  - destruct (_interfaces (container w) !! name) as [l|]; [|done].
    destruct (0 <? length l); [apply async_map_refines|done].
Qed.

Lemma apply_sync_refines f args callback w :
  apply_sync rec f args callback w <> OutOfFuel ->
  apply_sync rec' f args callback w = apply_sync rec f args callback w.
Proof.
  unfold apply_sync. intros H.
  rewrite apply_fn_refines; [|by destruct (apply_fn rec _ _ _ w)].
  destruct (apply_fn rec _ _ _ w); auto.
Qed.

Lemma apply_new_refines f args callback w :
  apply_new rec f args callback w <> OutOfFuel ->
  apply_new rec' f args callback w = apply_new rec f args callback w.
Proof.
  unfold apply_new. destruct (is_constructor f); [|done]. intros H.
  rewrite apply_fn_refines; [|by destruct (apply_fn rec _ _ _ w)].
  destruct (apply_fn rec _ _ _ w); auto.
Qed.

Lemma invoke_refines k err v w :
  invoke_ rec k err v w <> OutOfFuel ->
  invoke_ rec' k err v w = invoke_ rec k err v w.
Proof.
  destruct k as [id| |name sing callback|f callback|f callback|f callback|j i|next callback];
    unfold invoke_; try done.
  - destruct (truthy err); apply rec_refines.
  - destruct (truthy err); [apply rec_refines|apply apply_fn_refines].
  - destruct (truthy err); [apply rec_refines|apply apply_sync_refines].
  - destruct (truthy err); [apply rec_refines|apply apply_new_refines].
  - apply item_done_refines.
  - apply run_body_refines.
Qed.

Lemma exec_body_refines : refines (exec_body rec) (exec_body rec').
Proof. intros [name callback|k err v] w; [apply resolve_refines|apply invoke_refines]. Qed.

End Fuel.

Lemma exec_S_refines fuel : refines (exec fuel) (exec (S fuel)).
Proof.
  induction fuel as [|fuel IH]; [by intros o w []|].
  intros o w. simpl. by apply exec_body_refines.
Qed.

(** An execution that ends within [fuel] ends the same way within any
    larger budget. *)
Lemma exec_more_fuel fuel fuel' o w :
  fuel <= fuel' -> exec fuel o w <> OutOfFuel -> exec fuel' o w = exec fuel o w.
Proof.
  induction 1 as [|fuel' Hle IH]; [done|]. intros H.
  rewrite <- IH by done. apply exec_S_refines. by rewrite IH.
Qed.

Lemma run_more_fuel fuel fuel' sched w :
  fuel <= fuel' -> run fuel sched w <> OutOfFuel -> run fuel' sched w = run fuel sched w.
Proof.
  intros Hle. revert w. induction sched as [|i rest IH]; intros w; simpl; [done|].
  destruct (pending w !! i) as [[k err v]|]; [|apply IH].
  intros H. unfold invoke in *.
  rewrite (exec_more_fuel fuel fuel') by (done || by destruct (exec fuel _ _)).
  destruct (exec fuel _ _); auto.
Qed.

(** ** Re-registration *)

(** C8. Re-registering a name that is already in the registry, through
    any of the four registration operations, puts the new record under
    that name (the last write wins), leaves the other records alone, and
    does not touch the instance cache: an instance cached for that name
    stays. *)
Theorem reregistration_replaces_record_keeps_cache
    (r : registration) (name : value) (options : option Options)
    (c c' : Container) (s : string) (prior : Registration) :
  checked_name name = Some s ->
  _registry c !! s = Some prior ->
  perform r name options c = Returned c' ->
  (exists af, normalized r = Some af /\
     _registry c' !! s =
       Some {| factory := af; config := xtend default_register_options options |}) /\
  (forall other, other <> s -> _registry c' !! other = _registry c !! other) /\
  _instances c' = _instances c.
Proof.
  intros Hname _ Hperf.
  destruct (perform_returned _ _ _ _ _ Hperf) as (s' & af & Hname' & Hnorm & ->).
  rewrite Hname in Hname'. injection Hname' as <-.
  repeat split.
  - exists af. split; [done|]. rewrite store_registry. apply lookup_insert_eq.
  - intros other Hne. rewrite store_registry. by apply lookup_insert_ne.
  - apply store_instances.
Qed.

Lemma reregistration_replaces_record_keeps_cache_witness :
  let w := cached_then (ByRegisterInstance (VObj 6)) in
  _registry (container w) !! "a" =
    Some {| factory := Instance (VObj 6); config := default_register_options |} /\
  _instances (container w) !! "a" = Some (VObj 5).
Proof.
  pose (c := or_else (registerSync (VStr "a") (Fn constant_obj) None new_Container) new_Container).
  pose (w0 := match resolve 9 (One "a") (KTop 0) (new_World c) with
              | Normal w => w | _ => new_World c end).
  destruct (reregistration_replaces_record_keeps_cache
              (ByRegisterInstance (VObj 6)) (VStr "a") None (container w0)
              (container (cached_then (ByRegisterInstance (VObj 6)))) "a"
              {| factory := ViaCallSync constant_obj; config := default_register_options |})
    as ((af & Haf & Hreg) & _ & Hinst).
  - reflexivity.
  - vm_compute. reflexivity.
  - vm_compute. reflexivity.
  - simpl. split.
    + rewrite Hreg. injection Haf as <-. reflexivity.
    + rewrite Hinst. vm_compute. reflexivity.
Defined.

(** ** Singletons *)

(** A cached instance that is truthy is handed to the callback at once:
    no factory runs. *)
Lemma resolve_cached fuel name r instance callback w :
  _registry (container w) !! name = Some r ->
  truthy (singleton (config r)) = true ->
  _instances (container w) !! name = Some instance ->
  truthy instance = true ->
  resolve (S fuel) (One name) callback w = invoke fuel callback VNull instance w.
Proof.
  intros Hr Hs Hi Ht. unfold resolve, invoke. simpl. unfold resolve_.
  by rewrite Hr, Hs, Hi, Ht.
Qed.

(** A cached instance that is falsy is not seen by [if (instance)]: the
    factory runs again. *)
Lemma resolve_cached_falsy fuel name r instance callback w :
  _registry (container w) !! name = Some r ->
  _instances (container w) !! name = Some instance ->
  truthy instance = false ->
  resolve (S fuel) (One name) callback w =
  run_factory (exec fuel) (factory r) (KStore name (singleton (config r)) callback) w.
Proof.
  intros Hr Hi Ht. unfold resolve. simpl. unfold resolve_.
  rewrite Hr, Hi, Ht. by destruct (truthy (singleton (config r))).
Qed.

Lemma resolve_uncached fuel name r callback w :
  _registry (container w) !! name = Some r ->
  _instances (container w) !! name = None ->
  resolve (S fuel) (One name) callback w =
  run_factory (exec fuel) (factory r) (KStore name (singleton (config r)) callback) w.
Proof.
  intros Hr Hi. unfold resolve. simpl. unfold resolve_.
  rewrite Hr, Hi. by destruct (truthy (singleton (config r))).
Qed.

Lemma resolve_cache_unused fuel name r callback w :
  _registry (container w) !! name = Some r ->
  cache_unused name (config r) (container w) ->
  resolve (S fuel) (One name) callback w =
  run_factory (exec fuel) (factory r) (KStore name (singleton (config r)) callback) w.
Proof.
  intros Hr [Hs|[Hi|(i & Hi & Ht)]].
  - unfold resolve. rewrite exec_resolve. cbn [resolve_]. by rewrite Hr, Hs.
  - by apply resolve_uncached.
  - by apply (resolve_cached_falsy _ _ _ i).
Qed.

(** One resolution of a service registered with [registerSync] whose
    factory has no dependencies and returns, from a state where the cache
    is not used. *)
Lemma resolve_sync_nodeps fuel name f cfg id w v :
  _registry (container w) !! name = Some {| factory := ViaCallSync f; config := cfg |} ->
  truthy (singleton cfg) = true ->
  (_instances (container w) !! name = None \/
   exists i, _instances (container w) !! name = Some i /\ truthy i = false) ->
  getDependenciesNames f false = [] ->
  behave f [] w = Returns v ->
  exists w1,
    resolve (5 + fuel) (One name) (KTop id) w = Normal w1 /\
    _registry (container w1) = _registry (container w) /\
    _instances (container w1) = <[name := v]> (_instances (container w)) /\
    trace w1 = trace w ++
      [EInvoke (KSync f (KStore name (singleton cfg) (KTop id))) VNull (VArr []);
       ECall (fid f) [];
       EInvoke (KStore name (singleton cfg) (KTop id)) VNull v;
       EInvoke (KTop id) VNull v].
Proof.
  intros Hr Hs Hi Hdeps Hb.
  assert (resolve (5 + fuel) (One name) (KTop id) w =
          run_factory (exec (4 + fuel)) (ViaCallSync f) (KStore name (singleton cfg) (KTop id)) w)
    as ->.
  { change (5 + fuel) with (S (4 + fuel)). destruct Hi as [Hi|(i & Hi & Ht)].
    - by rewrite (resolve_uncached _ _ _ _ _ Hr Hi).
    - by rewrite (resolve_cached_falsy _ _ _ _ _ _ Hr Hi Ht). }
  unfold run_factory, callSync. rewrite Hdeps.
  change (4 + fuel) with (S (S (S (S fuel)))).
  rewrite exec_resolve. cbn [resolve_]. rewrite async_map_nil.
  rewrite exec_invoke, invoke_KSync by done. cbn zeta. cbn [args_of].
  rewrite behave_log_invoke.
  match goal with |- context [behave f [] ?w'] =>
    assert (behave f [] w' = Returns v) as Hb' by (by rewrite <- Hb); rewrite Hb' end.
  rewrite (apply_fn_returns _ _ _ _ _ v) by (by rewrite behave_log_invoke).
  cbn [returned].
  rewrite exec_invoke, invoke_KStore by done. rewrite Hs.
  rewrite exec_invoke, invoke_KTop.
  eexists. split; [reflexivity|]. simpl. repeat split.
  by rewrite <- !app_assoc.
Qed.

Lemma calls_of_cons f ev tr :
  calls_of f (ev :: tr) = (if is_call f ev then 1 else 0) + calls_of f tr.
Proof.
  unfold calls_of. destruct (is_call f ev) eqn:E.
  - by rewrite filter_cons_True.
  - rewrite filter_cons_False; [done|]. by rewrite E.
Qed.

(** C1. At the failing input of the claim: a singleton registered with
    [registerSync] whose factory has no dependencies and first produces a
    falsy value.  The first resolution succeeds with that value and
    caches it; the second, started after the first has completed, does
    not find it under [if (instance)], runs the factory again and succeeds
    with whatever the factory produces then: two invocations of the
    factory across the two calls. *)
Theorem singleton_falsy_instance_produced_again
    (fuel : nat) (name : string) (f : jsfun) (cfg : Config)
    (produce : nat -> value) (a b : nat) (w : World) :
  _registry (container w) !! name = Some {| factory := ViaCallSync f; config := cfg |} ->
  truthy (singleton cfg) = true ->
  _instances (container w) !! name = None ->
  getDependenciesNames f false = [] ->
  (forall n, body f [] n = Returns (produce n)) ->
  let n := calls_of (fid f) (trace w) in
  truthy (produce n) = false ->
  exists w1 w2,
    resolve (5 + fuel) (One name) (KTop a) w = Normal w1 /\
    resolve (5 + fuel) (One name) (KTop b) w1 = Normal w2 /\
    deliveries a (drop (length (trace w)) (trace w1)) = [(VNull, produce n)] /\
    deliveries b (drop (length (trace w1)) (trace w2)) = [(VNull, produce (S n))] /\
    invocations (fid f) (drop (length (trace w)) (trace w2)) = [[]; []].
Proof.
  intros Hr Hs Hi Hdeps Hbody n Hfalsy.
  destruct (resolve_sync_nodeps fuel name f cfg a w (produce n))
    as (w1 & Hres1 & Hreg1 & Hinst1 & Htr1); auto.
  { unfold behave. apply Hbody. }
  assert (Hn1 : calls_of (fid f) (trace w1) = S n).
  { rewrite Htr1, calls_of_app, !calls_of_cons. simpl. rewrite Nat.eqb_refl.
    unfold calls_of at 2. simpl. fold n. lia. }
  destruct (resolve_sync_nodeps fuel name f cfg b w1 (produce (S n)))
    as (w2 & Hres2 & Hreg2 & Hinst2 & Htr2); auto.
  { by rewrite Hreg1. }
  { right. exists (produce n). split; [|done]. rewrite Hinst1. apply lookup_insert_eq. }
  { unfold behave. rewrite Hn1. apply Hbody. }
  exists w1, w2. repeat split; [done|done|..].
  - rewrite Htr1, drop_app_length. simpl. by rewrite Nat.eqb_refl.
  - rewrite Htr2, drop_app_length. simpl. by rewrite Nat.eqb_refl.
  - rewrite Htr2, Htr1, <- app_assoc, drop_app_length. simpl. by rewrite Nat.eqb_refl.
Qed.

Lemma singleton_falsy_instance_produced_again_witness :
  exists w1 w2,
    resolve 5 (One "service") (KTop 0) (new_World with_post_increment) = Normal w1 /\
    resolve 5 (One "service") (KTop 1) w1 = Normal w2 /\
    deliveries 0 (trace w1) = [(VNull, VNum 0)] /\
    deliveries 1 (drop (length (trace w1)) (trace w2)) = [(VNull, VNum 1)] /\
    invocations 1 (trace w2) = [[]; []].
Proof.
  apply (singleton_falsy_instance_produced_again 0 "service" post_increment
           default_register_options (fun n => VNum (Z.of_nat n)) 0 1
           (new_World with_post_increment)).
  - vm_compute. reflexivity.
  - reflexivity.
  - vm_compute. reflexivity.
  - reflexivity.
  - reflexivity.
  - reflexivity.
Defined.

(** ** Exceptions raised by synchronous factories *)

(** C2, as the code has it. When the factory (or constructor) of a
    service registered with [registerSync] or [registerCtor] raises, the
    exception is not turned into an error for the completion callback:
    it leaves the callback that [callSync] / [callCtor] gave to [resolve]
    as it was raised, with the completion callback not invoked and
    nothing cached; and when the factory has no dependencies (and the
    name is not answered from the cache) it is raised synchronously out
    of [resolve] itself, to the resolving caller.  (Under [registerCtor],
    a function that is not a constructor is not even entered: [new]
    raises its [TypeError], which leaves [resolve] the same way.) *)
Theorem sync_factory_exception_propagates
    (fuel : nat) (f : jsfun) (e : value) (callback : cont) (services : value)
    (w : World) :
  (forall args n, body f args n = Throws e) ->
  let at_throw k :=
    log (ECall (fid f) (args_of services)) (log (EInvoke k VNull services) w) in
  invoke (S fuel) (KSync f callback) VNull services w
    = Thrown e (at_throw (KSync f callback)) /\
  invoke (S fuel) (KCtor f callback) VNull services w
    = (if is_constructor f then Thrown e (at_throw (KCtor f callback))
       else Thrown not_a_constructor (log (EInvoke (KCtor f callback) VNull services) w)) /\
  forall name cfg wrap af,
    (wrap = KSync /\ af = ViaCallSync f) \/ (wrap = KCtor /\ af = ViaCallCtor f) ->
    _registry (container w) !! name = Some {| factory := af; config := cfg |} ->
    cache_unused name cfg (container w) ->
    getDependenciesNames f false = [] ->
    exists w',
      resolve (3 + fuel) (One name) callback w
        = Thrown (if reaches af then e else not_a_constructor) w' /\
      container w' = container w /\
      pending w' = pending w /\
      trace w' = trace w ++
        EInvoke (wrap f (KStore name (singleton cfg) callback)) VNull (VArr [])
        :: (if reaches af then [ECall (fid f) []] else []).
Proof.
  intros Hbody at_throw.
  assert (Hthrow : forall args w0, behave f args w0 = Throws e).
  { intros. apply Hbody. }
  split; [|split].
  - unfold invoke. rewrite exec_invoke, invoke_KSync by done. cbn zeta.
    by rewrite (apply_fn_throws _ _ _ _ _ e).
  - unfold invoke. rewrite exec_invoke.
    destruct (is_constructor f) eqn:Hc.
    + rewrite invoke_KCtor by done. cbn zeta. by rewrite (apply_fn_throws _ _ _ _ _ e).
    + by rewrite invoke_KCtor_not_constructor.
  - intros name cfg wrap af Hwrap Hreg Hinst Hdeps.
    change (3 + fuel) with (S (S (S fuel))).
    rewrite (resolve_cache_unused _ _ _ _ _ Hreg Hinst). cbn [factory config].
    destruct Hwrap as [[-> ->]|[-> ->]]; cbn [run_factory reaches];
      unfold callSync, callCtor; rewrite Hdeps;
      rewrite exec_resolve; cbn [resolve_]; rewrite async_map_nil; rewrite exec_invoke.
    + rewrite invoke_KSync by done. cbn zeta.
      rewrite (apply_fn_throws _ _ _ _ _ e) by done.
      eexists. split; [reflexivity|]. simpl. repeat split. by rewrite <- app_assoc.
    + destruct (is_constructor f) eqn:Hc.
      * rewrite invoke_KCtor by done. cbn zeta.
        rewrite (apply_fn_throws _ _ _ _ _ e) by done.
        eexists. split; [reflexivity|]. simpl. repeat split. by rewrite <- app_assoc.
      * rewrite invoke_KCtor_not_constructor by done.
        eexists. split; [reflexivity|]. simpl. by repeat split.
Qed.

Lemma sync_factory_exception_propagates_witness :
  exists w',
    resolve 3 (One "svc") (KTop 0) (new_World with_boom) = Thrown (VError "boom") w' /\
    container w' = with_boom /\
    pending w' = [] /\
    trace w' =
      [EInvoke (KSync boom (KStore "svc" (VBool true) (KTop 0))) VNull (VArr []);
       ECall 2 []].
Proof.
  destruct (sync_factory_exception_propagates 0 boom (VError "boom") (KTop 0) VNull
              (new_World with_boom)) as (_ & _ & H).
  - reflexivity.
  - apply (H "svc" default_register_options KSync (ViaCallSync boom)).
    + left. by split.
    + vm_compute. reflexivity.
    + right. left. vm_compute. reflexivity.
    + reflexivity.
Defined.

(** C2, the claim as stated, fails: the factory of ["svc"] raises, the
    exception reaches the caller of [resolve], and the callback gets
    nothing. *)
Lemma thrown_factory_error_is_not_delivered :
  exists w',
    registerSync (VStr "svc") (Fn boom) None new_Container = Returned with_boom /\
    resolve 9 (One "svc") (KTop 0) (new_World with_boom) = Thrown (VError "boom") w' /\
    deliveries 0 (trace w') = [].
Proof.
  eexists. split; [reflexivity|]. split; [vm_compute; reflexivity|]. reflexivity.
Qed.

(** ** Registered instances *)

Lemma resolve_instance fuel name v cfg id w :
  _registry (container w) !! name = Some {| factory := Instance v; config := cfg |} ->
  unshadowed name v cfg (container w) ->
  exists w',
    resolve (3 + fuel) (One name) (KTop id) w = Normal w' /\
    deliveries id (drop (length (trace w)) (trace w')) = [(VNull, v)] /\
    _registry (container w') = _registry (container w) /\
    unshadowed name v cfg (container w').
Proof.
  intros Hreg Hun. change (3 + fuel) with (S (S (S fuel))).
  assert (Hfresh : exists w',
    run_factory (exec (S (S fuel))) (Instance v) (KStore name (singleton cfg) (KTop id)) w
      = Normal w' /\
    deliveries id (drop (length (trace w)) (trace w')) = [(VNull, v)] /\
    _registry (container w') = _registry (container w) /\
    unshadowed name v cfg (container w')).
  { cbn [run_factory]. rewrite exec_invoke, invoke_KStore by done.
    rewrite exec_invoke, invoke_KTop.
    eexists. split; [reflexivity|].
    destruct (truthy (singleton cfg)) eqn:Hs;
      cbn [trace log set_instance container _instances _registry];
      rewrite <- app_assoc, drop_app_length; (split; [simpl; by rewrite Nat.eqb_refl|]).
    - repeat split. right. intros cached. cbn [_instances].
      rewrite lookup_insert_eq. congruence.
    - repeat split. by left. }
  unfold resolve. rewrite exec_resolve. cbn [resolve_]. rewrite Hreg. cbn [factory config].
  destruct (truthy (singleton cfg)) eqn:Hs; [|done].
  destruct (_instances (container w) !! name) as [cached|] eqn:Hc; [|done].
  destruct (truthy cached) eqn:Ht; [|done].
  destruct Hun as [Hun|Hun]; [congruence|].
  rewrite (Hun cached Hc Ht).
  rewrite exec_invoke, invoke_KTop. eexists. split; [reflexivity|].
  cbn [trace log container]. rewrite drop_app_length.
  split; [simpl; by rewrite Nat.eqb_refl|]. repeat split.
  right. intros c' Hc'. rewrite Hc in Hc'. injection Hc' as <-. intros _. by apply Hun.
Qed.

(** C7, as the code has it. A name whose record is the one
    [registerInstance] stored for [v] resolves to exactly [v], on every
    call, whether the configuration says singleton or transient, as long
    as the cache does not hold another truthy value under that name; and
    the resolution keeps it that way for the next call.  (Registering does
    not clear the cache, so an instance cached under an earlier
    registration of the name keeps being returned to a singleton.) *)
Theorem registered_instance_resolves_to_itself
    (fuel : nat) (name : string) (v : value) (cfg : Config) (id : nat) (w : World) :
  _registry (container w) !! name = Some {| factory := Instance v; config := cfg |} ->
  unshadowed name v cfg (container w) ->
  exists w',
    resolve (3 + fuel) (One name) (KTop id) w = Normal w' /\
    deliveries id (drop (length (trace w)) (trace w')) = [(VNull, v)] /\
    _registry (container w') !! name = Some {| factory := Instance v; config := cfg |} /\
    unshadowed name v cfg (container w').
Proof.
  intros Hreg Hun.
  destruct (resolve_instance fuel name v cfg id w Hreg Hun) as (w' & H1 & H2 & H3 & H4).
  exists w'. by rewrite H3.
Qed.

Lemma registered_instance_resolves_to_itself_witness :
  let c := or_else (registerInstance (VStr "zero") (VNum 0) transient new_Container)
             new_Container in
  exists w',
    resolve 3 (One "zero") (KTop 0) (new_World c) = Normal w' /\
    deliveries 0 (drop 0 (trace w')) = [(VNull, VNum 0)] /\
    _registry (container w') !! "zero" =
      Some {| factory := Instance (VNum 0);
              config := {| singleton := VBool false; interfaces := None |} |} /\
    unshadowed "zero" (VNum 0) {| singleton := VBool false; interfaces := None |}
      (container w').
Proof.
  apply (registered_instance_resolves_to_itself 0 "zero" (VNum 0)
           {| singleton := VBool false; interfaces := None |} 0).
  - vm_compute. reflexivity.
  - left. reflexivity.
Defined.

(** C7, the claim as stated, fails: ["a"] was resolved as a singleton
    before [registerInstance] put the object [6] under it; resolving ["a"]
    yields the object [5] cached then. *)
Lemma cached_instance_shadows_registered_one :
  exists w',
    _registry (container (cached_then (ByRegisterInstance (VObj 6)))) !! "a" =
      Some {| factory := Instance (VObj 6); config := default_register_options |} /\
    resolve 9 (One "a") (KTop 1) (cached_then (ByRegisterInstance (VObj 6))) = Normal w' /\
    deliveries 1 (trace w') = [(VNull, VObj 5)].
Proof.
  eexists. split; [vm_compute; reflexivity|]. split; [vm_compute; reflexivity|]. reflexivity.
Qed.

(** C9, as the code has it. Under a valid name, [registerInstance] raises
    'instance is required' for [undefined] and for nothing else: every
    other instance, falsy ones included, is stored, and resolving the name
    in the container it returns succeeds with that instance, as long as
    the cache does not hold another truthy value under that name. *)
Theorem registerInstance_rejects_only_undefined
    (name : value) (s : string) (instance : value) (options : option Options)
    (c : Container) :
  checked_name name = Some s ->
  (instance = VUndefined ->
     registerInstance name instance options c = Raised (VError "instance is required")) /\
  (instance <> VUndefined ->
     let cfg := xtend default_register_options options in
     exists c',
       registerInstance name instance options c = Returned c' /\
       _registry c' !! s = Some {| factory := Instance instance; config := cfg |} /\
       _instances c' = _instances c /\
       forall fuel id w,
         container w = c' ->
         unshadowed s instance cfg c ->
         exists w',
           resolve (3 + fuel) (One s) (KTop id) w = Normal w' /\
           deliveries id (drop (length (trace w)) (trace w')) = [(VNull, instance)]).
Proof.
  intros Hname. unfold registerInstance. rewrite Hname. split.
  - by intros ->.
  - intros Hdef. set (cfg := xtend default_register_options options).
    exists (store s (Instance instance) cfg c).
    split; [by destruct instance|].
    split; [rewrite store_registry; apply lookup_insert_eq|].
    split; [apply store_instances|].
    intros fuel id w Hw Hun.
    destruct (resolve_instance fuel s instance cfg id w) as (w' & H1 & H2 & _).
    + rewrite Hw, store_registry. apply lookup_insert_eq.
    + rewrite Hw. unfold unshadowed in *. by rewrite store_instances.
    + eauto.
Qed.

Lemma registerInstance_rejects_only_undefined_witness :
  registerInstance (VStr "nothing") VUndefined None new_Container
    = Raised (VError "instance is required") /\
  exists c',
    registerInstance (VStr "nothing") VNull None new_Container = Returned c' /\
    exists w',
      resolve 3 (One "nothing") (KTop 0) (new_World c') = Normal w' /\
      deliveries 0 (trace w') = [(VNull, VNull)].
Proof.
  split.
  - destruct (registerInstance_rejects_only_undefined (VStr "nothing") "nothing"
                VUndefined None new_Container) as [H _]; [reflexivity|].
    by apply H.
  - destruct (registerInstance_rejects_only_undefined (VStr "nothing") "nothing"
                VNull None new_Container) as [_ H]; [reflexivity|].
    destruct H as (c' & Hreg & _ & _ & Hres); [discriminate|].
    exists c'. split; [exact Hreg|].
    apply (Hres 0 0 (new_World c')); [reflexivity|].
    right. intros cached Hc. vm_compute in Hc. discriminate.
Defined.

(** C9, the claim as stated, fails: [null] is accepted and stored under
    ["a"], but resolving ["a"] succeeds with the object [5] that was
    cached for ["a"] before. *)
Lemma cached_instance_shadows_stored_null :
  exists c w',
    registerInstance (VStr "a") VNull None
      (container (cached_then (ByRegisterSync (Fn constant_obj)))) = Returned c /\
    c = container (cached_then (ByRegisterInstance VNull)) /\
    _registry c !! "a" = Some {| factory := Instance VNull; config := default_register_options |} /\
    resolve 9 (One "a") (KTop 1) (cached_then (ByRegisterInstance VNull)) = Normal w' /\
    deliveries 1 (trace w') = [(VNull, VObj 5)].
Proof.
  do 2 eexists. split; [reflexivity|]. split; [vm_compute; reflexivity|].
  split; [vm_compute; reflexivity|]. split; [vm_compute; reflexivity|]. reflexivity.
Qed.

(** ** The frame of an execution *)

Lemma cont_registered_same c c' k :
  _registry c' = _registry c -> cont_registered c k -> cont_registered c' k.
Proof.
  intros Hr. induction k as [| |name sing k IH|f k IH|f k IH|f k IH| |next k IH];
    simpl; auto.
  intros [(r & Hreg & Hs) Hk]. split; [|auto]. exists r. by rewrite Hr.
Qed.

(** A world with the same registry whose callbacks are those of a sound
    world, or were made under the registry, is sound. *)
Lemma sound_ext w w' :
  _registry (container w') = _registry (container w) ->
  (forall k err v, In (Deferred k err v) (pending w') ->
     In (Deferred k err v) (pending w) \/ cont_registered (container w) k) ->
  (forall jb, In jb (jobs w') ->
     (exists jb0, In jb0 (jobs w) /\ done_cb jb = done_cb jb0) \/
     cont_registered (container w) (done_cb jb)) ->
  sound w -> sound w'.
Proof.
  intros Hr Hp Hj [Hpend Hjobs]. split.
  - intros k err v Hin. apply (cont_registered_same (container w)); [done|].
    destruct (Hp k err v Hin); eauto.
  - intros jb Hin. apply (cont_registered_same (container w)); [done|].
    destruct (Hj jb Hin) as [(jb0 & Hin0 & ->)|]; eauto.
Qed.

Lemma sound_new_World c : sound (new_World c).
Proof. split; simpl; intros; contradiction. Qed.

Lemma sound_log ev w : sound w -> sound (log ev w).
Proof. apply sound_ext; simpl; eauto. Qed.

Lemma sound_set_instance name v w : sound w -> sound (set_instance name v w).
Proof. apply sound_ext; simpl; eauto. Qed.

Lemma sound_drop_task i w : sound w -> sound (drop_task i w).
Proof.
  apply sound_ext; simpl; eauto. intros k err v Hin. left.
  apply list_elem_of_In. apply list_elem_of_In in Hin.
  by apply list_elem_of_delete_inv in Hin.
Qed.

Lemma sound_defer k err v w :
  cont_registered (container w) k -> sound w -> sound (defer (Deferred k err v) w).
Proof.
  intros Hk. apply sound_ext; simpl; eauto.
  intros k' err' v' [?|[[= <- <- <-]|[]]]%in_app_or; auto.
Qed.

Lemma sound_add_job jb w :
  cont_registered (container w) (done_cb jb) -> sound w -> sound (add_job jb w).
Proof.
  intros Hk. apply sound_ext; simpl; eauto.
  intros jb' [?|[<-|[]]]%in_app_or; eauto.
Qed.

Lemma sound_set_job j jb w :
  cont_registered (container w) (done_cb jb) -> sound w -> sound (set_job j jb w).
Proof.
  intros Hk. apply sound_ext; simpl; eauto.
  intros jb' Hin. apply list_elem_of_In, list_elem_of_lookup_1 in Hin as [j' Hj'].
  apply list_lookup_insert_Some in Hj' as [(_ & <- & _)|[_ Hj']]; [by right|].
  left. exists jb'. split; [|done]. apply list_elem_of_In. by eapply list_elem_of_lookup_2.
Qed.

Lemma sound_job j jb w :
  sound w -> jobs w !! j = Some jb -> cont_registered (container w) (done_cb jb).
Proof.
  intros [_ Hjobs] Hj. apply Hjobs, list_elem_of_In. by eapply list_elem_of_lookup_2.
Qed.

Lemma frame_sound w w' : frame w w' -> sound w'.
Proof. by intros (_ & _ & ? & _). Qed.

Lemma frame_registered w w' k :
  frame w w' -> cont_registered (container w) k -> cont_registered (container w') k.
Proof. intros (Hr & _). by apply cont_registered_same. Qed.

Lemma frame_refl w : sound w -> frame w w.
Proof.
  intros Hs. split; [done|]. split; [done|]. split; [done|].
  exists []. rewrite app_nil_r. split; [done|].
  intros name v H. by left.
Qed.

Lemma frame_trans w1 w2 w3 : frame w1 w2 -> frame w2 w3 -> frame w1 w3.
Proof.
  intros (Hr1 & Hi1 & _ & new1 & Ht1 & Hc1) (Hr2 & Hi2 & Hs & new2 & Ht2 & Hc2).
  unfold frame. rewrite Hr2, Hi2. split; [done|]. split; [done|]. split; [done|].
  exists (new1 ++ new2). split; [by rewrite Ht2, Ht1, app_assoc|].
  intros name v H.
  destruct (Hc2 name v H) as [H2|(r & cb & e & Hreg & Hsing & He & Hin & Hin')].
  - destruct (Hc1 name v H2) as [H1|(r & cb & e & Hreg & Hsing & He & Hin & Hin')];
      [by left|].
    right. exists r, cb, e. repeat split; try done; apply in_or_app; by left.
  - right. exists r, cb, e. rewrite <- Hr1. repeat split; try done; apply in_or_app; by right.
Qed.

(** A step that leaves the container alone and only adds to the trace. *)
Lemma frame_step w w' evs :
  container w' = container w -> trace w' = trace w ++ evs -> sound w' -> frame w w'.
Proof.
  intros Hc Ht Hs. unfold frame. rewrite Hc. split; [done|]. split; [done|]. split; [done|].
  exists evs. split; [done|]. intros name v H. left. by rewrite <- Hc.
Qed.

Lemma frame_after w0 w w' evs :
  frame w0 w -> container w' = container w -> trace w' = trace w ++ evs -> sound w' ->
  frame w0 w'.
Proof. intros H Hc Ht Hs. apply (frame_trans _ w); [done|]. by apply (frame_step _ _ evs). Qed.

Lemma frame_same w0 w w' :
  frame w0 w -> container w' = container w -> trace w' = trace w -> sound w' ->
  frame w0 w'.
Proof. intros H Hc Ht. apply (frame_after _ w _ []); [done..|]. by rewrite app_nil_r. Qed.

Lemma frame_log w0 w ev : frame w0 w -> frame w0 (log ev w).
Proof.
  intros H. apply (frame_after _ w _ [ev]); [done..|]. by apply sound_log, (frame_sound w0).
Qed.

Lemma frame_defer w0 w k err v :
  frame w0 w -> cont_registered (container w) k -> frame w0 (defer (Deferred k err v) w).
Proof.
  intros H Hk. apply (frame_same _ w); [done..|]. by apply sound_defer, (frame_sound w0).
Qed.

Lemma frame_set_job w0 w j jb :
  frame w0 w -> cont_registered (container w) (done_cb jb) -> frame w0 (set_job j jb w).
Proof.
  intros H Hk. apply (frame_same _ w); [done..|]. by apply sound_set_job, (frame_sound w0).
Qed.

Lemma frame_add_job w0 w jb :
  frame w0 w -> cont_registered (container w) (done_cb jb) -> frame w0 (add_job jb w).
Proof.
  intros H Hk. apply (frame_same _ w); [done..|]. by apply sound_add_job, (frame_sound w0).
Qed.

Lemma frame_rest w w' : frame w w' -> exists rest, trace w' = trace w ++ rest.
Proof. intros (_ & _ & _ & new & Ht & _). eauto. Qed.

Lemma ends_impl (R R' : World -> Prop) o :
  (forall w, R w -> R' w) -> ends R o -> ends R' o.
Proof. intros H. destruct o; simpl; auto. Qed.

Section FrameStep.

Variable rec : op -> World -> Outcome.
Hypothesis rec_framed : forall o w, ready o w -> ends (framed o w) (rec o w).

(** A resolution started from [w], a world after [w0]. *)
Lemma rec_resolve_frame w0 name callback w :
  frame w0 w -> cont_registered (container w) callback ->
  ends (frame w0) (rec (Resolve name callback) w).
Proof.
  intros H Hk. eapply ends_impl; [|apply rec_framed].
  - intros w' [H' _]. by apply (frame_trans _ w).
  - split; [by apply (frame_sound w0)|done].
Qed.

(** A callback called from [w], a world after [w0]: the call is the
    first event of what follows. *)
Lemma rec_invoke_framed w0 k err v w :
  frame w0 w -> cont_registered (container w) k ->
  ends (fun w' => frame w0 w' /\ exists rest, trace w' = trace w ++ EInvoke k err v :: rest)
    (rec (Invoke k err v) w).
Proof.
  intros H Hk. eapply ends_impl; [|apply rec_framed].
  - intros w' [H' Hfirst]. split; [by apply (frame_trans _ w)|done].
  - split; [by apply (frame_sound w0)|done].
Qed.

Lemma rec_invoke_frame w0 k err v w :
  frame w0 w -> cont_registered (container w) k ->
  ends (frame w0) (rec (Invoke k err v) w).
Proof.
  intros H Hk. eapply ends_impl; [|by apply rec_invoke_framed]. by intros w' [H' _].
Qed.

Lemma run_body_frame w0 b callback w :
  frame w0 w -> cont_registered (container w) callback ->
  ends (frame w0) (run_body rec b callback w).
Proof.
  intros H Hk. destruct b as [v|e|err v|err v|name next]; simpl; try done.
  - by apply rec_invoke_frame.
  - by apply frame_defer.
  - by apply rec_resolve_frame.
Qed.

Lemma apply_fn_frame w0 f args callback w :
  frame w0 w -> cont_registered (container w) callback ->
  ends (frame w0) (apply_fn rec f args callback w).
Proof. intros H Hk. apply run_body_frame; [by apply frame_log|done]. Qed.

Lemma once_done_frame w0 j jb err w :
  frame w0 w -> cont_registered (container w) (done_cb jb) ->
  ends (frame w0) (once_done rec j jb err w).
Proof.
  intros H Hk. unfold once_done. destruct (fired jb); simpl.
  - by apply frame_set_job.
  - apply rec_invoke_frame; [by apply frame_set_job|done].
Qed.

Lemma item_done_frame w0 j i err v w :
  frame w0 w -> ends (frame w0) (item_done rec j i err v w).
Proof.
  intros H. unfold item_done. destruct (jobs w !! j) as [jb|] eqn:Hj; [|done].
  pose proof (sound_job _ _ _ (frame_sound _ _ H) Hj) as Hk.
  destruct (bool_decide _); [by apply frame_set_job|].
  destruct (truthy err); [by apply once_done_frame|].
  destruct (_ =? _); [by apply once_done_frame|by apply frame_set_job].
Qed.

Lemma map_loop_frame w0 j coll index w :
  frame w0 w -> ends (frame w0) (map_loop rec j coll index w).
Proof.
  revert index w. induction coll as [|name rest IH]; intros index w H; simpl; [done|].
  pose proof (rec_resolve_frame w0 (One name) (KMapItem j index) w H I) as H1.
  destruct (rec _ w) as [w1| |]; simpl in *; try done. by apply IH.
Qed.

Lemma async_map_frame w0 coll callback w :
  frame w0 w -> cont_registered (container w) callback ->
  ends (frame w0) (async_map rec coll callback w).
Proof.
  intros H Hk. unfold async_map. destruct coll as [|name rest].
  - apply once_done_frame; [by apply frame_add_job|done].
  - apply map_loop_frame. by apply frame_add_job.
Qed.

Lemma run_factory_frame w0 af callback w :
  frame w0 w -> cont_registered (container w) callback ->
  ends (frame w0) (run_factory rec af callback w).
Proof.
  intros H Hk. destruct af; simpl;
    [by apply apply_fn_frame|by apply rec_resolve_frame..|by apply rec_invoke_frame].
Qed.

Lemma resolve_frame w0 name callback w :
  frame w0 w -> cont_registered (container w) callback ->
  ends (frame w0) (resolve_ rec name callback w).
Proof.
  intros H Hk. unfold resolve_. destruct name as [name|names]; [|by apply async_map_frame].
  destruct (_registry (container w) !! name) as [r|] eqn:Hr.
  - assert (HK : cont_registered (container w) (KStore name (singleton (config r)) callback)).
    { split; [by exists r|done]. }
    destruct (truthy (singleton (config r))); [|by apply run_factory_frame].
    destruct (_instances (container w) !! name) as [i|]; [|by apply run_factory_frame].
    destruct (truthy i); [by apply rec_invoke_frame|by apply run_factory_frame].
  - destruct (_interfaces (container w) !! name) as [l|]; [|by apply frame_defer].
    destruct (0 <? length l); [by apply async_map_frame|by apply frame_defer].
Qed.

Lemma apply_sync_frame w0 f args callback w :
  frame w0 w -> cont_registered (container w) callback ->
  ends (frame w0) (apply_sync rec f args callback w).
Proof.
  intros H Hk. unfold apply_sync.
  pose proof (apply_fn_frame _ f args KUndefined _ H I) as H1.
  destruct (apply_fn _ _ _ _ _) as [w1| |]; simpl in *; try done.
  apply rec_invoke_frame; [done|].
  apply (cont_registered_same (container w)); [|done].
  destruct H as (Hr & _), H1 as (Hr1 & _). congruence.
Qed.

Lemma apply_new_frame w0 f args callback w :
  frame w0 w -> cont_registered (container w) callback ->
  ends (frame w0) (apply_new rec f args callback w).
Proof.
  intros H Hk. unfold apply_new. destruct (is_constructor f); [|done].
  pose proof (apply_fn_frame _ f args KUndefined _ H I) as H1.
  destruct (apply_fn _ _ _ _ _) as [w1| |]; simpl in *; try done.
  apply rec_invoke_frame; [done|].
  apply (cont_registered_same (container w)); [|done].
  destruct H as (Hr & _), H1 as (Hr1 & _). congruence.
Qed.

(** What follows the logged invocation, for the invocation. *)
Lemma framed_after_log k err v w o :
  ends (frame (log (EInvoke k err v) w)) o ->
  sound w ->
  ends (framed (Invoke k err v) w) o.
Proof.
  intros H Hs. revert H. apply ends_impl. intros w' H. split.
  - apply (frame_trans _ (log (EInvoke k err v) w)); [|done].
    apply (frame_step _ _ [EInvoke k err v]); [done..|by apply sound_log].
  - destruct (frame_rest _ _ H) as (rest & Ht). exists rest.
    by rewrite Ht, trace_log, <- app_assoc.
Qed.

(** Storing the instance and calling the callback with it. *)
Lemma store_then_framed name sing callback err v w :
  truthy err = false ->
  sound w -> cont_registered (container w) (KStore name sing callback) ->
  let w0 := log (EInvoke (KStore name sing callback) err v) w in
  ends (framed (Invoke (KStore name sing callback) err v) w)
    (rec (Invoke callback VNull v) (if truthy sing then set_instance name v w0 else w0)).
Proof.
  intros Herr Hs [(r & Hreg & Hsing) Hk] w0.
  assert (Hs0 : sound w0) by (by apply sound_log).
  destruct (truthy sing) eqn:Htruthy.
  2:{ apply framed_after_log; [|done].
      apply rec_invoke_frame; [by apply frame_refl|done]. }
  assert (Hs1 : sound (set_instance name v w0)) by (by apply sound_set_instance).
  assert (Hk1 : cont_registered (container (set_instance name v w0)) callback).
  { by apply (cont_registered_same (container w)). }
  pose proof (rec_invoke_framed _ callback VNull v _ (frame_refl _ Hs1) Hk1) as H.
  eapply ends_impl; [|exact H]. clear H.
  intros w' ((Hr & Hi & Hs' & new & Ht & Hc) & rest & Hfirst).
  rewrite Ht in Hfirst. apply app_inv_head in Hfirst. subst new.
  simpl in Ht. split.
  - split; [done|]. split; [done|]. split; [done|].
    exists ([EInvoke (KStore name sing callback) err v]
            ++ EInvoke callback VNull v :: rest).
    split; [by rewrite Ht, <- app_assoc|].
    intros name' v' H'.
    destruct (Hc name' v' H') as [Hold|(r' & cb & e & ? & ? & ? & ? & ?)].
    + simpl in Hold. destruct (decide (name = name')) as [<-|Hne].
      * rewrite lookup_insert_eq in Hold. injection Hold as <-.
        right. exists r, callback, err. rewrite Hsing. repeat split; try done.
        -- by left.
        -- right. by left.
      * rewrite lookup_insert_ne in Hold by done. by left.
    + right. exists r', cb, e. repeat split; try done; by right.
  - eexists. by rewrite Ht, <- app_assoc.
Qed.

Lemma invoke_framed k err v w :
  sound w -> cont_registered (container w) k ->
  ends (framed (Invoke k err v) w) (invoke_ rec k err v w).
Proof.
  intros Hs Hk.
  assert (H0 : frame (log (EInvoke k err v) w) (log (EInvoke k err v) w)).
  { by apply frame_refl, sound_log. }
  destruct k as [id| |name sing callback|f callback|f callback|f callback|j i|next callback].
  - by apply framed_after_log.
  - by apply framed_after_log.
  - unfold invoke_. destruct (truthy err) eqn:Herr.
    + apply framed_after_log; [|done]. apply rec_invoke_frame; [done|apply Hk].
    + by apply store_then_framed.
  - unfold invoke_. apply framed_after_log; [|done].
    destruct (truthy err); [by apply rec_invoke_frame|by apply apply_fn_frame].
  - unfold invoke_. apply framed_after_log; [|done].
    destruct (truthy err); [by apply rec_invoke_frame|by apply apply_sync_frame].
  - unfold invoke_. apply framed_after_log; [|done].
    destruct (truthy err); [by apply rec_invoke_frame|by apply apply_new_frame].
  - apply framed_after_log; [|done]. unfold invoke_. by apply item_done_frame.
  - apply framed_after_log; [|done]. unfold invoke_. by apply run_body_frame.
Qed.

Lemma exec_body_framed o w : ready o w -> ends (framed o w) (exec_body rec o w).
Proof.
  destruct o as [name callback|k err v]; intros [Hs Hk]; simpl.
  - eapply ends_impl; [|apply resolve_frame; [by apply frame_refl|done]]. by split.
  - by apply invoke_framed.
Qed.

End FrameStep.

Lemma exec_framed fuel o w : ready o w -> ends (framed o w) (exec fuel o w).
Proof.
  revert o w. induction fuel as [|fuel IH]; intros o w H; simpl; [done|].
  by apply exec_body_framed.
Qed.

Lemma resolve_framed fuel name callback w :
  sound w -> cont_registered (container w) callback ->
  ends (frame w) (resolve fuel name callback w).
Proof.
  intros Hs Hk.
  eapply ends_impl; [|apply (exec_framed fuel (Resolve name callback) w); by split].
  by intros w' [H _].
Qed.

Lemma invoke_frame fuel k err v w :
  sound w -> cont_registered (container w) k ->
  ends (frame w) (invoke fuel k err v w).
Proof.
  intros Hs Hk.
  eapply ends_impl; [|apply (exec_framed fuel (Invoke k err v) w); by split].
  by intros w' [H _].
Qed.

Lemma run_frame fuel sched w0 w : frame w0 w -> ends (frame w0) (run fuel sched w).
Proof.
  revert w. induction sched as [|i rest IH]; intros w H; simpl; [done|].
  destruct (pending w !! i) as [[k err v]|] eqn:Hi; [|by apply IH].
  pose proof (frame_sound _ _ H) as Hs.
  assert (Hk : cont_registered (container w) k).
  { destruct Hs as [Hp _]. apply (Hp k err v), list_elem_of_In.
    by eapply list_elem_of_lookup_2. }
  pose proof (invoke_frame fuel k err v (drop_task i w) (sound_drop_task i w Hs) Hk) as H'.
  assert (Hd : frame w0 (drop_task i w)).
  { apply (frame_same _ w); [done..|]. by apply sound_drop_task. }
  destruct (invoke _ _ _ _ _) as [w1| |]; simpl in *; try done.
  - apply IH. by apply (frame_trans _ (drop_task i w)).
  - by apply (frame_trans _ (drop_task i w)).
Qed.

Lemma and_then_run_frame fuel' sched w o :
  ends (frame w) o -> ends (frame w) (and_then o (run fuel' sched)).
Proof.
  intros H. destruct o as [w1| |]; simpl in *; try done. by apply run_frame.
Qed.



(** ** Arrays written by index *)

Lemma arr_set_lookup i v l : arr_set i v l !! i = Some v.
Proof.
  unfold arr_set. destruct (i <? length l) eqn:E.
  - apply Nat.ltb_lt in E. by apply list_lookup_insert_eq.
  - apply Nat.ltb_ge in E. rewrite lookup_app_r by done.
    rewrite lookup_app_r; rewrite length_replicate; [|done].
    by rewrite Nat.sub_diag.
Qed.

Lemma arr_set_lookup_other i i' v l :
  i' <> i -> i' < length l -> arr_set i v l !! i' = l !! i'.
Proof.
  intros Hne Hlt. unfold arr_set. destruct (i <? length l).
  - by apply list_lookup_insert_ne.
  - by apply lookup_app_l.
Qed.

Lemma arr_set_length i v l : length (arr_set i v l) = max (length l) (S i).
Proof.
  unfold arr_set. destruct (i <? length l) eqn:E.
  - apply Nat.ltb_lt in E. rewrite length_insert. lia.
  - apply Nat.ltb_ge in E. rewrite !length_app, length_replicate. simpl. lia.
Qed.

(** [n] distinct indices below [n] are all of them. *)
Lemma all_indices_seen (l : list nat) n :
  NoDup l -> (forall x, x ∈ l -> x < n) -> n <= length l ->
  forall i, i < n -> i ∈ l.
Proof.
  intros Hnd Hlt Hlen i Hi.
  assert (l ⊆+ seq 0 n) as Hsub.
  { apply NoDup_submseteq; [done|]. intros x Hx. apply elem_of_seq. split; [lia|].
    simpl. by apply Hlt. }
  apply submseteq_length_Permutation in Hsub; [|by rewrite length_seq].
  rewrite Hsub. apply elem_of_seq. lia.
Qed.

Lemma seen_all_length (l : list nat) n :
  (forall i, i < n -> i ∈ l) -> n <= length l.
Proof.
  intros H. assert (length (seq 0 n) <= length l) as Hle.
  { apply submseteq_length. apply NoDup_submseteq; [apply NoDup_seq|].
    intros x Hx. apply elem_of_seq in Hx. apply H. lia. }
  by rewrite length_seq in Hle.
Qed.

(** ** One [async.map] call along an execution *)

Lemma cont_below_within b j n k : b <= j -> cont_below b k -> cont_within j n k.
Proof. intros Hb. induction k; simpl; auto. lia. Qed.

Section JobInvariant.

Variables (j n : nat) (k : cont) (tr0 : list event).

Lemma job_inv_weaken extra new jb :
  job_inv j n k [] new jb -> job_inv j n k extra new jb.
Proof.
  intros [Ht Hd Hlt Hnd Hev Hcle Hc Hfg Hres Hlen Hf]. split; try done.
  intros Hfired. destruct (Hf Hfired) as [?|(vs & Hin & ?)]; [by left|].
  right. exists vs. split; [|done]. rewrite app_nil_r in Hin. apply in_or_app. by left.
Qed.

Lemma inv_weaken extra w : inv j n k tr0 [] w -> inv j n k tr0 extra w.
Proof.
  intros [(jb & new & ? & ? & ?) ? ?]. split; try done.
  exists jb, new. split; [done|]. split; [done|]. by apply job_inv_weaken.
Qed.

(** Logging an event that is not an element callback of this call. *)
Lemma job_inv_log extra new jb ev :
  (forall x, In x extra -> x = ev) -> ~ item_of j ev ->
  job_inv j n k extra new jb -> job_inv j n k [] (new ++ [ev]) jb.
Proof.
  intros Hextra Hnot [Ht Hd Hlt Hnd Hev Hcle Hc Hfg Hres Hlen Hf]. split; try done.
  - intros i e v [Hin|[Heq|[]]]%in_app_or; [eauto|].
    destruct Hnot. by exists i, e, v.
  - intros Hall. apply Hc. intros i e v Hin. apply (Hall i e v).
    apply in_or_app. by left.
  - intros i Hi. destruct (Hres i Hi) as (e & v & ? & ?).
    exists e, v. split; [done|]. apply in_or_app. by left.
  - intros Hfired. destruct (Hf Hfired) as [(i & e & v & ? & ?)|(vs & Hin & ? & Hvs)].
    + left. exists i, e, v. split; [|done]. apply in_or_app. by left.
    + right. exists vs. split; [|split; [done|]].
      * rewrite app_nil_r. apply in_app_or in Hin as [?|Hin]; apply in_or_app;
          [by left|right]. left. symmetry. by apply Hextra.
      * intros i Hi. destruct (Hvs i Hi) as (e & v & ? & ?).
        exists e, v. split; [done|]. apply in_or_app. by left.
Qed.

Lemma inv_log extra w ev :
  (forall x, In x extra -> x = ev) -> ~ item_of j ev ->
  inv j n k tr0 extra w -> inv j n k tr0 [] (log ev w).
Proof.
  intros Hextra Hnot [(jb & new & ? & Ht & ?) ? ?]. split; try done.
  exists jb, (new ++ [ev]). split; [done|]. split.
  - by rewrite trace_log, Ht, app_assoc.
  - by apply (job_inv_log extra).
Qed.

(** Changes that leave the jobs and the trace alone. *)
Lemma inv_ext extra w w' :
  jobs w' = jobs w -> trace w' = trace w ->
  (forall k' e v, In (Deferred k' e v) (pending w') ->
     In (Deferred k' e v) (pending w) \/ cont_within j n k') ->
  inv j n k tr0 extra w -> inv j n k tr0 extra w'.
Proof.
  intros Hj Ht Hp [? Hpend ?]. split.
  - by rewrite Hj, Ht.
  - intros k' e v Hin. destruct (Hp k' e v Hin); eauto.
  - by rewrite Hj.
Qed.

Lemma inv_defer k' e v w :
  cont_within j n k' -> inv j n k tr0 [] w ->
  inv j n k tr0 [] (defer (Deferred k' e v) w).
Proof.
  intros Hk. apply inv_ext; try done.
  intros k'' e' v' [?|[[= <- <- <-]|[]]]%in_app_or; auto.
Qed.

Lemma inv_set_instance name v extra w :
  inv j n k tr0 extra w -> inv j n k tr0 extra (set_instance name v w).
Proof. apply inv_ext; auto. Qed.

Lemma inv_drop_task i extra w :
  inv j n k tr0 extra w -> inv j n k tr0 extra (drop_task i w).
Proof.
  apply inv_ext; try done. intros k' e v Hin. left. simpl in Hin.
  apply list_elem_of_In. apply list_elem_of_In in Hin.
  by apply list_elem_of_delete_inv in Hin.
Qed.

Lemma inv_lt extra w : inv j n k tr0 extra w -> j < length (jobs w).
Proof. intros [(jb & new & H & _) _ _]. by apply lookup_lt_Some in H. Qed.

Lemma inv_add_job jb extra w :
  cont_within j n (done_cb jb) -> inv j n k tr0 extra w ->
  inv j n k tr0 extra (add_job jb w).
Proof.
  intros Hk H. pose proof (inv_lt _ _ H) as Hlt. destruct H as [(jb0 & new & ? & ? & ?) ? Hd].
  split; try done.
  - exists jb0, new. split; [|done]. simpl. by rewrite lookup_app_l.
  - intros j' jb'. simpl. intros [?|[_ Heq]]%lookup_app_Some; [eauto|].
    destruct (j' - length (jobs w)) as [|?]; [|done]. by injection Heq as <-.
Qed.

Lemma inv_set_job j' jb' jb0 extra w :
  j' <> j -> jobs w !! j' = Some jb0 -> done_cb jb' = done_cb jb0 ->
  inv j n k tr0 extra w -> inv j n k tr0 extra (set_job j' jb' w).
Proof.
  intros Hne Hj' Hdone [(jb & new & ? & ? & ?) ? Hd]. split; try done.
  - exists jb, new. split; [|done]. simpl. by rewrite list_lookup_insert_ne.
  - intros j'' jb''. simpl. intros [(<- & <- & _)|[_ ?]]%list_lookup_insert_Some; [|eauto].
    rewrite Hdone. eauto.
Qed.

End JobInvariant.

Section OwnJob.

Variables (j n : nat) (k : cont).

Lemma fired_ok_log extra extra' new ev :
  (forall x, In x extra -> x = ev) ->
  fired_ok j n k extra new -> fired_ok j n k extra' (new ++ [ev]).
Proof.
  intros Hextra [(i & e & v & ? & ?)|(vs & Hin & ? & Hvs)].
  - left. exists i, e, v. split; [|done]. apply in_or_app. by left.
  - right. exists vs. split; [|split; [done|]].
    + apply in_or_app. left. apply in_app_or in Hin as [?|Hin]; apply in_or_app;
        [by left|right]. left. symmetry. by apply Hextra.
    + intros i Hi. destruct (Hvs i Hi) as (e & v & ? & ?).
      exists e, v. split; [done|]. apply in_or_app. by left.
Qed.

(** The element callback [i] is called a second time: only the array
    is written. *)
Lemma job_inv_duplicate extra new jb i err v :
  let ev := EInvoke (KMapItem j i) err v in
  job_inv j n k extra new jb -> (forall x, In x extra -> x = ev) ->
  i ∈ seen jb ->
  job_inv j n k [] (new ++ [ev])
    (mkJob (arr_set i v (results jb)) (completed jb) (total jb) (fired jb) (seen jb)
       (done_cb jb)).
Proof.
  intros ev [Ht Hd Hlt Hnd Hev Hcle Hc Hfg Hres Hlen Hf] Hextra Hi.
  assert (Hilen : i < length (results jb)).
  { destruct (Hres i Hi) as (e' & v' & Hl & _). by apply lookup_lt_Some in Hl. }
  split; simpl; try done.
  - intros i' e' v' [Hin|[Heq|[]]]%in_app_or; [eauto|]. by injection Heq as <- _ _.
  - intros Hall. apply Hc. intros i' e' v' Hin. apply (Hall i' e' v').
    apply in_or_app. by left.
  - intros i' Hi'. destruct (decide (i' = i)) as [->|Hne].
    + exists err, v. split; [apply arr_set_lookup|]. apply in_or_app. right. by left.
    + destruct (Hres i' Hi') as (e' & v' & Hl & Hin). exists e', v'. split.
      * rewrite arr_set_lookup_other; [done..|]. by apply lookup_lt_Some in Hl.
      * apply in_or_app. by left.
  - rewrite arr_set_length. lia.
  - intros Hfired. apply (fired_ok_log extra); [done|]. exact (Hf Hfired).
Qed.

(** The array after the element callback [i] has written to it. *)
Lemma accept_results extra new jb i err v :
  job_inv j n k extra new jb ->
  forall i', i' ∈ i :: seen jb ->
    exists e' v', arr_set i v (results jb) !! i' = Some v' /\
      In (EInvoke (KMapItem j i') e' v') (new ++ [EInvoke (KMapItem j i) err v]).
Proof.
  intros Hinv i' Hi'. destruct (decide (i' = i)) as [->|Hne].
  - exists err, v. split; [apply arr_set_lookup|]. apply in_or_app. right. by left.
  - apply elem_of_cons in Hi' as [?|Hi']; [done|].
    destruct (ji_results _ _ _ _ _ _ Hinv i' Hi') as (e' & v' & Hl & Hin).
    exists e', v'. split.
    + rewrite arr_set_lookup_other; [done..|]. by apply lookup_lt_Some in Hl.
    + apply in_or_app. by left.
Qed.

(** The element callback [i] is called for the first time. *)
Lemma job_inv_accept extra extra' new jb i err v c' f' :
  let ev := EInvoke (KMapItem j i) err v in
  job_inv j n k extra new jb ->
  i < n -> i ∉ seen jb ->
  c' <= S (length (seen jb)) ->
  ((forall i e v, In (EInvoke (KMapItem j i) e v) (new ++ [ev]) -> truthy e = false) ->
   c' = S (length (seen jb))) ->
  (n <= c' -> f' = true) ->
  (f' = true -> fired_ok j n k extra' (new ++ [ev])) ->
  job_inv j n k extra' (new ++ [ev])
    (mkJob (arr_set i v (results jb)) c' (total jb) f' (i :: seen jb) (done_cb jb)).
Proof.
  intros ev Hinv Hi Hni Hc' Hcount Hge Hfired.
  pose proof (accept_results _ _ _ i err v Hinv) as Hres'.
  destruct Hinv as [Ht Hd Hlt Hnd Hev Hcle Hc Hfg Hres Hlen Hf].
  split; simpl; try done.
  - intros i' [->|?]%elem_of_cons; auto.
  - by apply NoDup_cons.
  - intros i' e' v' [Hin|[Heq|[]]]%in_app_or.
    + apply elem_of_cons. right. eauto.
    + injection Heq as <- _ _. apply elem_of_cons. by left.
  - by rewrite Ht.
  - rewrite arr_set_length. lia.
Qed.

(** When the last element completes, the array is full. *)
Lemma accept_full extra new jb i err v :
  job_inv j n k extra new jb ->
  i < n -> i ∉ seen jb -> n <= S (length (seen jb)) ->
  length (arr_set i v (results jb)) = n /\
  forall i', i' < n ->
    exists e' v', arr_set i v (results jb) !! i' = Some v' /\
      In (EInvoke (KMapItem j i') e' v') (new ++ [EInvoke (KMapItem j i) err v]).
Proof.
  intros Hinv Hi Hni Hn.
  pose proof (accept_results _ _ _ i err v Hinv) as Hres'.
  assert (Hall : forall i', i' < n -> i' ∈ i :: seen jb).
  { apply all_indices_seen.
    - apply NoDup_cons. split; [done|]. apply (ji_nodup _ _ _ _ _ _ Hinv).
    - intros x [->|Hx]%elem_of_cons; [done|]. by apply (ji_seen_lt _ _ _ _ _ _ Hinv).
    - simpl. lia. }
  split.
  - pose proof (ji_results_len _ _ _ _ _ _ Hinv) as Hlen.
    rewrite arr_set_length. destruct n as [|m]; [lia|].
    destruct (Hres' m (Hall m ltac:(lia))) as (e & v' & Hl & _).
    apply lookup_lt_Some in Hl. rewrite arr_set_length in Hl. lia.
  - intros i' Hi'. by apply Hres', Hall.
Qed.

End OwnJob.

Section JobStep.

Variables (j n : nat) (k : cont) (tr0 : list event).
Variable rec : op -> World -> Outcome.
Hypothesis rec_inv : forall o w, pre j n k tr0 o w -> ends (inv j n k tr0 []) (rec o w).

Lemma rec_invoke k' e v w :
  inv j n k tr0 [] w -> cont_within j n k' ->
  ends (inv j n k tr0 []) (rec (Invoke k' e v) w).
Proof. intros H Hk. apply rec_inv. split; [by apply inv_weaken|done]. Qed.

Lemma rec_resolve name k' w :
  inv j n k tr0 [] w -> cont_within j n k' ->
  ends (inv j n k tr0 []) (rec (Resolve name k') w).
Proof. intros H Hk. by apply rec_inv. Qed.

Lemma inv_log_call f args w :
  inv j n k tr0 [] w -> inv j n k tr0 [] (log (ECall f args) w).
Proof.
  apply inv_log; [by intros x []|]. by intros (i & e & v & [=]).
Qed.

Lemma run_body_inv b callback w :
  inv j n k tr0 [] w -> cont_within j n callback ->
  ends (inv j n k tr0 []) (run_body rec b callback w).
Proof.
  intros H Hk. destruct b; simpl; try done.
  - by apply rec_invoke.
  - by apply inv_defer.
  - by apply rec_resolve.
Qed.

Lemma apply_fn_inv f args callback w :
  inv j n k tr0 [] w -> cont_within j n callback ->
  ends (inv j n k tr0 []) (apply_fn rec f args callback w).
Proof. intros H Hk. apply run_body_inv; [by apply inv_log_call|done]. Qed.

Lemma apply_then_inv f args callback result w :
  inv j n k tr0 [] w -> cont_within j n callback ->
  ends (inv j n k tr0 [])
    match apply_fn rec f args KUndefined w with
    | Normal w' => rec (Invoke callback VNull result) w'
    | o => o
    end.
Proof.
  intros H Hk. pose proof (apply_fn_inv f args KUndefined w H I) as H'.
  destruct (apply_fn _ _ _ _ w) as [w1| |]; simpl in *; try done.
  by apply rec_invoke.
Qed.

Lemma once_done_other j' jb jb0 err w :
  j' <> j -> jobs w !! j' = Some jb0 -> done_cb jb = done_cb jb0 ->
  inv j n k tr0 [] w -> ends (inv j n k tr0 []) (once_done rec j' jb err w).
Proof.
  intros Hne Hj' Hd H. unfold once_done. destruct (fired jb); simpl.
  - by apply (inv_set_job _ _ _ _ _ _ jb0).
  - apply rec_invoke; [by apply (inv_set_job _ _ _ _ _ _ jb0)|].
    rewrite Hd. by apply (inv_done _ _ _ _ _ _ H j').
Qed.

Lemma item_done_other j' i err v w :
  j' <> j -> inv j n k tr0 [] w ->
  ends (inv j n k tr0 []) (item_done rec j' i err v w).
Proof.
  intros Hne H. unfold item_done. destruct (jobs w !! j') as [jb|] eqn:Hj'; [|done].
  destruct (bool_decide _); [by apply (inv_set_job _ _ _ _ _ _ jb)|].
  destruct (truthy err); [by apply (once_done_other _ _ jb)|].
  destruct (_ =? _); [by apply (once_done_other _ _ jb)|].
  by apply (inv_set_job _ _ _ _ _ _ jb).
Qed.

(** Writing back the state of the call itself, after its element
    callback [i] has been logged. *)
Lemma inv_set_own extra extra' w ev jb' :
  inv j n k tr0 extra w ->
  (forall new, trace w = tr0 ++ new -> job_inv j n k extra' (new ++ [ev]) jb') ->
  inv j n k tr0 extra' (set_job j jb' (log ev w)).
Proof.
  intros H Hjob. pose proof (inv_lt _ _ _ _ _ _ H) as Hlt.
  destruct H as [(jb & new & Hj & Ht & Hinv) Hp Hd]. split; try done.
  - exists jb', (new ++ [ev]). split; [|split].
    + simpl. by apply list_lookup_insert_eq.
    + simpl. by rewrite Ht, app_assoc.
    + by apply Hjob.
  - intros j'' jb''. simpl.
    intros [(<- & <- & _)|[_ ?]]%list_lookup_insert_Some; [|eauto].
    rewrite (ji_done _ _ _ _ _ _ (Hjob new Ht)), <- (ji_done _ _ _ _ _ _ Hinv). eauto.
Qed.

Lemma item_done_own i err v w :
  i < n ->
  inv j n k tr0 [EInvoke (KMapItem j i) err v] w ->
  ends (inv j n k tr0 [])
    (item_done rec j i err v (log (EInvoke (KMapItem j i) err v) w)).
Proof.
  intros Hi H. set (ev := EInvoke (KMapItem j i) err v).
  assert (Hextra : forall x, In x [ev] -> x = ev) by (by intros x [<-|[]]).
  destruct (inv_job _ _ _ _ _ _ H) as (jb & new & Hj & Ht & Hinv).
  assert (Hk : cont_within j n k).
  { rewrite <- (ji_done _ _ _ _ _ _ Hinv). by apply (inv_done _ _ _ _ _ _ H j). }
  assert (Hnew : forall new', trace w = tr0 ++ new' -> new' = new).
  { intros new' Ht'. rewrite Ht in Ht'. by apply app_inv_head in Ht'. }
  unfold item_done. cbn [jobs log]. rewrite Hj.
  destruct (bool_decide (i ∈ seen jb)) eqn:Hseen.
  { apply bool_decide_eq_true in Hseen. simpl.
    apply (inv_set_own [ev]); [done|]. intros new' ->%Hnew.
    by apply (job_inv_duplicate _ _ _ [ev]). }
  apply bool_decide_eq_false in Hseen.
  pose proof (ji_count_le _ _ _ _ _ _ Hinv) as Hcle.
  pose proof (ji_total _ _ _ _ _ _ Hinv) as Htot.
  destruct (truthy err) eqn:Herr.
  { (* an element failed *)
    assert (Hjob : forall extra' f', (fired jb = true -> f' = true) ->
      job_inv j n k extra' (new ++ [ev])
        (mkJob (arr_set i v (results jb)) (completed jb) (total jb) f' (i :: seen jb)
           (done_cb jb))).
    { intros extra' f' Hf'. apply (job_inv_accept _ _ _ [ev]); try done.
      - lia.
      - intros Hall. specialize (Hall i err v). rewrite Herr in Hall.
        discriminate Hall. apply in_or_app. right. by left.
      - intros Hn. apply Hf'. apply (ji_fired_ge _ _ _ _ _ _ Hinv). lia.
      - intros _. left. exists i, err, v. split; [|done]. apply in_or_app. right. by left. }
    unfold once_done. cbn [fired done_cb results completed total seen].
    destruct (fired jb) eqn:Hf; simpl.
    - apply (inv_set_own [ev]); [done|]. intros new' ->%Hnew. by apply Hjob.
    - apply rec_inv. split; [|by rewrite (ji_done _ _ _ _ _ _ Hinv)].
      apply (inv_set_own [ev]); [done|]. intros new' ->%Hnew. by apply Hjob. }
  (* an element succeeded *)
  cbn [completed total]. destruct (S (completed jb) =? total jb) eqn:Hlast.
  - apply Nat.eqb_eq in Hlast. unfold once_done.
    cbn [fired done_cb results completed total seen].
    assert (Hcount :
      (forall i e v, In (EInvoke (KMapItem j i) e v) (new ++ [ev]) -> truthy e = false) ->
      S (completed jb) = S (length (seen jb))).
    { intros Hall. f_equal. apply (ji_count _ _ _ _ _ _ Hinv).
      intros i' e' v' Hin. apply (Hall i' e' v'). apply in_or_app. by left. }
    destruct (fired jb) eqn:Hf; simpl.
    + apply (inv_set_own [ev]); [done|]. intros new' ->%Hnew.
      apply (job_inv_accept _ _ _ [ev]); try done; [lia|].
      intros _. apply (fired_ok_log _ _ _ [ev]); [done|].
      by apply (ji_fired _ _ _ _ _ _ Hinv).
    + apply rec_inv. split; [|by rewrite (ji_done _ _ _ _ _ _ Hinv)].
      apply (inv_set_own [ev]); [done|]. intros new' ->%Hnew.
      destruct (accept_full _ _ _ _ _ _ i err v Hinv) as [Hlen Hvs]; [done|done|lia|].
      apply (job_inv_accept _ _ _ [ev]); try done; [lia|].
      intros _. right. exists (arr_set i v (results jb)).
      split; [|by split]. rewrite (ji_done _ _ _ _ _ _ Hinv).
      apply in_or_app. right. by left.
  - apply Nat.eqb_neq in Hlast. simpl.
    apply (inv_set_own [ev]); [done|]. intros new' ->%Hnew.
    apply (job_inv_accept _ _ _ [ev]); try done.
    + lia.
    + intros Hall. f_equal. apply (ji_count _ _ _ _ _ _ Hinv).
      intros i' e' v' Hin. apply (Hall i' e' v'). apply in_or_app. by left.
    + intros Hn. apply (ji_fired_ge _ _ _ _ _ _ Hinv). lia.
    + intros Hf. apply (fired_ok_log _ _ _ [ev]); [done|].
      by apply (ji_fired _ _ _ _ _ _ Hinv).
Qed.

Lemma map_loop_inv j' coll index w :
  (forall i, index <= i < index + length coll -> cont_within j n (KMapItem j' i)) ->
  inv j n k tr0 [] w ->
  ends (inv j n k tr0 []) (map_loop rec j' coll index w).
Proof.
  revert index w. induction coll as [|name rest IH]; intros index w Hk H; simpl; [done|].
  pose proof (rec_resolve (One name) (KMapItem j' index) w H) as H1.
  destruct (rec _ w) as [w1| |]; simpl in *.
  - apply IH.
    + intros i Hi. apply Hk. lia.
    + apply H1, Hk. lia.
  - apply H1, Hk. lia.
  - done.
Qed.

(** An [async.map] call made during the execution: a later call. *)
Lemma async_map_inv coll callback w :
  inv j n k tr0 [] w -> cont_within j n callback ->
  ends (inv j n k tr0 []) (async_map rec coll callback w).
Proof.
  intros H Hk. pose proof (inv_lt _ _ _ _ _ _ H) as Hlt.
  unfold async_map.
  set (jb := mkJob [] 0 (length coll) false [] callback).
  assert (H' : inv j n k tr0 [] (add_job jb w)) by (by apply inv_add_job).
  assert (Hj' : jobs (add_job jb w) !! length (jobs w) = Some jb).
  { simpl. rewrite lookup_app_r by done. by rewrite Nat.sub_diag. }
  destruct coll as [|name rest].
  - apply (once_done_other _ _ jb); [lia|done..].
  - apply map_loop_inv; [|done]. intros i _. simpl. lia.
Qed.

Lemma run_factory_inv af callback w :
  inv j n k tr0 [] w -> cont_within j n callback ->
  ends (inv j n k tr0 []) (run_factory rec af callback w).
Proof.
  intros H Hk. destruct af; simpl.
  - by apply apply_fn_inv.
  - by apply rec_resolve.
  - by apply rec_resolve.
  - by apply rec_resolve.
  - by apply rec_invoke.
Qed.

Lemma resolve_inv name callback w :
  inv j n k tr0 [] w -> cont_within j n callback ->
  ends (inv j n k tr0 []) (resolve_ rec name callback w).
Proof.
  intros H Hk. unfold resolve_. destruct name as [name|names]; [|by apply async_map_inv].
  destruct (_registry (container w) !! name) as [r|].
  - destruct (truthy (singleton (config r))); [|by apply run_factory_inv].
    destruct (_instances (container w) !! name) as [i|]; [|by apply run_factory_inv].
    destruct (truthy i); [by apply rec_invoke|by apply run_factory_inv].
  - destruct (_interfaces (container w) !! name) as [l|]; [|by apply inv_defer].
    destruct (0 <? length l); [by apply async_map_inv|by apply inv_defer].
Qed.

Lemma invoke_inv k' err v w :
  inv j n k tr0 [EInvoke k' err v] w -> cont_within j n k' ->
  ends (inv j n k tr0 []) (invoke_ rec k' err v w).
Proof.
  intros H Hk.
  assert (Hlog : (forall j' i, k' = KMapItem j' i -> j' <> j) ->
                 inv j n k tr0 [] (log (EInvoke k' err v) w)).
  { intros Hne. apply (inv_log _ _ _ _ [EInvoke k' err v]); [by intros x [<-|[]]| |done].
    intros (i & e' & v' & [= -> _ _]). by apply (Hne j i). }
  destruct k' as [id| |name sing callback|f callback|f callback|f callback|j' i
                 |next callback];
    unfold invoke_.
  - by apply Hlog.
  - by apply Hlog.
  - destruct (truthy err); [by apply rec_invoke, Hk; apply Hlog|].
    apply rec_invoke; [|done].
    destruct (truthy sing); [apply inv_set_instance|]; by apply Hlog.
  - destruct (truthy err); [by apply rec_invoke, Hk; apply Hlog|].
    apply apply_fn_inv; [by apply Hlog|done].
  - destruct (truthy err); [by apply rec_invoke, Hk; apply Hlog|].
    apply apply_then_inv; [by apply Hlog|done].
  - destruct (truthy err); [by apply rec_invoke, Hk; apply Hlog|].
    unfold apply_new. destruct (is_constructor f); [|by apply Hlog].
    apply apply_then_inv; [by apply Hlog|done].
  - destruct (decide (j' = j)) as [->|Hne].
    + apply item_done_own; [by apply Hk|done].
    + apply item_done_other; [done|]. apply Hlog. by intros ? ? [= -> _].
  - apply run_body_inv; [by apply Hlog|done].
Qed.

Lemma exec_body_inv o w :
  pre j n k tr0 o w -> ends (inv j n k tr0 []) (exec_body rec o w).
Proof.
  destruct o as [name callback|k' err v]; intros [H Hk]; simpl.
  - by apply resolve_inv.
  - by apply invoke_inv.
Qed.

End JobStep.

Lemma exec_inv j n k tr0 fuel o w :
  pre j n k tr0 o w -> ends (inv j n k tr0 []) (exec fuel o w).
Proof.
  revert o w. induction fuel as [|fuel IH]; intros o w H; simpl; [done|].
  by apply exec_body_inv.
Qed.

Lemma run_inv j n k tr0 fuel sched w :
  inv j n k tr0 [] w -> ends (inv j n k tr0 []) (run fuel sched w).
Proof.
  revert w. induction sched as [|i rest IH]; intros w H; simpl; [done|].
  destruct (pending w !! i) as [[k' err v]|] eqn:Hi; [|by apply IH].
  assert (Hk : cont_within j n k').
  { apply (inv_pending _ _ _ _ _ _ H k' err v). apply list_elem_of_In.
    by apply list_elem_of_lookup_2 in Hi. }
  pose proof (exec_inv j n k tr0 fuel (Invoke k' err v) (drop_task i w)) as H'.
  unfold invoke. destruct (exec _ _ _) as [w1| |]; simpl in *.
  - apply IH, H'. split; [|done]. by apply inv_weaken, inv_drop_task.
  - apply H'. split; [|done]. by apply inv_weaken, inv_drop_task.
  - done.
Qed.

(** ** Results aligned with the names *)

Lemma cont_below_fresh j n k : cont_below j k -> cont_within j n k.
Proof. by apply cont_below_within. Qed.

(** The [async.map] call made first, from a world that does not know of
    it, keeps its invariant to the end of the run. *)
Lemma async_map_inv_fresh fuel fuel' names k w0 sched :
  world_below w0 -> cont_below (length (jobs w0)) k ->
  ends (inv (length (jobs w0)) (length names) k (trace w0) [])
    (and_then (async_map (exec fuel) names k w0) (run fuel' sched)).
Proof.
  intros [Hpend Hjobs] Hk.
  set (j := length (jobs w0)). set (n := length names).
  set (jb0 := mkJob [] 0 n false [] k).
  assert (Hp : forall k' e v, In (Deferred k' e v) (pending w0) -> cont_within j n k').
  { intros k' e v Hin. eapply cont_below_fresh, Hpend, Hin. }
  assert (Hd : forall j' jb',
             (jobs w0 ++ [jb0]) !! j' = Some jb' -> cont_within j n (done_cb jb')).
  { intros j' jb' [H|[_ H]]%lookup_app_Some.
    - apply cont_below_fresh, Hjobs, list_elem_of_In. by apply list_elem_of_lookup_2 in H.
    - destruct (j' - length (jobs w0)); [|done]. injection H as <-. by apply cont_below_fresh. }
  assert (Hd' : forall jb1 j' jb', done_cb jb1 = k ->
             <[j := jb1]> (jobs w0 ++ [jb0]) !! j' = Some jb' ->
             cont_within j n (done_cb jb')).
  { intros jb1 j' jb' Hdone [(_ & <- & _)|[_ H]]%list_lookup_insert_Some; [|by eauto].
    rewrite Hdone. by apply cont_below_fresh. }
  assert (Hstart : ends (inv j n k (trace w0) []) (async_map (exec fuel) names k w0)).
  { unfold async_map. fold j n jb0. destruct names as [|name rest] eqn:Hnames.
    - unfold once_done. cbn [fired done_cb results].
      apply exec_inv. split; [|by apply cont_below_fresh].
      split; simpl; [|done|intros j' jb'; by apply Hd'].
      eexists _, []. split; [|split; [by rewrite app_nil_r|]].
      + apply list_lookup_insert_eq. rewrite length_app. simpl. lia.
      + split; simpl; try done.
        * intros i Hi. by apply elem_of_nil in Hi.
        * apply NoDup_nil_2.
        * intros i Hi. by apply elem_of_nil in Hi.
        * intros _. right. exists []. split; [by left|]. split; [reflexivity|]. intros i Hi.
          unfold n in Hi. simpl in Hi. lia.
    - rewrite <- Hnames. apply map_loop_inv.
      + apply exec_inv.
      + intros i Hi. simpl. intros _. unfold n. rewrite Hnames in Hi. simpl in Hi |- *. lia.
      + split; simpl; [|done|done].
        eexists _, []. split; [|split; [by rewrite app_nil_r|]].
        * rewrite lookup_app_r by done. by rewrite Nat.sub_diag.
        * split; simpl; try done.
          -- intros i Hi. by apply elem_of_nil in Hi.
          -- apply NoDup_nil_2.
          -- unfold n. simpl. lia.
          -- intros i Hi. by apply elem_of_nil in Hi.
          -- lia. }
  destruct (async_map _ _ _ _) as [w1| |]; simpl in *; try done.
  by apply run_inv.
Qed.

(** Every element callback has been called, none with an error: the
    final callback has been called with the full array. *)
Lemma job_inv_all_done j n k new jb :
  job_inv j n k [] new jb ->
  (forall i, i < n -> exists e v, In (EInvoke (KMapItem j i) e v) new) ->
  (forall i e v, In (EInvoke (KMapItem j i) e v) new -> truthy e = false) ->
  exists vs,
    In (EInvoke k VNull (VArr vs)) new /\ length vs = n /\
    forall i, i < n -> exists e v, vs !! i = Some v /\ In (EInvoke (KMapItem j i) e v) new.
Proof.
  intros [Ht Hd Hlt Hnd Hev Hcle Hc Hfg Hres Hlen Hf] Hall Hok.
  assert (Hseen : n <= length (seen jb)).
  { apply seen_all_length. intros i Hi. destruct (Hall i Hi) as (e & v & Hin). eauto. }
  destruct Hf as [(i & e & v & Hin & He)|(vs & Hin & Hvs)].
  - apply Hfg. rewrite (Hc Hok). lia.
  - rewrite (Hok i e v Hin) in He. discriminate.
  - exists vs. by rewrite app_nil_r in Hin.
Qed.

Lemma async_map_aligned fuel fuel' names k w0 sched w' :
  world_below w0 -> cont_below (length (jobs w0)) k ->
  final (and_then (async_map (exec fuel) names k w0) (run fuel' sched)) = Some w' ->
  let j := length (jobs w0) in
  let new := drop (length (trace w0)) (trace w') in
  (forall i, i < length names -> exists e v, In (EInvoke (KMapItem j i) e v) new) ->
  (forall i e v, In (EInvoke (KMapItem j i) e v) new -> truthy e = false) ->
  exists vs,
    In (EInvoke k VNull (VArr vs)) new /\ length vs = length names /\
    forall i, i < length names ->
      exists e v, vs !! i = Some v /\ In (EInvoke (KMapItem j i) e v) new.
Proof.
  intros Hw Hk Hfinal j new Hall Hok.
  pose proof (async_map_inv_fresh fuel fuel' names k w0 sched Hw Hk) as H.
  assert (Hinv : inv j (length names) k (trace w0) [] w').
  { destruct (and_then _ _) as [w1|e w1|]; simpl in *; [by injection Hfinal as <-..|done]. }
  destruct (inv_job _ _ _ _ _ _ Hinv) as (jb & new' & _ & Ht & Hjob).
  assert (new = new') as ->.
  { unfold new. by rewrite Ht, drop_app_length. }
  by apply (job_inv_all_done j _ k new' jb).
Qed.

(** ** Lists of registered instances: the result, with its budget *)

Lemma arr_set_end v (l : list value) : arr_set (length l) v l = l ++ [v].
Proof. unfold arr_set. by rewrite Nat.ltb_irrefl, Nat.sub_diag. Qed.

Lemma deliveries_item id j i err v : deliveries id [EInvoke (KMapItem j i) err v] = [].
Proof. reflexivity. Qed.

(** Resolving a settled name calls the callback with its instance, from
    a world that differs in the trace and, for a singleton, the cache. *)
Lemma resolve_settled fuel name v k w :
  settled (container w) name v ->
  exists w1 extra,
    (resolve (3 + fuel) (One name) k w = invoke (2 + fuel) k VNull v w1 \/
     resolve (3 + fuel) (One name) k w = invoke (1 + fuel) k VNull v w1) /\
    jobs w1 = jobs w /\ pending w1 = pending w /\
    trace w1 = trace w ++ extra /\ (forall id, deliveries id extra = []) /\
    (forall name' v', settled (container w) name' v' -> settled (container w1) name' v').
Proof.
  intros (cfg & Hreg & Hun). change (3 + fuel) with (S (S (S fuel))).
  unfold resolve. rewrite exec_resolve. cbn [resolve_]. rewrite Hreg. cbn [factory config].
  assert (Hproduce : exists w1 extra,
    run_factory (exec (S (S fuel))) (Instance v) (KStore name (singleton cfg) k) w
      = invoke (1 + fuel) k VNull v w1 /\
    jobs w1 = jobs w /\ pending w1 = pending w /\
    trace w1 = trace w ++ extra /\ (forall id, deliveries id extra = []) /\
    (forall name' v', settled (container w) name' v' -> settled (container w1) name' v')).
  { cbn [run_factory]. rewrite exec_invoke, invoke_KStore by done.
    eexists _, [EInvoke (KStore name (singleton cfg) k) VNull v].
    split; [reflexivity|].
    destruct (truthy (singleton cfg)) eqn:Hs; cbn [jobs pending trace set_instance log];
      (split; [done|]); (split; [done|]); (split; [done|]); (split; [done|]); [|done].
    intros name' v' (cfg' & Hreg' & Hun'). exists cfg'. split; [done|].
    destruct Hun' as [?|Hun']; [by left|right].
    intros cached. cbn [set_instance container _instances].
    destruct (decide (name = name')) as [<-|Hne].
    - rewrite lookup_insert_eq. intros [= <-] _. rewrite Hreg in Hreg'. by injection Hreg'.
    - rewrite lookup_insert_ne by done. apply Hun'. }
  destruct (truthy (singleton cfg)) eqn:Hs;
    [|destruct Hproduce as (w1 & extra & ? & ?); exists w1, extra; auto].
  destruct (_instances (container w) !! name) as [cached|] eqn:Hc;
    [|destruct Hproduce as (w1 & extra & ? & ?); exists w1, extra; auto].
  destruct (truthy cached) eqn:Ht;
    [|destruct Hproduce as (w1 & extra & ? & ?); exists w1, extra; auto].
  destruct Hun as [Hun|Hun]; [congruence|]. rewrite (Hun cached Hc Ht).
  exists w, []. split; [by left|]. by rewrite app_nil_r.
Qed.

(** An element callback of a call whose final callback is a client's,
    called in index order: the state it leaves, and what the client
    gets. *)
Lemma invoke_item_in_order fuel id j jb v w :
  jobs w !! j = Some jb ->
  done_cb jb = KTop id -> fired jb = false ->
  completed jb = length (results jb) ->
  (forall x, x ∈ seen jb -> x < length (results jb)) ->
  exists w',
    invoke (2 + fuel) (KMapItem j (length (results jb))) VNull v w = Normal w' /\
    pending w' = pending w /\ container w' = container w /\
    length (jobs w') = length (jobs w) /\
    (exists jb',
       jobs w' !! j = Some jb' /\ done_cb jb' = KTop id /\ total jb' = total jb /\
       results jb' = results jb ++ [v] /\ completed jb' = length (results jb') /\
       (forall x, x ∈ seen jb' -> x < length (results jb')) /\
       fired jb' = bool_decide (S (length (results jb)) = total jb)) /\
    exists new,
      trace w' = trace w ++ new /\
      deliveries id new =
        if bool_decide (S (length (results jb)) = total jb)
        then [(VNull, VArr (results jb ++ [v]))] else [].
Proof.
  intros Hj Hd Hf Hc Hseen. change (2 + fuel) with (S (S fuel)).
  unfold invoke. rewrite exec_invoke. unfold invoke_, item_done. cbn [jobs log]. rewrite Hj.
  rewrite bool_decide_eq_false_2; [|intros Hin; apply Hseen in Hin; lia].
  cbn [truthy completed total]. rewrite arr_set_end, Hc.
  assert (Hlt : j < length (jobs w)) by (by apply lookup_lt_Some in Hj).
  destruct (S (length (results jb)) =? total jb) eqn:Hlast.
  - apply Nat.eqb_eq in Hlast. rewrite (bool_decide_eq_true_2 _ Hlast).
    unfold once_done. cbn [fired done_cb results completed total seen]. rewrite Hf, Hd.
    rewrite exec_invoke, invoke_KTop. eexists. split; [reflexivity|].
    cbn [pending container jobs trace log set_job]. rewrite length_insert.
    repeat split; try done.
    + eexists. split; [by apply list_lookup_insert_eq|]. cbn.
      rewrite length_app. simpl. repeat split; try done; [lia|].
      intros x [->|Hx]%elem_of_cons; [lia|]. apply Hseen in Hx. lia.
    + eexists. split; [by rewrite <- app_assoc|]. simpl. by rewrite Nat.eqb_refl.
  - apply Nat.eqb_neq in Hlast. rewrite (bool_decide_eq_false_2 _ Hlast).
    eexists. split; [reflexivity|].
    cbn [pending container jobs trace log set_job]. rewrite length_insert.
    repeat split; try done.
    + eexists. split; [by apply list_lookup_insert_eq|]. cbn.
      rewrite length_app. simpl. repeat split; try done; [lia|].
      intros x [->|Hx]%elem_of_cons; [lia|]. apply Hseen in Hx. lia.
    + by eexists.
Qed.

Lemma map_loop_settled fuel id j names :
  forall vs w jb,
  Forall2 (settled (container w)) names vs ->
  jobs w !! j = Some jb ->
  done_cb jb = KTop id -> fired jb = false ->
  completed jb = length (results jb) ->
  (forall x, x ∈ seen jb -> x < length (results jb)) ->
  total jb = length (results jb) + length names ->
  exists w',
    map_loop (exec (4 + fuel)) j names (length (results jb)) w = Normal w' /\
    pending w' = pending w /\
    exists new,
      trace w' = trace w ++ new /\
      deliveries id new =
        match names with
        | [] => []
        | _ => [(VNull, VArr (results jb ++ vs))]
        end.
Proof.
  induction names as [|name names IH]; intros vs w jb Hall Hj Hd Hf Hc Hseen Htot.
  { exists w. split; [done|]. split; [done|]. exists []. by rewrite app_nil_r. }
  apply Forall2_cons_inv_l in Hall as (v & vs' & Hv & Hall & ->).
  cbn [map_loop].
  destruct (resolve_settled (1 + fuel) name v (KMapItem j (length (results jb))) w Hv)
    as (w1 & extra & Hres & Hj1 & Hp1 & Ht1 & Hex & Hkeep).
  assert (Hitem : exists w2,
    exec (4 + fuel) (Resolve (One name) (KMapItem j (length (results jb)))) w = Normal w2 /\
    pending w2 = pending w1 /\ container w2 = container w1 /\
    (exists jb',
       jobs w2 !! j = Some jb' /\ done_cb jb' = KTop id /\ total jb' = total jb /\
       results jb' = results jb ++ [v] /\ completed jb' = length (results jb') /\
       (forall x, x ∈ seen jb' -> x < length (results jb')) /\
       fired jb' = bool_decide (S (length (results jb)) = total jb)) /\
    exists new,
      trace w2 = trace w1 ++ new /\
      deliveries id new =
        if bool_decide (S (length (results jb)) = total jb)
        then [(VNull, VArr (results jb ++ [v]))] else []).
  { rewrite <- Hj1 in Hj. unfold resolve in Hres.
    destruct Hres as [Hres|Hres]; change (3 + (1 + fuel)) with (4 + fuel) in Hres;
      rewrite Hres.
    - destruct (invoke_item_in_order (1 + fuel) id j jb v w1 Hj Hd Hf Hc Hseen)
        as (w2 & ? & ? & ? & _ & ? & ?). by exists w2.
    - destruct (invoke_item_in_order fuel id j jb v w1 Hj Hd Hf Hc Hseen)
        as (w2 & ? & ? & ? & _ & ? & ?). by exists w2. }
  destruct Hitem as (w2 & -> & Hp2 & Hc2 & (jb' & Hj2 & Hd' & Htot' & Hres' & Hc' & Hseen' & Hf')
                     & new & Ht2 & Hdel).
  destruct names as [|name' names].
  - apply Forall2_nil_inv_l in Hall as ->. cbn [map_loop].
    exists w2. split; [done|]. split; [congruence|].
    exists (extra ++ new). split; [by rewrite Ht2, Ht1, app_assoc|].
    rewrite deliveries_app, Hex, Hdel. simpl.
    rewrite bool_decide_eq_true_2; [done|]. simpl in Htot. lia.
  - rewrite bool_decide_eq_false_2 in Hf', Hdel by (simpl in Htot; lia).
    destruct (IH vs' w2 jb') as (w' & Hloop & Hp' & new' & Ht' & Hdel'); try done.
    + rewrite Hc2. eapply Forall2_impl; [exact Hall|]. intros n' v'. apply Hkeep.
    + rewrite Htot', Hres', length_app, Htot. simpl. lia.
    + rewrite Hres', length_app in Hloop. cbn [length] in Hloop.
      rewrite Nat.add_1_r in Hloop. rewrite Hloop.
      exists w'. split; [done|]. split; [congruence|].
      exists (extra ++ new ++ new').
      split; [by rewrite Ht', Ht2, Ht1, <- !app_assoc|].
      rewrite !deliveries_app, Hex, Hdel, Hdel', Hres'. simpl. by rewrite <- app_assoc.
Qed.

(** A list of names that stand for registered instances resolves, within
    a budget of five nested calls, to the array of these instances, in the
    order of the names; nothing is left for the event loop. *)
Lemma resolve_settled_list fuel id names vs w :
  Forall2 (settled (container w)) names vs ->
  exists w',
    resolve (5 + fuel) (Many names) (KTop id) w = Normal w' /\
    pending w' = pending w /\
    deliveries id (drop (length (trace w)) (trace w')) = [(VNull, VArr vs)].
Proof.
  intros Hall. change (5 + fuel) with (S (4 + fuel)).
  unfold resolve. rewrite exec_resolve. cbn [resolve_].
  destruct names as [|name rest].
  - apply Forall2_nil_inv_l in Hall as ->. rewrite async_map_nil.
    change (4 + fuel) with (S (3 + fuel)). rewrite exec_invoke, invoke_KTop.
    eexists. split; [reflexivity|]. split; [done|].
    cbn [trace log set_job add_job]. rewrite drop_app_length. simpl.
    by rewrite Nat.eqb_refl.
  - unfold async_map.
    set (jb := mkJob [] 0 (length (name :: rest)) false [] (KTop id)).
    destruct (map_loop_settled fuel id (length (jobs w)) (name :: rest) vs (add_job jb w) jb)
      as (w' & Hloop & Hp & new & Ht & Hdel); try done.
    + simpl. rewrite lookup_app_r by done. by rewrite Nat.sub_diag.
    + intros x Hx. by apply elem_of_nil in Hx.
    + change (length (results jb)) with 0 in Hloop. rewrite Hloop.
      exists w'. split; [done|]. split; [done|].
      cbn [trace add_job] in Ht. by rewrite Ht, drop_app_length.
Qed.

Lemma in_item_events j i err v tr :
  In (EInvoke (KMapItem j i) err v) tr <-> In (i, err, v) (item_events j tr).
Proof.
  unfold item_events. rewrite <- !list_elem_of_In, list_elem_of_omap. split.
  - intros H. exists (EInvoke (KMapItem j i) err v). split; [done|].
    simpl. by rewrite Nat.eqb_refl.
  - intros (ev & Hin & Hev).
    destruct ev as [|[| | | | | |j' i'|] e' v']; simpl in Hev; try done.
    destruct (j' =? j) eqn:E; [|done]. apply Nat.eqb_eq in E as ->.
    by injection Hev as -> -> ->.
Qed.

(** [resolve] of a list is the [async.map] call over it. *)
Lemma list_resolution_aligned_aux fuel fuel' names callback w sched w' :
  world_below w ->
  cont_below (length (jobs w)) callback ->
  final (and_then (resolve fuel (Many names) callback w) (run fuel' sched)) = Some w' ->
  let j := length (jobs w) in
  let new := drop (length (trace w)) (trace w') in
  (forall i, i < length names -> exists err v, In (EInvoke (KMapItem j i) err v) new) ->
  (forall i err v, In (EInvoke (KMapItem j i) err v) new -> truthy err = false) ->
  exists vs,
    In (EInvoke callback VNull (VArr vs)) new /\
    length vs = length names /\
    forall i, i < length names ->
      exists err v, vs !! i = Some v /\ In (EInvoke (KMapItem j i) err v) new.
Proof.
  intros Hw Hk Hfinal. destruct fuel as [|fuel]; [done|].
  unfold resolve in Hfinal. rewrite exec_resolve in Hfinal. cbn [resolve_] in Hfinal.
  by apply (async_map_aligned fuel fuel' names callback w sched w').
Qed.

Lemma drop_new_World c (tr : list event) :
  drop (length (trace (new_World c))) tr = tr.
Proof. reflexivity. Qed.

Lemma first_job_of_new_World c : length (jobs (new_World c)) = 0.
Proof. reflexivity. Qed.

(** For a run from a fresh world whose element callbacks are listed by
    the equation [items]: every index has been called ... *)
Ltac items_present items :=
  let i := fresh "i" in
  let Hi := fresh "Hi" in
  intros i Hi; rewrite drop_new_World, first_job_of_new_World;
  repeat (destruct i as [|i];
          [solve [eexists _, _; apply in_item_events; rewrite items; simpl; eauto 10]|];
          try (exfalso; simpl in Hi; lia)).

(** ... and none with an error. *)
Ltac items_without_error items :=
  let Hin := fresh "Hin" in
  intros ? ? ? Hin; rewrite drop_new_World, first_job_of_new_World in Hin;
  apply in_item_events in Hin; rewrite items in Hin; simpl in Hin;
  repeat (destruct Hin as [[= _ <- _]|Hin]; [reflexivity|]);
  destruct Hin.

Lemma store_interfaces name af cfg c tags tag :
  interfaces cfg = Some tags -> tag ∈ tags ->
  _interfaces (store name af cfg c) !! tag =
  Some (default [] (_interfaces c !! tag) ++ replicate (length (filter (eq tag) tags)) name).
Proof.
  intros Htags Hin. unfold store, _addInterfaceMapping. rewrite Htags.
  destruct tags as [|t tags]; [by apply elem_of_nil in Hin|].
  cbn [length Nat.ltb Nat.leb _interfaces]. by apply foldl_add_implementation.
Qed.

(** ** Registration: names and the interface index *)

Lemma checked_name_Some name s : checked_name name = Some s <-> name = VStr s /\ s <> "".
Proof.
  destruct name; simpl; try (split; [discriminate|intros [[=] _]]).
  destruct (String.eqb_spec s0 "") as [->|Hne].
  - split; [discriminate|]. by intros [[= <-] ?].
  - split; [by intros [= <-]|]. by intros [[= <-] _].
Qed.

Lemma checked_name_None name : checked_name name = None <-> forall s, name = VStr s -> s = "".
Proof.
  destruct (checked_name name) as [s|] eqn:E.
  - apply checked_name_Some in E as [-> Hne]. split; [discriminate|].
    intros H. destruct Hne. by apply H.
  - split; [|done]. intros _ s ->. simpl in E.
    by destruct (String.eqb_spec s "").
Qed.

(** X1. The four registration operations reject the same names, with
    the same error, before they look at anything else: the call raises
    ['name is required'] exactly when the name is not a non-empty
    string. *)
Theorem registrations_reject_same_names
    (r : registration) (name : value) (options : option Options) (c : Container) :
  perform r name options c = Raised (VError "name is required") <->
  (forall s, name = VStr s -> s = "").
Proof.
  rewrite <- checked_name_None.
  destruct r as [f|f|f|v]; simpl;
    [unfold register|unfold registerSync|unfold registerCtor|unfold registerInstance];
    (destruct (checked_name name) as [s|]; [split; [|discriminate]|done]).
  - destruct f as [f|v]; [|discriminate]. by destruct (fn_length f =? 0).
  - by destruct f.
  - by destruct f.
  - by destruct v.
Qed.

(** X2. What a registration call accepts, its options being of the
    documented shape ([interfaces], when it is there, an array of names).
    The call returns exactly when the name is a non-empty string and the
    second argument fits the operation: for [register] a function whose
    [length] is not [0] (it counts the formal parameters before the first
    default value or rest parameter), for [registerSync] and
    [registerCtor] any function (one without parameters too), for
    [registerInstance] anything but [undefined].  In every other case it
    raises. *)
Theorem registration_returns_iff_arguments_valid
    (r : registration) (name : value) (options : option Options) (c : Container) :
  (exists c', perform r name options c = Returned c') <->
  (exists s, name = VStr s /\ s <> "") /\
  match r with
  | ByRegister factory => exists f, factory = Fn f /\ fn_length f <> 0
  | ByRegisterSync factory | ByRegisterCtor factory => exists f, factory = Fn f
  | ByRegisterInstance instance => instance <> VUndefined
  end.
Proof.
  split.
  - intros (c' & (s & af & Hname%checked_name_Some & Hnorm & _)%perform_returned).
    split; [by exists s|].
    destruct r as [[f|v]|[f|v]|[f|v]|v]; simpl in Hnorm; try done; try (by exists f).
    + exists f. split; [done|]. intros Hp. by rewrite Hp in Hnorm.
    + by intros ->.
  - intros [(s & -> & Hs) Hr].
    destruct r as [factory|factory|factory|instance]; simpl;
      [unfold register|unfold registerSync|unfold registerCtor|unfold registerInstance];
      rewrite (proj2 (checked_name_Some (VStr s) s)) by done.
    + destruct Hr as (f & -> & Hp).
      destruct (fn_length f) as [|n]; [done|]. simpl. by eexists.
    + destruct Hr as (f & ->). by eexists.
    + destruct Hr as (f & ->). by eexists.
    + destruct instance; try done; by eexists.
Qed.

(** A rest parameter does not count in [length]: [register] rejects
    [function (...args) {}], which has a formal parameter. *)
Example register_reads_length_not_parameters :
  register (VStr "svc")
    (Fn {| fid := 30; is_constructor := true; fn_length := 0;
           params := ["args"]; require := None;
           body := fun _ _ => Returns VUndefined |})
    None new_Container
  = Raised (VError "the factory function needs at least 1 argument (callback)").
Proof. reflexivity. Qed.

Lemma foldl_add_implementation_lookup name l (m : gmap string (list string)) i :
  foldl (add_implementation name) m l !! i =
  if bool_decide (i ∈ l)
  then Some (default [] (m !! i) ++ replicate (length (filter (eq i) l)) name)
  else m !! i.
Proof.
  case_bool_decide.
  - by apply foldl_add_implementation.
  - by apply foldl_add_implementation_other.
Qed.

Lemma filter_eq_nonempty (i : string) l : i ∈ l -> 0 < length (filter (eq i) l).
Proof.
  induction l as [|x l IH]; [by intros ?%elem_of_nil|].
  destruct (decide (i = x)) as [->|Hne].
  - intros _. rewrite filter_cons_True by done. simpl. lia.
  - intros [?|Hin]%elem_of_cons; [done|]. rewrite filter_cons_False by done. auto.
Qed.

(** The interface index after [store], tag by tag. *)
Lemma store_interfaces_lookup name af cfg c tag :
  _interfaces (store name af cfg c) !! tag =
  if bool_decide (tag ∈ default [] (interfaces cfg))
  then Some (default [] (_interfaces c !! tag)
             ++ replicate (length (filter (eq tag) (default [] (interfaces cfg)))) name)
  else _interfaces c !! tag.
Proof.
  unfold store, _addInterfaceMapping.
  destruct (interfaces cfg) as [l|]; simpl; [|done].
  destruct l as [|x l]; simpl; [done|].
  apply (foldl_add_implementation_lookup name (x :: l)).
Qed.

(** X3. A registration never takes a name off an interface: the list
    of each interface is extended at its end, by the name being
    registered only, and the interfaces that the options do not list are
    left as they are.  A name re-registered without an interface stays
    among its implementations. *)
Theorem registration_only_appends_implementations
    (r : registration) (s : string) (options : option Options) (c c' : Container) :
  perform r (VStr s) options c = Returned c' ->
  (forall tag impls,
     _interfaces c !! tag = Some impls ->
     exists n, _interfaces c' !! tag = Some (impls ++ replicate n s)) /\
  (forall tag,
     tag ∉ default [] (interfaces (xtend default_register_options options)) ->
     _interfaces c' !! tag = _interfaces c !! tag).
Proof.
  intros (s' & af & Hname & _ & ->)%perform_returned.
  apply checked_name_Some in Hname as [[= <-] _].
  split.
  - intros tag impls Htag. rewrite store_interfaces_lookup, Htag. simpl.
    case_bool_decide; [by eexists|]. exists 0. simpl. by rewrite app_nil_r.
  - intros tag Htag. rewrite store_interfaces_lookup.
    by rewrite bool_decide_eq_false_2.
Qed.

Lemma registration_only_appends_implementations_witness :
  let c' := or_else (registerInstance (VStr "b") (VObj 9) None with_slow_services)
              with_slow_services in
  (exists n, _interfaces c' !! "stream" = Some (["b"; "c"] ++ replicate n "b")) /\
  _interfaces c' !! "stream" = _interfaces with_slow_services !! "stream".
Proof.
  intros c'.
  destruct (registration_only_appends_implementations (ByRegisterInstance (VObj 9)) "b" None
              with_slow_services c') as [Hkept Hother].
  - reflexivity.
  - split.
    + apply Hkept. reflexivity.
    + apply Hother. apply not_elem_of_nil.
Defined.

Lemma well_indexed_new : well_indexed new_Container.
Proof. intros tag impls. unfold new_Container. simpl. by rewrite lookup_empty. Qed.

Lemma well_indexed_store name af cfg c :
  well_indexed c -> well_indexed (store name af cfg c).
Proof.
  intros Hc tag impls. rewrite store_interfaces_lookup.
  assert (Hkeep : forall n, is_Some (_registry c !! n) ->
                            is_Some (_registry (store name af cfg c) !! n)).
  { intros n Hn. rewrite store_registry.
    destruct (decide (name = n)) as [->|Hne].
    - rewrite lookup_insert_eq. by eexists.
    - by rewrite lookup_insert_ne. }
  case_bool_decide as Hin.
  - intros [= <-]. apply filter_eq_nonempty in Hin.
    destruct (length (filter (eq tag) (default [] (interfaces cfg)))) as [|n]; [lia|].
    split.
    + simpl. by destruct (default [] (_interfaces c !! tag)).
    + intros x [Hx|Hx]%elem_of_app.
      * destruct (_interfaces c !! tag) as [old|] eqn:Hold; simpl in Hx.
        -- apply Hkeep. by apply (Hc tag old).
        -- by apply elem_of_nil in Hx.
      * apply elem_of_replicate in Hx as [-> _].
        rewrite store_registry, lookup_insert_eq. by eexists.
  - intros Htag. destruct (Hc tag impls Htag) as [Hne Hreg]. split; [done|].
    intros x Hx. apply Hkeep. by apply Hreg.
Qed.

Lemma well_indexed_perform r name options c c' :
  well_indexed c -> perform r name options c = Returned c' -> well_indexed c'.
Proof.
  intros Hc (s & af & _ & _ & ->)%perform_returned. by apply well_indexed_store.
Qed.

(** X4. Whatever registration calls a client makes on a new container,
    in whatever order and whether they return or raise, every interface
    of the index has at least one implementation and every
    implementation it lists is a registered name. *)
Theorem registrations_keep_index_well_formed (reqs : list request) :
  well_indexed (perform_all reqs new_Container).
Proof.
  unfold perform_all. generalize well_indexed_new. generalize new_Container.
  induction reqs as [|q reqs IH]; intros c Hc; [done|].
  simpl. apply IH.
  destruct (perform q.1.1 q.1.2 q.2 c) as [c'|e] eqn:E; simpl; [|done].
  by apply (well_indexed_perform _ _ _ c c' Hc E).
Qed.

(** ** Lifetimes: transient services, singletons, failing factories *)

Lemma invoke_KStore_error rec name sing callback err v w :
  truthy err = true ->
  invoke_ rec (KStore name sing callback) err v w =
  rec (Invoke callback err VUndefined) (log (EInvoke (KStore name sing callback) err v) w).
Proof. intros H. unfold invoke_. by rewrite H. Qed.

Lemma calls_of_log_call f args w :
  calls_of (fid f) (trace (log (ECall (fid f) args) w)) = S (calls_of (fid f) (trace w)).
Proof.
  rewrite trace_log, calls_of_app, calls_of_cons. cbn [is_call].
  rewrite Nat.eqb_refl. unfold calls_of at 2. simpl. lia.
Qed.

(** One resolution of a service registered with [registerSync] whose
    factory has no dependencies and returns, when the cache is not
    used. *)
Lemma resolve_sync_nodeps_any fuel name f cfg id w v :
  _registry (container w) !! name = Some {| factory := ViaCallSync f; config := cfg |} ->
  cache_unused name cfg (container w) ->
  getDependenciesNames f false = [] ->
  behave f [] w = Returns v ->
  exists w1,
    resolve (5 + fuel) (One name) (KTop id) w = Normal w1 /\
    container w1 =
      (if truthy (singleton cfg) then container (set_instance name v w) else container w) /\
    pending w1 = pending w /\
    trace w1 = trace w ++
      [EInvoke (KSync f (KStore name (singleton cfg) (KTop id))) VNull (VArr []);
       ECall (fid f) [];
       EInvoke (KStore name (singleton cfg) (KTop id)) VNull v;
       EInvoke (KTop id) VNull v].
Proof.
  intros Hr Hc Hdeps Hb.
  change (5 + fuel) with (S (4 + fuel)).
  rewrite (resolve_cache_unused _ _ _ _ _ Hr Hc). cbn [factory config].
  unfold run_factory, callSync. rewrite Hdeps.
  change (4 + fuel) with (S (S (S (S fuel)))).
  rewrite exec_resolve. cbn [resolve_]. rewrite async_map_nil.
  rewrite exec_invoke, invoke_KSync by done. cbn zeta. cbn [args_of].
  rewrite behave_log_invoke.
  match goal with |- context [behave f [] ?w'] =>
    assert (behave f [] w' = Returns v) as Hb' by (by rewrite <- Hb); rewrite Hb' end.
  rewrite (apply_fn_returns _ _ _ _ _ v) by (by rewrite behave_log_invoke).
  cbn [returned].
  rewrite exec_invoke, invoke_KStore by done.
  rewrite exec_invoke, invoke_KTop.
  eexists. split; [reflexivity|].
  destruct (truthy (singleton cfg)); simpl; repeat split; by rewrite <- !app_assoc.
Qed.

(** X5. A transient registration (a falsy [singleton] in its
    configuration) produces its service on every resolution: two
    resolutions in sequence of a [registerSync] service without
    dependencies call the factory twice and deliver what it returned each
    time, and the container is left as it was, whatever the cache held
    under that name. *)
Theorem transient_service_produced_on_every_resolution
    (fuel : nat) (name : string) (f : jsfun) (cfg : Config)
    (produce : nat -> value) (a b : nat) (w : World) :
  _registry (container w) !! name = Some {| factory := ViaCallSync f; config := cfg |} ->
  truthy (singleton cfg) = false ->
  getDependenciesNames f false = [] ->
  (forall n, body f [] n = Returns (produce n)) ->
  let n := calls_of (fid f) (trace w) in
  exists w1 w2,
    resolve (5 + fuel) (One name) (KTop a) w = Normal w1 /\
    resolve (5 + fuel) (One name) (KTop b) w1 = Normal w2 /\
    deliveries a (drop (length (trace w)) (trace w1)) = [(VNull, produce n)] /\
    deliveries b (drop (length (trace w1)) (trace w2)) = [(VNull, produce (S n))] /\
    invocations (fid f) (drop (length (trace w)) (trace w2)) = [[]; []] /\
    container w2 = container w.
Proof.
  intros Hr Hs Hdeps Hbody n.
  destruct (resolve_sync_nodeps_any fuel name f cfg a w (produce n))
    as (w1 & Hres1 & Hc1 & _ & Htr1); auto.
  { by left. }
  { unfold behave. apply Hbody. }
  rewrite Hs in Hc1.
  assert (Hn1 : calls_of (fid f) (trace w1) = S n).
  { rewrite Htr1, calls_of_app, !calls_of_cons. simpl. rewrite Nat.eqb_refl.
    unfold calls_of at 2. simpl. fold n. lia. }
  destruct (resolve_sync_nodeps_any fuel name f cfg b w1 (produce (S n)))
    as (w2 & Hres2 & Hc2 & _ & Htr2); auto.
  { by rewrite Hc1. }
  { by left. }
  { unfold behave. rewrite Hn1. apply Hbody. }
  rewrite Hs in Hc2.
  exists w1, w2. repeat split; [done|done|..].
  - rewrite Htr1, drop_app_length. simpl. by rewrite Nat.eqb_refl.
  - rewrite Htr2, drop_app_length. simpl. by rewrite Nat.eqb_refl.
  - rewrite Htr2, Htr1, <- app_assoc, drop_app_length. simpl. by rewrite Nat.eqb_refl.
  - congruence.
Qed.

Lemma transient_service_produced_on_every_resolution_witness :
  exists w1 w2,
    resolve 5 (One "service") (KTop 0) (new_World (with_pre_increment transient)) = Normal w1 /\
    resolve 5 (One "service") (KTop 1) w1 = Normal w2 /\
    deliveries 0 (trace w1) = [(VNull, VNum 1)] /\
    deliveries 1 (drop (length (trace w1)) (trace w2)) = [(VNull, VNum 2)] /\
    invocations 6 (trace w2) = [[]; []] /\
    container w2 = with_pre_increment transient.
Proof.
  apply (transient_service_produced_on_every_resolution 0 "service" pre_increment
           {| singleton := VBool false; interfaces := None |}
           (fun n => VNum (Z.of_nat (S n))) 0 1
           (new_World (with_pre_increment transient))).
  - vm_compute. reflexivity.
  - reflexivity.
  - reflexivity.
  - reflexivity.
Defined.

(** X6. A singleton whose factory produced a truthy value is produced
    once: the first resolution of a [registerSync] service without
    dependencies calls the factory and caches what it returned, and a
    second resolution, started after the first has completed, delivers
    the identical value without calling the factory. *)
Theorem singleton_truthy_instance_produced_once
    (fuel : nat) (name : string) (f : jsfun) (cfg : Config)
    (produce : nat -> value) (a b : nat) (w : World) :
  _registry (container w) !! name = Some {| factory := ViaCallSync f; config := cfg |} ->
  truthy (singleton cfg) = true ->
  _instances (container w) !! name = None ->
  getDependenciesNames f false = [] ->
  (forall n, body f [] n = Returns (produce n)) ->
  let n := calls_of (fid f) (trace w) in
  truthy (produce n) = true ->
  exists w1 w2,
    resolve (5 + fuel) (One name) (KTop a) w = Normal w1 /\
    resolve (5 + fuel) (One name) (KTop b) w1 = Normal w2 /\
    deliveries a (drop (length (trace w)) (trace w1)) = [(VNull, produce n)] /\
    deliveries b (drop (length (trace w1)) (trace w2)) = [(VNull, produce n)] /\
    invocations (fid f) (drop (length (trace w)) (trace w2)) = [[]] /\
    _instances (container w2) !! name = Some (produce n).
Proof.
  intros Hr Hs Hi Hdeps Hbody n Htruthy.
  destruct (resolve_sync_nodeps_any fuel name f cfg a w (produce n))
    as (w1 & Hres1 & Hc1 & _ & Htr1); auto.
  { right. by left. }
  { unfold behave. apply Hbody. }
  rewrite Hs in Hc1.
  assert (Hcached : _instances (container w1) !! name = Some (produce n)).
  { rewrite Hc1. simpl. apply lookup_insert_eq. }
  assert (Hr1 : _registry (container w1) !! name
                = Some {| factory := ViaCallSync f; config := cfg |}).
  { by rewrite Hc1. }
  exists w1, (log (EInvoke (KTop b) VNull (produce n)) w1).
  split; [done|]. split.
  { change (5 + fuel) with (S (S (3 + fuel))).
    rewrite (resolve_cached _ _ _ _ _ _ Hr1 Hs Hcached Htruthy).
    unfold invoke. by rewrite exec_invoke, invoke_KTop. }
  repeat split.
  - rewrite Htr1, drop_app_length. simpl. by rewrite Nat.eqb_refl.
  - rewrite trace_log, drop_app_length. simpl. by rewrite Nat.eqb_refl.
  - rewrite trace_log, Htr1, <- app_assoc, drop_app_length. simpl.
    by rewrite Nat.eqb_refl.
  - done.
Qed.

Lemma singleton_truthy_instance_produced_once_witness :
  exists w1 w2,
    resolve 5 (One "service") (KTop 0) (new_World (with_pre_increment None)) = Normal w1 /\
    resolve 5 (One "service") (KTop 1) w1 = Normal w2 /\
    deliveries 0 (trace w1) = [(VNull, VNum 1)] /\
    deliveries 1 (drop (length (trace w1)) (trace w2)) = [(VNull, VNum 1)] /\
    invocations 6 (trace w2) = [[]] /\
    _instances (container w2) !! "service" = Some (VNum 1).
Proof.
  apply (singleton_truthy_instance_produced_once 0 "service" pre_increment
           default_register_options (fun n => VNum (Z.of_nat (S n))) 0 1
           (new_World (with_pre_increment None))).
  - vm_compute. reflexivity.
  - reflexivity.
  - vm_compute. reflexivity.
  - reflexivity.
  - reflexivity.
  - reflexivity.
Defined.

(** A factory that [register] stored as it is, calling its callback
    before it returns. *)
Lemma resolve_direct_calls_back fuel name f cfg callback w err v :
  _registry (container w) !! name = Some {| factory := Direct f; config := cfg |} ->
  cache_unused name cfg (container w) ->
  behave f [] w = CallsBack err v ->
  resolve (2 + fuel) (One name) callback w =
  invoke_ (exec fuel) (KStore name (singleton cfg) callback) err v
    (log (ECall (fid f) []) w).
Proof.
  intros Hr Hc Hb. change (2 + fuel) with (S (S fuel)).
  rewrite (resolve_cache_unused _ _ _ _ _ Hr Hc). cbn [factory config run_factory].
  rewrite (apply_fn_calls_back _ _ _ _ _ _ _ Hb). by rewrite exec_invoke.
Qed.

(** ** Overlapping resolutions and cycles *)

Lemma invoke_store_top fuel name sing id v w :
  truthy sing = true ->
  invoke (2 + fuel) (KStore name sing (KTop id)) VNull v w =
  Normal (log (EInvoke (KTop id) VNull v)
            (set_instance name v (log (EInvoke (KStore name sing (KTop id)) VNull v) w))).
Proof.
  intros Hs. change (2 + fuel) with (S (S fuel)). unfold invoke.
  rewrite exec_invoke, invoke_KStore by done. rewrite Hs.
  by rewrite exec_invoke, invoke_KTop.
Qed.

(** A factory that [register] stored as it is and that answers from a
    later turn of the event loop: [resolve] returns with the answer
    pending. *)
Lemma resolve_direct_later fuel name f cfg callback w err v :
  _registry (container w) !! name = Some {| factory := Direct f; config := cfg |} ->
  cache_unused name cfg (container w) ->
  behave f [] w = CallsBackLater err v ->
  resolve (1 + fuel) (One name) callback w =
  Normal (defer (Deferred (KStore name (singleton cfg) callback) err v)
            (log (ECall (fid f) []) w)).
Proof.
  intros Hr Hc Hb. change (1 + fuel) with (S fuel).
  rewrite (resolve_cache_unused _ _ _ _ _ Hr Hc). cbn [factory config run_factory].
  by rewrite (apply_fn_calls_back_later _ _ _ _ _ _ _ Hb).
Qed.

Lemma lookup_after {A} (l : list A) x y : (l ++ [x; y]) !! S (length l) = Some y.
Proof.
  rewrite lookup_app_r by lia. by replace (S (length l) - length l) with 1 by lia.
Qed.

Lemma delete_after {A} (l : list A) x y : delete (S (length l)) (l ++ [x; y]) = l ++ [x].
Proof.
  change (l ++ [x; y]) with (l ++ [x] ++ [y]). rewrite app_assoc.
  replace (S (length l)) with (length (l ++ [x])) by (rewrite length_app; simpl; lia).
  rewrite delete_middle. by rewrite app_nil_r.
Qed.

(** X9. Two resolutions of a singleton that overlap are not merged.
    When the factory of a service registered with [register] answers from
    a later turn of the event loop, a second resolution started before
    the first answer has arrived finds nothing cached and calls the
    factory again; each caller gets the value of its own call, whichever
    answer arrives first, and the cache is left with the value that
    arrived last. *)
Theorem overlapping_first_resolutions_both_run_factory
    (fuel : nat) (name : string) (f : jsfun) (cfg : Config)
    (produce : nat -> value) (a b : nat) (w : World) :
  _registry (container w) !! name = Some {| factory := Direct f; config := cfg |} ->
  truthy (singleton cfg) = true ->
  _instances (container w) !! name = None ->
  (forall n, body f [] n = CallsBackLater VNull (produce n)) ->
  a <> b ->
  let n := calls_of (fid f) (trace w) in
  let p := length (pending w) in
  exists w2,
    and_then (resolve (1 + fuel) (One name) (KTop a) w)
             (resolve (1 + fuel) (One name) (KTop b)) = Normal w2 /\
    container w2 = container w /\
    drop (length (trace w)) (trace w2) = [ECall (fid f) []; ECall (fid f) []] /\
    forall pick, pick = p \/ pick = S p ->
      exists w3,
        run (2 + fuel) [pick; p] w2 = Normal w3 /\
        pending w3 = pending w /\
        deliveries a (drop (length (trace w2)) (trace w3)) = [(VNull, produce n)] /\
        deliveries b (drop (length (trace w2)) (trace w3)) = [(VNull, produce (S n))] /\
        _instances (container w3) !! name =
          Some (if pick =? p then produce (S n) else produce n).
Proof.
  intros Hr Hs Hi Hbody Hab n p.
  set (ka := KStore name (singleton cfg) (KTop a)).
  set (kb := KStore name (singleton cfg) (KTop b)).
  set (w1 := defer (Deferred ka VNull (produce n)) (log (ECall (fid f) []) w)).
  set (w2 := defer (Deferred kb VNull (produce (S n))) (log (ECall (fid f) []) w1)).
  assert (H1 : resolve (1 + fuel) (One name) (KTop a) w = Normal w1).
  { apply resolve_direct_later; [done|right; by left|]. unfold behave. apply Hbody. }
  assert (H2 : resolve (1 + fuel) (One name) (KTop b) w1 = Normal w2).
  { apply resolve_direct_later; [done|right; by left|]. unfold behave.
    replace (calls_of (fid f) (trace w1)) with (S n); [apply Hbody|].
    unfold w1. cbn [trace defer]. by rewrite calls_of_log_call. }
  assert (Hp2 : pending w2 = pending w
                  ++ [Deferred ka VNull (produce n); Deferred kb VNull (produce (S n))]).
  { unfold w2, w1. cbn [pending defer log]. by rewrite <- app_assoc. }
  exists w2. split; [by rewrite H1|]. split; [done|]. split.
  { unfold w2, w1. cbn [trace defer log]. by rewrite <- app_assoc, drop_app_length. }
  intros pick [-> | ->].
  - (* the first answer arrives first *)
    rewrite Nat.eqb_refl. cbn [run].
    rewrite Hp2, (list_lookup_middle _ _ _ p) by done.
    set (w2a := drop_task p w2).
    assert (Hp2a : pending w2a = pending w ++ [Deferred kb VNull (produce (S n))]).
    { unfold w2a. cbn [pending drop_task]. rewrite Hp2. apply delete_middle. }
    unfold ka at 1. rewrite invoke_store_top by done. fold ka.
    cbn [pending log set_instance]. rewrite Hp2a, (list_lookup_middle _ _ _ p) by done.
    unfold kb at 1. rewrite invoke_store_top by done. fold kb.
    eexists. split; [reflexivity|].
    cbn [pending drop_task log set_instance trace container _instances].
    rewrite Hp2a. unfold p. rewrite (delete_middle _ []), app_nil_r.
    split; [done|]. rewrite <- !app_assoc, drop_app_length. repeat split.
    + unfold ka, kb. simpl. by rewrite Nat.eqb_refl, (proj2 (Nat.eqb_neq a b)).
    + unfold ka, kb. simpl. by rewrite Nat.eqb_refl, (proj2 (Nat.eqb_neq b a)).
    + by rewrite lookup_insert_eq.
  - (* the second answer arrives first *)
    rewrite (proj2 (Nat.eqb_neq (S p) p)) by lia. cbn [run].
    rewrite Hp2. unfold p at 1. rewrite lookup_after. fold p.
    set (w2b := drop_task (S p) w2).
    assert (Hp2b : pending w2b = pending w ++ [Deferred ka VNull (produce n)]).
    { unfold w2b. cbn [pending drop_task]. rewrite Hp2. apply delete_after. }
    unfold kb at 1. rewrite invoke_store_top by done. fold kb.
    cbn [pending log set_instance]. rewrite Hp2b, (list_lookup_middle _ _ _ p) by done.
    unfold ka at 1. rewrite invoke_store_top by done. fold ka.
    eexists. split; [reflexivity|].
    cbn [pending drop_task log set_instance trace container _instances].
    rewrite Hp2b. unfold p. rewrite (delete_middle _ []), app_nil_r.
    split; [done|]. rewrite <- !app_assoc, drop_app_length. repeat split.
    + unfold ka, kb. simpl. by rewrite Nat.eqb_refl, (proj2 (Nat.eqb_neq a b)).
    + unfold ka, kb. simpl. by rewrite Nat.eqb_refl, (proj2 (Nat.eqb_neq b a)).
    + by rewrite lookup_insert_eq.
Qed.

Lemma overlapping_first_resolutions_both_run_factory_witness :
  exists w2,
    and_then (resolve 1 (One "n") (KTop 0)
                (registered (ByRegister (Fn counts_later)) "n" new_Container))
             (resolve 1 (One "n") (KTop 1)) = Normal w2 /\
    trace w2 = [ECall 9 []; ECall 9 []] /\
    exists w3,
      run 2 [1; 0] w2 = Normal w3 /\
      deliveries 0 (drop (length (trace w2)) (trace w3)) = [(VNull, VNum 1)] /\
      deliveries 1 (drop (length (trace w2)) (trace w3)) = [(VNull, VNum 2)] /\
      _instances (container w3) !! "n" = Some (VNum 1).
Proof.
  destruct (overlapping_first_resolutions_both_run_factory 0 "n" counts_later
              default_register_options (fun n => VNum (Z.of_nat (S n))) 0 1
              (registered (ByRegister (Fn counts_later)) "n" new_Container))
    as (w2 & Hres & _ & Htr & Hrun).
  - vm_compute. reflexivity.
  - reflexivity.
  - vm_compute. reflexivity.
  - reflexivity.
  - discriminate.
  - exists w2. split; [exact Hres|]. split; [exact Htr|].
    destruct (Hrun 1) as (w3 & H3 & _ & Da & Db & Hc); [right; reflexivity|].
    exists w3. split; [exact H3|]. split; [exact Da|]. split; [exact Db|exact Hc].
Defined.

(** X10. The resolver does not detect cycles.  A service registered
    with [register] (two parameters or more), [registerSync] or
    [registerCtor] whose first dependency is its own name, and that is not
    answered from the cache, is never resolved: each resolution asks for
    the dependencies, the first of which is the service again, so that
    the nested calls exceed every bound on their depth. *)
Theorem self_dependency_never_resolves
    (fuel : nat) (i : injection) (f : jsfun) (name : string) (cfg : Config)
    (rest : list string) (callback : cont) (w : World) :
  _registry (container w) !! name = Some {| factory := injecting i f; config := cfg |} ->
  cache_unused name cfg (container w) ->
  injected i f = name :: rest ->
  resolve fuel (One name) callback w = OutOfFuel.
Proof.
  intros Hr Hc Hdeps. revert callback w Hr Hc.
  induction fuel as [fuel IH] using lt_wf_ind. intros callback w Hr Hc.
  destruct fuel as [|fuel]; [done|].
  rewrite (resolve_cache_unused _ _ _ _ _ Hr Hc). cbn [factory config].
  assert (Hmany : forall k, exec fuel (Resolve (Many (name :: rest)) k) w = OutOfFuel).
  { intros k. destruct fuel as [|fuel]; [done|].
    rewrite exec_resolve. cbn [resolve_]. unfold async_map. cbn [map_loop].
    change (exec fuel (Resolve (One name) ?k') ?w') with (resolve fuel (One name) k' w').
    by rewrite IH by (done || lia). }
  destruct i; cbn [injecting injected] in *; cbn [run_factory];
    [unfold call|unfold callSync|unfold callCtor]; rewrite Hdeps; apply Hmany.
Qed.

Lemma self_dependency_never_resolves_witness :
  resolve 1000 (One "loop") (KTop 0)
    (registered (ByRegisterSync (Fn needs_itself)) "loop" new_Container) = OutOfFuel.
Proof.
  apply (self_dependency_never_resolves 1000 InjectSync needs_itself "loop"
           default_register_options []).
  - vm_compute. reflexivity.
  - right. left. vm_compute. reflexivity.
  - reflexivity.
Defined.

(** ** Element callbacks of [async.map], one at a time *)

Lemma invocations_app g tr1 tr2 :
  invocations g (tr1 ++ tr2) = invocations g tr1 ++ invocations g tr2.
Proof. unfold invocations. apply omap_app. Qed.

Lemma internal_deliveries id extra : Forall internal extra -> deliveries id extra = [].
Proof.
  induction 1 as [|ev extra Hev _ IH]; [done|].
  change (ev :: extra) with ([ev] ++ extra). rewrite deliveries_app, IH, app_nil_r.
  destruct ev as [g args|k err v]; [done|]. by destruct k.
Qed.

Lemma internal_invocations g extra : Forall internal extra -> invocations g extra = [].
Proof.
  induction 1 as [|ev extra Hev _ IH]; [done|].
  change (ev :: extra) with ([ev] ++ extra). rewrite invocations_app, IH, app_nil_r.
  by destruct ev as [g' args|k err v].
Qed.

Lemma internal_calls_of g extra : Forall internal extra -> calls_of g extra = 0.
Proof.
  induction 1 as [|ev extra Hev _ IH]; [done|].
  rewrite calls_of_cons, IH. by destruct ev as [g' args|k err v].
Qed.

Lemma outcome_eta (o : Outcome) :
  match o with
  | Normal w => Normal w
  | Thrown e w => Thrown e w
  | OutOfFuel => OutOfFuel
  end = o.
Proof. by destruct o. Qed.

(** The element [i] of the call [j] completes, and others are still
    awaited. *)
Lemma invoke_item_more fuel j i v w jb :
  jobs w !! j = Some jb -> i ∉ seen jb -> S (completed jb) <> total jb ->
  invoke (S fuel) (KMapItem j i) VNull v w =
  Normal (set_job j
            (mkJob (arr_set i v (results jb)) (S (completed jb)) (total jb) (fired jb)
                   (i :: seen jb) (done_cb jb))
            (log (EInvoke (KMapItem j i) VNull v) w)).
Proof.
  intros Hj Hseen Hmore. unfold invoke. rewrite exec_invoke.
  unfold invoke_, item_done. cbn [jobs log]. rewrite Hj.
  rewrite bool_decide_eq_false_2 by done. cbn [truthy completed total].
  by rewrite (proj2 (Nat.eqb_neq _ _) Hmore).
Qed.

(** The element [i] of the call [j] completes, and it was the last one
    awaited. *)
Lemma invoke_item_last fuel j i v w jb :
  jobs w !! j = Some jb -> i ∉ seen jb -> S (completed jb) = total jb ->
  fired jb = false ->
  invoke (S fuel) (KMapItem j i) VNull v w =
  invoke fuel (done_cb jb) VNull (VArr (arr_set i v (results jb)))
    (set_job j
       (mkJob (arr_set i v (results jb)) (S (completed jb)) (total jb) true
              (i :: seen jb) (done_cb jb))
       (log (EInvoke (KMapItem j i) VNull v) w)).
Proof.
  intros Hj Hseen Hlast Hf. unfold invoke. rewrite exec_invoke.
  unfold invoke_, item_done. cbn [jobs log]. rewrite Hj.
  rewrite bool_decide_eq_false_2 by done. cbn [truthy completed total].
  rewrite (proj2 (Nat.eqb_eq _ _) Hlast).
  unfold once_done. cbn [fired done_cb results completed total seen]. by rewrite Hf.
Qed.

(** The element [i] of the call [j] fails, before the final callback
    has run. *)
Lemma invoke_item_error fuel j i err v w jb :
  jobs w !! j = Some jb -> i ∉ seen jb -> truthy err = true -> fired jb = false ->
  invoke (S fuel) (KMapItem j i) err v w =
  invoke fuel (done_cb jb) err (VArr (arr_set i v (results jb)))
    (set_job j
       (mkJob (arr_set i v (results jb)) (completed jb) (total jb) true
              (i :: seen jb) (done_cb jb))
       (log (EInvoke (KMapItem j i) err v) w)).
Proof.
  intros Hj Hseen Herr Hf. unfold invoke. rewrite exec_invoke.
  unfold invoke_, item_done. cbn [jobs log]. rewrite Hj.
  rewrite bool_decide_eq_false_2 by done. rewrite Herr.
  unfold once_done. cbn [fired done_cb results completed total seen]. by rewrite Hf.
Qed.

(** ** Steps that only the container sees *)

(** Events logged, and [async.map] calls from [b] on added or updated:
    a quiet step. *)
Lemma quietly_events b w w1 extra :
  container w1 = container w -> pending w1 = pending w ->
  trace w1 = trace w ++ extra -> Forall internal extra ->
  (forall j jb, j < b -> jobs w !! j = Some jb -> jobs w1 !! j = Some jb) ->
  quietly b w w1.
Proof.
  intros Hc Hp Ht Hint Hj. unfold quietly. rewrite Hc.
  split; [done|]. split; [by exists extra|]. by repeat (split; [done|]).
Qed.

Lemma quietly_refl b w : quietly b w w.
Proof. apply (quietly_events b w w []); try done. by rewrite app_nil_r. Qed.

Lemma quietly_weaken b b' w w1 : b' <= b -> quietly b w w1 -> quietly b' w w1.
Proof.
  intros Hb (Hp & Ht & Hj & Hrest). split; [done|]. split; [done|].
  split; [|done]. intros j jb Hlt. apply Hj. lia.
Qed.

Lemma quietly_trans b w w1 w2 : quietly b w w1 -> quietly b w1 w2 -> quietly b w w2.
Proof.
  intros (Hp & (e & Ht & Hint) & Hj & Hr & Hi & Hc & Hs)
         (Hp' & (e' & Ht' & Hint') & Hj' & Hr' & Hi' & Hc' & Hs').
  split; [congruence|]. split.
  { exists (e ++ e'). split; [by rewrite Ht', Ht, app_assoc|]. by apply Forall_app. }
  split; [intros j jb Hlt Hjb; by apply Hj', Hj|].
  split; [congruence|]. split; [congruence|]. split; [|by intros n v Hn; apply Hs', Hs].
  intros other Hother. rewrite Hc', Hc; [done..|].
  unfold instance_name. by rewrite Hr.
Qed.

Lemma quietly_item b w j i v jb :
  b <= j ->
  quietly b w (set_job j jb (log (EInvoke (KMapItem j i) VNull v) w)).
Proof.
  intros Hb. apply (quietly_events _ _ _ [EInvoke (KMapItem j i) VNull v]); try done.
  - by repeat constructor.
  - intros j' jb' Hlt Hj'. cbn [jobs set_job log].
    rewrite list_lookup_insert_ne by lia. done.
Qed.

Lemma quietly_new_job w jb :
  quietly (length (jobs w)) w (add_job jb w).
Proof.
  apply (quietly_events _ _ _ []); try done; [by rewrite app_nil_r|].
  intros j jb' _ Hj. cbn [jobs add_job]. by apply lookup_app_l_Some.
Qed.

Lemma quietly_pending b w w1 : quietly b w w1 -> pending w1 = pending w.
Proof. by intros (? & _). Qed.

Lemma quietly_job b w w1 j jb : quietly b w w1 -> j < b -> jobs w !! j = Some jb -> jobs w1 !! j = Some jb.
Proof. intros (_ & _ & Hj & _). apply Hj. Qed.

Lemma quietly_registry b w w1 : quietly b w w1 -> _registry (container w1) = _registry (container w).
Proof. by intros (_ & _ & _ & ? & _). Qed.

Lemma quietly_interfaces b w w1 :
  quietly b w w1 -> _interfaces (container w1) = _interfaces (container w).
Proof. by intros (_ & _ & _ & _ & ? & _). Qed.

Lemma quietly_settled b w w1 name v :
  quietly b w w1 -> settled (container w) name v -> settled (container w1) name v.
Proof. intros (_ & _ & _ & _ & _ & _ & Hs). apply Hs. Qed.

Lemma quietly_provided b w w1 name v :
  quietly b w w1 -> provided (container w) name v -> provided (container w1) name v.
Proof.
  intros Hq [Hs|(impls & vs & Hr & Hi & Hne & Hall & ->)].
  - left. by apply (quietly_settled b w).
  - right. exists impls, vs.
    rewrite (quietly_registry _ _ _ Hq), (quietly_interfaces _ _ _ Hq).
    repeat (split; [done|]). split; [|done].
    eapply Forall2_impl; [exact Hall|]. intros n v. by apply (quietly_settled b w).
Qed.

Lemma quietly_cache b w w1 name af cfg :
  quietly b w w1 ->
  _registry (container w) !! name = Some {| factory := af; config := cfg |} ->
  (forall v, af <> Instance v) ->
  _instances (container w1) !! name = _instances (container w) !! name.
Proof.
  intros (_ & _ & _ & _ & _ & Hc & _) Hr Haf. apply Hc.
  intros (v & cfg' & Hr'). rewrite Hr in Hr'. injection Hr' as -> _. by apply (Haf v).
Qed.

Lemma quietly_trace b w w1 :
  quietly b w w1 ->
  exists extra, trace w1 = trace w ++ extra /\
    (forall id, deliveries id extra = []) /\ (forall g, invocations g extra = []) /\
    (forall g, calls_of g extra = 0).
Proof.
  intros (_ & (extra & Ht & Hint) & _). exists extra. split; [done|].
  split; [intros id; by apply internal_deliveries|].
  split; [intros g; by apply internal_invocations|intros g; by apply internal_calls_of].
Qed.

(** ** Dependencies that are registered instances or interfaces of them *)

(** Resolving a settled name calls the callback with its instance, from
    a world reached quietly. *)
Lemma resolve_settled_step fuel name v k w :
  settled (container w) name v ->
  exists n w1,
    1 + fuel <= n /\ quietly (length (jobs w)) w w1 /\
    resolve (3 + fuel) (One name) k w = invoke n k VNull v w1.
Proof.
  intros (cfg & Hreg & Hun). change (3 + fuel) with (S (S (S fuel))).
  unfold resolve. rewrite exec_resolve. cbn [resolve_]. rewrite Hreg. cbn [factory config].
  assert (Hproduce : exists n w1,
    1 + fuel <= n /\ quietly (length (jobs w)) w w1 /\
    run_factory (exec (S (S fuel))) (Instance v) (KStore name (singleton cfg) k) w
      = invoke n k VNull v w1).
  { cbn [run_factory]. rewrite exec_invoke, invoke_KStore by done.
    eexists (1 + fuel), _. split; [done|]. split; [|reflexivity].
    set (ev := EInvoke (KStore name (singleton cfg) k) VNull v).
    destruct (truthy (singleton cfg)) eqn:Hs.
    - split; [done|]. split; [exists [ev]; split; [done|by repeat constructor]|].
      split; [done|]. split; [done|]. split; [done|].
      cbn [set_instance log container _instances]. split.
      + intros other Hother. rewrite lookup_insert_ne; [done|].
        intros <-. apply Hother. by exists v, cfg.
      + intros name' v' (cfg' & Hreg' & Hun'). exists cfg'. split; [done|].
        destruct Hun' as [?|Hun']; [by left|right].
        intros cached. cbn [_instances].
        destruct (decide (name = name')) as [<-|Hne].
        * rewrite lookup_insert_eq. intros [= <-] _. rewrite Hreg in Hreg'.
          by injection Hreg'.
        * rewrite lookup_insert_ne by done. apply Hun'.
    - apply (quietly_events _ _ _ [ev]); try done. by repeat constructor. }
  destruct (truthy (singleton cfg)) eqn:Hs; [|exact Hproduce].
  destruct (_instances (container w) !! name) as [cached|] eqn:Hc; [|exact Hproduce].
  destruct (truthy cached) eqn:Ht; [|exact Hproduce].
  destruct Hun as [Hun|Hun]; [congruence|]. rewrite (Hun cached Hc Ht).
  exists (2 + fuel), w. split; [lia|]. split; [apply quietly_refl|done].
Qed.

Lemma map_loop_app rec j l1 l2 index w :
  map_loop rec j (l1 ++ l2) index w =
  match map_loop rec j l1 index w with
  | Normal w' => map_loop rec j l2 (index + length l1) w'
  | o => o
  end.
Proof.
  revert index w. induction l1 as [|x l1 IH]; intros index w; simpl.
  - by rewrite Nat.add_0_r.
  - destruct (rec (Resolve (One x) (KMapItem j index)) w); [|done..].
    rewrite IH. by rewrite Nat.add_succ_r.
Qed.

Lemma async_map_loop rec coll callback w :
  coll <> [] ->
  async_map rec coll callback w =
  map_loop rec (length (jobs w)) coll 0
    (add_job (mkJob [] 0 (length coll) false [] callback) w).
Proof. by destruct coll. Qed.

Section Dependencies.

(** Names that stand for values ([P]), each resolved, within [F] nested
    calls and more, by calling the callback with its value from a world
    reached quietly. *)
Variable F : nat.
Variable P : Container -> string -> value -> Prop.
Hypothesis P_kept : forall b w w1 name v,
  quietly b w w1 -> P (container w) name v -> P (container w1) name v.
Hypothesis P_step : forall fuel name v k w,
  P (container w) name v ->
  exists n w1,
    1 + fuel <= n /\ quietly (length (jobs w)) w w1 /\
    resolve (F + fuel) (One name) k w = invoke n k VNull v w1.

(** The loop of [async.map] over such names, as long as the call still
    awaits other elements when the loop is done: every element callback
    runs before the loop goes on, none is left to the event loop, and the
    final callback has not run. *)
Lemma map_loop_open fuel j hole names :
  forall vs index w jb,
  Forall2 (P (container w)) names vs ->
  jobs w !! j = Some jb ->
  fired jb = false ->
  (forall x, x ∈ seen jb -> x < index /\ x <> hole) ->
  hole < index \/ index + length names <= hole ->
  completed jb + length names < total jb ->
  exists w' jb',
    map_loop (exec (F + S fuel)) j names index w = Normal w' /\
    quietly j w w' /\
    jobs w' !! j = Some jb' /\
    fired jb' = false /\ done_cb jb' = done_cb jb /\ total jb' = total jb /\
    completed jb' = completed jb + length names /\
    (forall x, x ∈ seen jb' -> x < index + length names /\ x <> hole) /\
    (length (results jb) = index -> results jb' = results jb ++ vs).
Proof.
  induction names as [|name names IH]; intros vs index w jb Hall Hj Hf Hseen Hhole Hopen.
  { apply Forall2_nil_inv_l in Hall as ->.
    exists w, jb. simpl. rewrite !app_nil_r, !Nat.add_0_r.
    split; [done|]. split; [apply quietly_refl|]. by repeat (split; [done|]). }
  apply Forall2_cons_inv_l in Hall as (v & vs' & Hv & Hall & ->).
  cbn [map_loop]. cbn [length] in Hhole, Hopen.
  assert (Hlt : j < length (jobs w)) by (by apply lookup_lt_Some in Hj).
  destruct (P_step (S fuel) name v (KMapItem j index) w Hv) as (n & w1 & Hn & Hq1 & Hres).
  change (exec (F + S fuel) (Resolve (One name) (KMapItem j index)) w)
    with (resolve (F + S fuel) (One name) (KMapItem j index) w).
  rewrite Hres. destruct n as [|n]; [lia|].
  pose proof (quietly_job _ _ _ _ _ Hq1 Hlt Hj) as Hj1.
  rewrite (invoke_item_more n j index v w1 jb Hj1)
    by (try lia; intros Hin; apply Hseen in Hin; lia).
  set (jb1 := mkJob (arr_set index v (results jb)) (S (completed jb)) (total jb) (fired jb)
                    (index :: seen jb) (done_cb jb)).
  set (w2 := set_job j jb1 (log (EInvoke (KMapItem j index) VNull v) w1)).
  assert (Hq2 : quietly j w w2).
  { apply (quietly_trans _ _ w1).
    - apply (quietly_weaken (length (jobs w))); [lia|done].
    - by apply quietly_item. }
  destruct (IH vs' (S index) w2 jb1)
    as (w' & jb' & Hloop & Hq' & Hj' & Hf' & Hd' & Htot' & Hc' & Hseen' & Hres').
  - eapply Forall2_impl; [exact Hall|]. intros n' v'. by apply (P_kept j).
  - unfold w2. cbn [jobs set_job log]. apply list_lookup_insert_eq.
    by apply lookup_lt_Some in Hj1.
  - done.
  - intros x [->|Hx]%elem_of_cons; [lia|]. apply Hseen in Hx. lia.
  - lia.
  - unfold jb1. cbn [completed total]. lia.
  - exists w', jb'.
    split; [done|]. split; [by apply (quietly_trans _ _ w2)|].
    split; [done|]. split; [done|]. split; [done|]. split; [done|].
    split; [rewrite Hc'; unfold jb1; cbn [completed length]; lia|].
    split; [intros x Hx; apply Hseen' in Hx; cbn [length]; lia|].
    intros Hlen. rewrite Hres'.
    + unfold jb1. cbn [results]. rewrite <- Hlen, arr_set_end. by rewrite <- app_assoc.
    + unfold jb1. cbn [results]. rewrite <- Hlen, arr_set_end, length_app. simpl. lia.
Qed.

(** A list of such names resolves by calling the callback with the
    array of their values, in the order of the names, before [resolve]
    returns and from a world reached quietly. *)
Lemma resolve_list_then fuel names vs k w :
  Forall2 (P (container w)) names vs ->
  exists n w1,
    1 + fuel <= n /\ quietly (length (jobs w)) w w1 /\
    resolve (S (F + S fuel)) (Many names) k w = invoke n k VNull (VArr vs) w1.
Proof.
  intros Hall. unfold resolve. rewrite exec_resolve. cbn [resolve_].
  induction names as [|name init _] using rev_ind.
  - apply Forall2_nil_inv_l in Hall as ->. rewrite async_map_nil.
    eexists (F + S fuel), _. split; [lia|]. split; [|reflexivity].
    apply (quietly_events _ _ _ []); try done; [by rewrite app_nil_r|].
    intros j jb Hlt Hj. cbn [jobs set_job add_job].
    rewrite list_lookup_insert_ne by lia. by apply lookup_app_l_Some.
  - apply Forall2_app_inv_l in Hall as (vs1 & vs2 & Hinit & Hlast & ->).
    apply Forall2_cons_inv_l in Hlast as (v & vs3 & Hv & Hnil & ->).
    apply Forall2_nil_inv_l in Hnil as ->.
    rewrite async_map_loop by (by destruct init).
    set (jb := mkJob [] 0 (length (init ++ [name])) false [] k).
    set (j := length (jobs w)).
    assert (Hq0 : quietly j w (add_job jb w)) by apply quietly_new_job.
    rewrite map_loop_app.
    destruct (map_loop_open fuel j (length init) init vs1 0 (add_job jb w) jb)
      as (w' & jb' & Hloop & Hq' & Hj' & Hf' & Hd' & Htot' & Hc' & Hseen' & Hres'); try done.
    { unfold j. cbn [jobs add_job]. rewrite lookup_app_r by done. by rewrite Nat.sub_diag. }
    { intros x Hx. by apply elem_of_nil in Hx. }
    { right. simpl. lia. }
    { unfold jb. cbn [completed total]. rewrite length_app. simpl. lia. }
    rewrite Hloop. cbn [map_loop]. rewrite outcome_eta.
    assert (Hq : quietly j w w') by (by apply (quietly_trans _ _ (add_job jb w))).
    assert (Hlt : j < length (jobs w')) by (by apply lookup_lt_Some in Hj').
    destruct (P_step (S fuel) name v (KMapItem j (0 + length init)) w')
      as (n & w1 & Hn & Hq1 & Hres1).
    { by apply (P_kept j w). }
    change (exec (F + S fuel) (Resolve (One name) (KMapItem j (0 + length init))) w')
      with (resolve (F + S fuel) (One name) (KMapItem j (0 + length init)) w').
    rewrite Hres1. destruct n as [|n]; [lia|].
    pose proof (quietly_job _ _ _ _ _ Hq1 Hlt Hj') as Hj1.
    rewrite (invoke_item_last n j (0 + length init) v w1 jb' Hj1); [| | |done].
    2:{ intros Hin. apply Hseen' in Hin. lia. }
    2:{ rewrite Hc', Htot'. unfold jb. cbn [completed total]. rewrite length_app. simpl. lia. }
    assert (Hvs : arr_set (0 + length init) v (results jb') = vs1 ++ [v]).
    { rewrite Hres' by done. unfold jb. cbn [results app].
      apply Forall2_length in Hinit. simpl. rewrite Hinit. apply arr_set_end. }
    rewrite Hvs, Hd'. unfold jb at 2. cbn [done_cb].
    eexists n, _. split; [lia|]. split; [|reflexivity].
    apply (quietly_trans _ _ w'); [done|].
    apply (quietly_trans _ _ w1).
    + apply (quietly_weaken (length (jobs w'))); [lia|done].
    + by apply quietly_item.
Qed.

End Dependencies.

Lemma resolve_settled_list_then fuel names vs k w :
  Forall2 (settled (container w)) names vs ->
  exists n w1,
    1 + fuel <= n /\ quietly (length (jobs w)) w w1 /\
    resolve (5 + fuel) (Many names) k w = invoke n k VNull (VArr vs) w1.
Proof.
  apply (resolve_list_then 3 settled).
  - intros b w0 w1 name v. apply quietly_settled.
  - intros fuel' name v k' w0. apply resolve_settled_step.
Qed.

Lemma resolve_interface fuel name impls callback w :
  _registry (container w) !! name = None ->
  _interfaces (container w) !! name = Some impls ->
  impls <> [] ->
  resolve fuel (One name) callback w = resolve fuel (Many impls) callback w.
Proof.
  intros Hr Hi Hne. destruct fuel as [|fuel]; [done|].
  unfold resolve. rewrite !exec_resolve. cbn [resolve_]. rewrite Hr, Hi.
  by destruct impls.
Qed.

(** Resolving a provided name calls the callback with its value: the
    instance, or the array of the instances of the implementations. *)
Lemma resolve_provided_step fuel name v k w :
  provided (container w) name v ->
  exists n w1,
    1 + fuel <= n /\ quietly (length (jobs w)) w w1 /\
    resolve (5 + fuel) (One name) k w = invoke n k VNull v w1.
Proof.
  intros [Hs|(impls & vs & Hr & Hi & Hne & Hall & ->)].
  - destruct (resolve_settled_step (2 + fuel) name v k w Hs) as (n & w1 & Hn & Hq & Hres).
    exists n, w1. split; [lia|]. by split.
  - rewrite (resolve_interface _ _ _ _ _ Hr Hi Hne).
    by apply resolve_settled_list_then.
Qed.

Lemma map_loop_provided_open fuel j hole names :
  forall vs index w jb,
  Forall2 (provided (container w)) names vs ->
  jobs w !! j = Some jb ->
  fired jb = false ->
  (forall x, x ∈ seen jb -> x < index /\ x <> hole) ->
  hole < index \/ index + length names <= hole ->
  completed jb + length names < total jb ->
  exists w' jb',
    map_loop (exec (6 + fuel)) j names index w = Normal w' /\
    quietly j w w' /\
    jobs w' !! j = Some jb' /\
    fired jb' = false /\ done_cb jb' = done_cb jb /\ total jb' = total jb /\
    completed jb' = completed jb + length names /\
    (forall x, x ∈ seen jb' -> x < index + length names /\ x <> hole) /\
    (length (results jb) = index -> results jb' = results jb ++ vs).
Proof.
  apply (map_loop_open 5 provided).
  - intros b w0 w1 name v. apply quietly_provided.
  - intros fuel' name v k' w0. apply resolve_provided_step.
Qed.

Lemma resolve_provided_list_then fuel names vs k w :
  Forall2 (provided (container w)) names vs ->
  exists n w1,
    1 + fuel <= n /\ quietly (length (jobs w)) w w1 /\
    resolve (7 + fuel) (Many names) k w = invoke n k VNull (VArr vs) w1.
Proof.
  apply (resolve_list_then 5 provided).
  - intros b w0 w1 name v. apply quietly_provided.
  - intros fuel' name v k' w0. apply resolve_provided_step.
Qed.

(** ** [call], [callSync] and [callCtor] *)

Lemma getDependenciesNames_but_last f names cb :
  require f = None -> params f = names ++ [cb] -> getDependenciesNames f true = names.
Proof.
  intros Hreq Hpar. unfold getDependenciesNames, slice_0_m1, getParNames.
  rewrite Hreq, Hpar, length_app. simpl.
  replace (length names + 1 - 1) with (length names) by lia.
  by rewrite take_app_length.
Qed.

Lemma getDependenciesNames_all f : require f = None -> getDependenciesNames f false = params f.
Proof. intros Hreq. unfold getDependenciesNames, getParNames. by rewrite Hreq. Qed.

Lemma behave_quietly b f args w w1 :
  quietly b w w1 -> behave f args w1 = body f args (calls_of (fid f) (trace w)).
Proof.
  intros (extra & Ht & _ & _ & Hcalls)%quietly_trace. unfold behave.
  rewrite Ht, calls_of_app, Hcalls. by rewrite Nat.add_0_r.
Qed.

Lemma run_factory_injecting rec i f callback w :
  run_factory rec (injecting i f) callback w =
  rec (Resolve (Many (injected i f)) (injector i f callback)) w.
Proof. by destruct i. Qed.

Lemma injecting_not_instance i f v : injecting i f <> Instance v.
Proof. by destruct i. Qed.

(** On a sample container: the name is a registered instance, and
    nothing is cached under it. *)
Ltac by_instance :=
  left; eexists; split;
  [vm_compute; reflexivity|right; intros ?; vm_compute; discriminate].

(** The function [call], [callSync] or [callCtor] gave to [resolve],
    called without error. *)
Lemma invoke_injector rec i f k err vs w :
  truthy err = false ->
  invoke_ rec (injector i f k) err (VArr vs) w =
  supply rec i f vs k (log (EInvoke (injector i f k) err (VArr vs)) w).
Proof. intros Herr. destruct i; cbn [injector supply]; unfold invoke_; by rewrite Herr. Qed.

Lemma internal_injector i f k err v : internal (EInvoke (injector i f k) err v).
Proof. by destruct i. Qed.

(** The names an injection asks for being provided, the factory is
    applied to their values before [resolve] returns, in a world [w1]
    reached quietly. *)
Lemma injection_provided fuel i f vs k w :
  Forall2 (provided (container w)) (injected i f) vs ->
  exists n w1,
    fuel <= n /\ quietly (length (jobs w)) w w1 /\
    resolve (7 + fuel) (Many (injected i f)) (injector i f k) w = supply (exec n) i f vs k w1.
Proof.
  intros Hall.
  destruct (resolve_provided_list_then fuel (injected i f) vs (injector i f k) w Hall)
    as (n & w0 & Hn & Hq & Hres).
  destruct n as [|n]; [lia|].
  exists n, (log (EInvoke (injector i f k) VNull (VArr vs)) w0).
  split; [lia|]. split.
  { apply (quietly_trans _ _ w0); [done|].
    apply (quietly_events _ _ _ [EInvoke (injector i f k) VNull (VArr vs)]); try done.
    constructor; [apply internal_injector|constructor]. }
  rewrite Hres. unfold invoke. by rewrite exec_invoke, invoke_injector.
Qed.

(** X11. [container.call(f, callback)] resolves the names of all the
    parameters of [f] but the last and applies [f] once, to their values in
    the order of the parameters, with [callback] itself in last position.
    When each of these names is a registered instance, or an interface
    implemented by registered instances, [f] is applied before [call]
    returns, nothing but the container's own callbacks runs before it,
    and what [f] does with its callback reaches the client's callback as
    it is (here, error and value are not looked at); when [f] asks the
    container to resolve names, the function it passes is what [resolve]
    gets for callback. *)
Theorem call_supplies_parameters_but_last
    (fuel : nat) (f : jsfun) (names : list string) (cb : string) (vs : list value)
    (id : nat) (w : World) :
  require f = None ->
  params f = names ++ [cb] ->
  Forall2 (provided (container w)) names vs ->
  exists n w1,
    fuel <= n /\
    pending w1 = pending w /\
    _registry (container w1) = _registry (container w) /\
    _interfaces (container w1) = _interfaces (container w) /\
    (forall id', deliveries id' (drop (length (trace w)) (trace w1)) = []) /\
    (forall g, invocations g (drop (length (trace w)) (trace w1)) = []) /\
    call (exec (8 + fuel)) f (KTop id) w =
      match body f vs (calls_of (fid f) (trace w)) with
      | Returns _ => Normal (log (ECall (fid f) vs) w1)
      | Throws e => Thrown e (log (ECall (fid f) vs) w1)
      | CallsBack err v =>
          Normal (log (EInvoke (KTop id) err v) (log (ECall (fid f) vs) w1))
      | CallsBackLater err v =>
          Normal (defer (Deferred (KTop id) err v) (log (ECall (fid f) vs) w1))
      | Resolves name next =>
          resolve n name (KUser next (KTop id)) (log (ECall (fid f) vs) w1)
      end.
Proof.
  intros Hreq Hpar Hall. unfold call.
  pose proof (getDependenciesNames_but_last f names cb Hreq Hpar) as Hdeps.
  rewrite Hdeps.
  destruct (injection_provided (1 + fuel) InjectCall f vs (KTop id) w)
    as (n & w1 & Hn & Hq & Hres).
  { cbn [injected]. by rewrite Hdeps. }
  cbn [injected injector supply] in Hres. rewrite Hdeps in Hres.
  change (exec (8 + fuel) (Resolve (Many names) (KCall f (KTop id))) w)
    with (resolve (7 + (1 + fuel)) (Many names) (KCall f (KTop id)) w).
  rewrite Hres. destruct n as [|n]; [lia|].
  destruct (quietly_trace _ _ _ Hq) as (extra & Ht & Hdel & Hcalls & _).
  exists (S n), w1. split; [lia|]. split; [by apply (quietly_pending _ _ _ Hq)|].
  split; [by apply (quietly_registry _ _ _ Hq)|].
  split; [by apply (quietly_interfaces _ _ _ Hq)|].
  split; [intros id'; by rewrite Ht, drop_app_length|].
  split; [intros g; by rewrite Ht, drop_app_length|].
  unfold apply_fn. rewrite (behave_quietly _ _ _ _ _ Hq).
  by destruct (body f vs (calls_of (fid f) (trace w))).
Qed.

Lemma call_supplies_parameters_but_last_witness :
  exists w1,
    pending w1 = [] /\
    (forall id', deliveries id' (trace w1) = []) /\
    (forall g, invocations g (trace w1) = []) /\
    call (exec 8) serviceC (KTop 0) (new_World with_services_A_B) =
      Normal (log (EInvoke (KTop 0) VNull (VArr [VObj 1; VObj 2]))
                (log (ECall 10 [VObj 1; VObj 2]) w1)).
Proof.
  destruct (call_supplies_parameters_but_last 0 serviceC ["serviceA"; "serviceB"] "callback"
              [VObj 1; VObj 2] 0 (new_World with_services_A_B))
    as (n & w1 & _ & Hp & _ & _ & Hdel & Hcalls & Hcall).
  - reflexivity.
  - reflexivity.
  - constructor; [by_instance|constructor; [by_instance|constructor]].
  - exists w1. split; [exact Hp|]. split; [exact Hdel|]. split; [exact Hcalls|exact Hcall].
Defined.

(** The test of the repository: [serviceC] gets the two instances. *)
Example call_injects_services :
  exists w',
    call (exec 6) serviceC (KTop 0) (new_World with_services_A_B) = Normal w' /\
    invocations 10 (trace w') = [[VObj 1; VObj 2]] /\
    deliveries 0 (trace w') = [(VNull, VArr [VObj 1; VObj 2])].
Proof. eexists. split; [vm_compute; reflexivity|]. split; reflexivity. Qed.

(** X12. [container.callSync(f, callback)] and
    [container.callCtor(f, callback)] resolve the names of all the
    parameters of [f] and, these names being registered instances or
    interfaces implemented by registered instances, hand over before they
    return.  [callSync] applies [f] once to the values, in the order of
    the parameters, and when [f] returns the client's callback gets
    [null] and what [f] returned.  [callCtor] does the same with [new]
    when [f] is a constructor, and the callback gets the object [new]
    evaluates to: the object [f] returned, or else the new instance of
    [f]; when [f] is not a constructor (an arrow function), [new] raises
    a [TypeError] out of [callCtor], [f] is not applied and the callback
    is not called.  The value is handed over and not cached, the cache
    changing at names of registered instances only. *)
Theorem callSync_and_callCtor_deliver_the_result
    (fuel : nat) (f : jsfun) (vs : list value) (id : nat) (w : World) :
  require f = None ->
  Forall2 (provided (container w)) (params f) vs ->
  let n := calls_of (fid f) (trace w) in
  let handed inject v :=
    exists w',
      inject (exec (8 + fuel)) f (KTop id) w = Normal w' /\
      pending w' = pending w /\
      _registry (container w') = _registry (container w) /\
      _interfaces (container w') = _interfaces (container w) /\
      (forall other, ~ instance_name (container w) other ->
         _instances (container w') !! other = _instances (container w) !! other) /\
      invocations (fid f) (drop (length (trace w)) (trace w')) = [vs] /\
      deliveries id (drop (length (trace w)) (trace w')) = [(VNull, v)] in
  (forall r, body f vs n = Returns r ->
     handed callSync r /\
     (is_constructor f = true ->
      handed callCtor (if is_object r then r else VNew (fid f) n))) /\
  (is_constructor f = false ->
   exists w',
     callCtor (exec (8 + fuel)) f (KTop id) w = Thrown not_a_constructor w' /\
     pending w' = pending w /\
     invocations (fid f) (drop (length (trace w)) (trace w')) = [] /\
     deliveries id (drop (length (trace w)) (trace w')) = []).
Proof.
  intros Hreq Hall n handed.
  assert (Hstart : forall i, i = InjectSync \/ i = InjectCtor ->
    exists m w1,
      fuel <= m /\ quietly (length (jobs w)) w w1 /\
      resolve (7 + (1 + fuel)) (Many (params f)) (injector i f (KTop id)) w =
        supply (exec (S m)) i f vs (KTop id) w1).
  { intros i Hi.
    assert (Hdeps : injected i f = params f).
    { destruct Hi as [-> | ->]; apply (getDependenciesNames_all f Hreq). }
    destruct (injection_provided (1 + fuel) i f vs (KTop id) w)
      as (m & w1 & Hm & Hq & Hres); [by rewrite Hdeps|].
    rewrite Hdeps in Hres. destruct m as [|m]; [lia|].
    exists m, w1. split; [lia|]. by split. }
  assert (Hgoal : forall i v, i = InjectSync \/ i = InjectCtor ->
    (forall m w1, behave f vs w1 = body f vs n -> calls_of (fid f) (trace w1) = n ->
       supply (exec (S m)) i f vs (KTop id) w1 =
       Normal (log (EInvoke (KTop id) VNull v) (log (ECall (fid f) vs) w1))) ->
    exists w',
      resolve (7 + (1 + fuel)) (Many (params f)) (injector i f (KTop id)) w = Normal w' /\
      pending w' = pending w /\
      _registry (container w') = _registry (container w) /\
      _interfaces (container w') = _interfaces (container w) /\
      (forall other, ~ instance_name (container w) other ->
         _instances (container w') !! other = _instances (container w) !! other) /\
      invocations (fid f) (drop (length (trace w)) (trace w')) = [vs] /\
      deliveries id (drop (length (trace w)) (trace w')) = [(VNull, v)]).
  { intros i v Hi Hsupply.
    destruct (Hstart i Hi) as (m & w1 & Hm & Hq & Hres).
    destruct (quietly_trace _ _ _ Hq) as (extra & Ht & Hdel & Hcalls & Hcount).
    exists (log (EInvoke (KTop id) VNull v) (log (ECall (fid f) vs) w1)).
    split.
    { rewrite Hres. apply Hsupply; [by apply (behave_quietly _ _ _ _ _ Hq)|].
      by rewrite Ht, calls_of_app, Hcount, Nat.add_0_r. }
    destruct Hq as (Hp & _ & _ & Hreg & Hifs & Hcache & _).
    cbn [pending container trace log].
    split; [done|]. split; [done|]. split; [done|]. split; [done|].
    rewrite Ht, <- !app_assoc, drop_app_length.
    split.
    - rewrite !invocations_app, Hcalls. simpl. by rewrite Nat.eqb_refl.
    - rewrite !deliveries_app, Hdel. simpl. by rewrite Nat.eqb_refl. }
  split.
  - intros r Hbody. split.
    + unfold handed, callSync. rewrite (getDependenciesNames_all f Hreq).
      apply (Hgoal InjectSync r); [by left|].
      intros m w1 Hb _. cbn [supply]. unfold apply_sync.
      rewrite Hbody in Hb. rewrite (apply_fn_returns _ _ _ _ _ r Hb), Hb. cbn [returned].
      by rewrite exec_invoke, invoke_KTop.
    + intros Hctor. unfold handed, callCtor. rewrite (getDependenciesNames_all f Hreq).
      apply (Hgoal InjectCtor); [by right|].
      intros m w1 Hb Hn. cbn [supply]. unfold apply_new. rewrite Hctor.
      rewrite Hbody in Hb. rewrite (apply_fn_returns _ _ _ _ _ r Hb), Hb, Hn.
      unfold constructed. cbn [returned]. by rewrite exec_invoke, invoke_KTop.
  - intros Hctor. unfold callCtor. rewrite (getDependenciesNames_all f Hreq).
    destruct (Hstart InjectCtor) as (m & w1 & Hm & Hq & Hres); [by right|].
    change (exec (8 + fuel) (Resolve ?t ?k) w) with (resolve (7 + (1 + fuel)) t k w).
    cbn [injector] in Hres. rewrite Hres. cbn [supply]. unfold apply_new. rewrite Hctor.
    destruct (quietly_trace _ _ _ Hq) as (extra & Ht & Hdel & Hcalls & _).
    exists w1. split; [done|]. split; [by apply (quietly_pending _ _ _ Hq)|].
    by rewrite Ht, drop_app_length.
Qed.

Lemma callSync_and_callCtor_deliver_the_result_witness :
  (exists w',
     callSync (exec 8) depends_on_two (KTop 0) (new_World with_services_A_B) = Normal w' /\
     invocations 11 (trace w') = [[VObj 1; VObj 2]] /\
     deliveries 0 (trace w') = [(VNull, VArr [VObj 1; VObj 2])]) /\
  (exists w',
     callCtor (exec 8) depends_on_two (KTop 0) (new_World with_services_A_B)
       = Thrown (VError "Factory is not a constructor") w' /\
     invocations 11 (trace w') = [] /\
     deliveries 0 (trace w') = []).
Proof.
  destruct (callSync_and_callCtor_deliver_the_result 0 depends_on_two [VObj 1; VObj 2]
              0 (new_World with_services_A_B)) as [Hreturns Harrow].
  - reflexivity.
  - constructor; [by_instance|constructor; [by_instance|constructor]].
  - split.
    + destruct (Hreturns (VArr [VObj 1; VObj 2]) eq_refl)
        as [(w' & Hcall & _ & _ & _ & _ & Hcalls & Hdel) _].
      exists w'. split; [exact Hcall|]. split; [exact Hcalls|exact Hdel].
    + destruct (Harrow eq_refl) as (w' & Hcall & _ & Hcalls & Hdel).
      exists w'. split; [exact Hcall|]. split; [exact Hcalls|exact Hdel].
Defined.

(** The constructor of the README under [callCtor]: it returns nothing,
    and the client gets the new instance; [Boxed] returns an array, and
    the client gets that array. *)
Example callCtor_hands_over_the_constructed_object :
  (exists w',
     callCtor (exec 8) CoffeeMaker (KTop 0) (new_World (brewing_with CoffeeMaker))
       = Normal w' /\
     invocations 17 (trace w') = [[VObj 1; VObj 2]] /\
     deliveries 0 (trace w') = [(VNull, VNew 17 0)]) /\
  (exists w',
     callCtor (exec 8) Boxed (KTop 0) (new_World (brewing_with Boxed)) = Normal w' /\
     deliveries 0 (trace w') = [(VNull, VArr [VObj 1; VObj 2])]).
Proof.
  split; eexists; (split; [vm_compute; reflexivity|]); [split|]; reflexivity.
Qed.

(** ** A dependency that is not registered *)

Lemma resolve_unknown fuel name callback w :
  _registry (container w) !! name = None ->
  _interfaces (container w) !! name = None ->
  exec (S fuel) (Resolve (One name) callback) w =
  Normal (defer (Deferred callback (unknown_service name) VUndefined) w).
Proof. intros Hr Hi. rewrite exec_resolve. cbn [resolve_]. by rewrite Hr, Hi. Qed.

Lemma invoke_injector_error fuel i f callback err v w :
  truthy err = true ->
  invoke (S fuel) (injector i f callback) err v w =
  invoke fuel callback err VUndefined (log (EInvoke (injector i f callback) err v) w).
Proof.
  intros Herr. unfold invoke. rewrite exec_invoke.
  destruct i; cbn [injector]; unfold invoke_; by rewrite Herr.
Qed.

(** X13. A service registered with [register] (two parameters or
    more), [registerSync] or [registerCtor] one of whose dependencies is
    neither a service nor an interface, the others being registered
    instances or interfaces implemented by registered instances, fails
    with the error that names the missing dependency: [resolve] returns
    with the failure pending and nothing delivered, and the turn of the
    event loop that runs it hands the error to the client's callback,
    once; the factory is never applied and nothing is cached under the
    name of the service. *)
Theorem missing_dependency_fails_the_service
    (fuel : nat) (i : injection) (f : jsfun) (name : string) (cfg : Config)
    (before after : list string) (missing : string) (before_vs after_vs : list value)
    (id : nat) (w : World) :
  _registry (container w) !! name = Some {| factory := injecting i f; config := cfg |} ->
  cache_unused name cfg (container w) ->
  injected i f = before ++ missing :: after ->
  Forall2 (provided (container w)) before before_vs ->
  Forall2 (provided (container w)) after after_vs ->
  _registry (container w) !! missing = None ->
  _interfaces (container w) !! missing = None ->
  let failure := VError ("unknown service or interface " +:+ missing) in
  exists w1 item,
    resolve (8 + fuel) (One name) (KTop id) w = Normal w1 /\
    pending w1 = pending w ++ [Deferred item failure VUndefined] /\
    deliveries id (drop (length (trace w)) (trace w1)) = [] /\
    invocations (fid f) (drop (length (trace w)) (trace w1)) = [] /\
    exists w2,
      run (4 + fuel) [length (pending w)] w1 = Normal w2 /\
      pending w2 = pending w /\
      deliveries id (drop (length (trace w1)) (trace w2)) = [(failure, VUndefined)] /\
      invocations (fid f) (drop (length (trace w)) (trace w2)) = [] /\
      _instances (container w2) !! name = _instances (container w) !! name.
Proof.
  intros Hr Hc Hdeps Hbefore Hafter Hmr Hmi failure.
  (* the loop over the dependencies *)
  change (8 + fuel) with (S (S (6 + fuel))).
  rewrite (resolve_cache_unused _ _ _ _ _ Hr Hc). cbn [factory config].
  rewrite run_factory_injecting, Hdeps, exec_resolve. cbn [resolve_].
  rewrite async_map_loop by (by destruct before).
  set (K := KStore name (singleton cfg) (KTop id)).
  set (j := length (jobs w)).
  set (jb0 := mkJob [] 0 (length (before ++ missing :: after)) false [] (injector i f K)).
  set (h := length before).
  rewrite map_loop_app.
  destruct (map_loop_provided_open fuel j h before before_vs 0 (add_job jb0 w) jb0)
    as (wa & jba & Hloopa & Hqa & Hja & Hfa & Hda & Htota & Hca & Hseena & _); try done.
  { unfold j. cbn [jobs add_job]. rewrite lookup_app_r by done. by rewrite Nat.sub_diag. }
  { intros x Hx. by apply elem_of_nil in Hx. }
  { right. unfold h. lia. }
  { unfold jb0. cbn [completed total]. rewrite length_app. simpl. lia. }
  assert (Hqa' : quietly j w wa).
  { apply (quietly_trans _ _ (add_job jb0 w)); [apply quietly_new_job|done]. }
  rewrite Hloopa. cbn [map_loop]. fold h. change (0 + h) with h.
  change (6 + fuel) with (S (5 + fuel)) at 1.
  rewrite resolve_unknown
    by (by rewrite ?(quietly_registry _ _ _ Hqa'), ?(quietly_interfaces _ _ _ Hqa')).
  set (wm := defer (Deferred (KMapItem j h) (unknown_service missing) VUndefined) wa).
  destruct (map_loop_provided_open fuel j h after after_vs (S h) wm jba)
    as (w1 & jb1 & Hloopb & Hqb & Hj1 & Hf1 & Hd1 & Htot1 & Hc1 & Hseen1 & _); try done.
  { eapply Forall2_impl; [exact Hafter|]. intros n' v' Hs.
    by apply (quietly_provided j w wa). }
  { intros x Hx. apply Hseena in Hx. lia. }
  { left. lia. }
  { rewrite Hca, Htota. unfold jb0. cbn [completed total]. rewrite length_app. simpl. lia. }
  change (S (5 + fuel)) with (6 + fuel). rewrite Hloopb.
  destruct (quietly_trace _ _ _ Hqa') as (ea & Hta & Hdela & Hcallsa & _).
  destruct (quietly_trace _ _ _ Hqb) as (eb & Htb & Hdelb & Hcallsb & _).
  assert (Hp : pending w1 = pending w ++ [Deferred (KMapItem j h) failure VUndefined]).
  { rewrite (quietly_pending _ _ _ Hqb). unfold wm. cbn [pending defer].
    by rewrite (quietly_pending _ _ _ Hqa'). }
  assert (Htr : trace w1 = trace w ++ (ea ++ eb)).
  { rewrite Htb. unfold wm. cbn [trace defer]. rewrite Hta. by rewrite <- app_assoc. }
  assert (Hcache : _instances (container w1) !! name = _instances (container w) !! name).
  { rewrite (quietly_cache _ _ _ name (injecting i f) cfg Hqb).
    - unfold wm. cbn [container defer].
      by apply (quietly_cache _ _ _ name (injecting i f) cfg Hqa');
        [|apply injecting_not_instance].
    - unfold wm. cbn [container defer]. by rewrite (quietly_registry _ _ _ Hqa').
    - apply injecting_not_instance. }
  exists w1, (KMapItem j h). split; [done|]. split; [done|].
  split; [by rewrite Htr, drop_app_length, deliveries_app, Hdela, Hdelb|].
  split; [by rewrite Htr, drop_app_length, invocations_app, Hcallsa, Hcallsb|].
  (* the turn of the event loop that runs the failure *)
  cbn [run]. rewrite Hp, (list_lookup_middle _ _ _ (length (pending w))) by done.
  change (4 + fuel) with (S (S (S (S fuel)))).
  rewrite (invoke_item_error _ j h _ _ _ jb1); [|done| |done|done].
  2:{ intros Hin. apply Hseen1 in Hin. lia. }
  rewrite Hd1, Hda. unfold jb0 at 1. cbn [done_cb].
  rewrite invoke_injector_error by done.
  unfold K at 1. unfold invoke. rewrite exec_invoke, invoke_KStore_error by done.
  rewrite exec_invoke, invoke_KTop. fold K.
  eexists. split; [reflexivity|].
  cbn [pending trace container log set_job drop_task].
  split; [rewrite Hp, (delete_middle _ []); apply app_nil_r|].
  split.
  { rewrite <- !app_assoc, drop_app_length.
    destruct i; unfold K; simpl; by rewrite Nat.eqb_refl. }
  split; [|done].
  rewrite Htr, <- !app_assoc, drop_app_length.
  rewrite !invocations_app, Hcallsa, Hcallsb. by destruct i.
Qed.

Lemma missing_dependency_fails_the_service_witness :
  exists w1 item,
    resolve 8 (One "svc") (KTop 0)
      (registered (ByRegisterSync (Fn needs_ghost)) "svc" with_services_A_B) = Normal w1 /\
    pending w1 = [Deferred item (VError "unknown service or interface ghost") VUndefined] /\
    deliveries 0 (trace w1) = [] /\
    invocations 13 (trace w1) = [] /\
    exists w2,
      run 4 [0] w1 = Normal w2 /\
      pending w2 = [] /\
      deliveries 0 (drop (length (trace w1)) (trace w2))
        = [(VError "unknown service or interface ghost", VUndefined)] /\
      invocations 13 (trace w2) = [] /\
      _instances (container w2) !! "svc" = None.
Proof.
  apply (missing_dependency_fails_the_service 0 InjectSync needs_ghost "svc"
           default_register_options ["serviceA"] ["serviceB"] "ghost" [VObj 1] [VObj 2] 0
           (registered (ByRegisterSync (Fn needs_ghost)) "svc" with_services_A_B)).
  - vm_compute. reflexivity.
  - right. left. vm_compute. reflexivity.
  - reflexivity.
  - constructor; [by_instance|constructor].
  - constructor; [by_instance|constructor].
  - vm_compute. reflexivity.
  - vm_compute. reflexivity.
Defined.

(** ** Services with dependencies *)

(** X14. A service whose dependencies are registered instances, or
    interfaces implemented by registered instances, resolves to what its
    factory makes of them.  Registered with [register] (two parameters or
    more), [registerSync] or [registerCtor] and not answered from the
    cache, it has its factory applied once, to the values of its
    dependencies in their order (the instance for a service, the array of
    the implementations' instances for an interface); the value the
    factory reports ([produces]: through its callback under [register],
    by returning it under [registerSync]; under [registerCtor], for a
    constructor, it is the object [new] evaluates to, which is the object
    the constructor returned or else the new instance) is handed to the
    client's callback with a [null] error, before [resolve] returns, and
    it is cached under the name of the service when the registration is a
    singleton. *)
Theorem service_with_provided_dependencies_resolves
    (fuel : nat) (i : injection) (f : jsfun) (name : string) (cfg : Config)
    (vs : list value) (v : value) (id : nat) (w : World) :
  _registry (container w) !! name = Some {| factory := injecting i f; config := cfg |} ->
  cache_unused name cfg (container w) ->
  Forall2 (provided (container w)) (injected i f) vs ->
  produces i f vs (calls_of (fid f) (trace w)) v ->
  exists w',
    resolve (10 + fuel) (One name) (KTop id) w = Normal w' /\
    pending w' = pending w /\
    invocations (fid f) (drop (length (trace w)) (trace w')) = [vs] /\
    deliveries id (drop (length (trace w)) (trace w')) = [(VNull, v)] /\
    _registry (container w') = _registry (container w) /\
    _interfaces (container w') = _interfaces (container w) /\
    _instances (container w') !! name =
      (if truthy (singleton cfg) then Some v else _instances (container w) !! name).
Proof.
  intros Hr Hc Hall Hprod.
  set (K := KStore name (singleton cfg) (KTop id)).
  destruct (injection_provided (2 + fuel) i f vs K w Hall) as (n & w1 & Hn & Hq & Hres).
  destruct n as [|[|n]]; [lia..|].
  pose proof (behave_quietly _ f vs _ _ Hq) as Hb.
  pose proof (quietly_cache _ _ _ name (injecting i f) cfg Hq Hr
                (injecting_not_instance i f)) as Hname.
  destruct (quietly_trace _ _ _ Hq) as (extra & Ht & Hdel & Hcalls & Hcount).
  assert (Hn1 : calls_of (fid f) (trace w1) = calls_of (fid f) (trace w)).
  { by rewrite Ht, calls_of_app, Hcount, Nat.add_0_r. }
  assert (Hstore : forall err w2,
    truthy err = false ->
    exec (S (S n)) (Invoke K err v) w2 =
    Normal (log (EInvoke (KTop id) VNull v)
              (let w3 := log (EInvoke K err v) w2 in
               if truthy (singleton cfg) then set_instance name v w3 else w3))).
  { intros err w2 Herr. unfold K. rewrite exec_invoke, invoke_KStore by done.
    by rewrite exec_invoke, invoke_KTop. }
  assert (Happlied : exists err,
    truthy err = false /\
    supply (exec (S (S n))) i f vs K w1 =
    exec (S (S n)) (Invoke K err v) (log (ECall (fid f) vs) w1)).
  { unfold produces in Hprod.
    destruct i, (body f vs (calls_of (fid f) (trace w))) as [r|e|err v'|err v'|t next] eqn:E;
      try done; cbn [supply]; unfold apply_sync, apply_new, apply_fn;
      rewrite ?Hb, ?Hn1, ?E; cbn [run_body returned].
    - destruct Hprod as [Herr ->]. by exists err.
    - subst r. by exists VNull.
    - destruct Hprod as [-> <-]. by exists VNull. }
  destruct Happlied as (err & Herr & Happlied).
  eexists. split.
  { change (10 + fuel) with (S (7 + (2 + fuel))).
    rewrite (resolve_cache_unused _ _ _ _ _ Hr Hc). cbn [factory config].
    rewrite run_factory_injecting. fold K.
    change (exec (7 + (2 + fuel)) (Resolve (Many (injected i f)) (injector i f K)) w)
      with (resolve (7 + (2 + fuel)) (Many (injected i f)) (injector i f K) w).
    rewrite Hres, Happlied, (Hstore _ _ Herr). reflexivity. }
  cbn zeta.
  destruct Hq as (Hp & _ & _ & Hreg & Hifs & _).
  destruct (truthy (singleton cfg));
    cbn [pending trace container log set_instance _registry _interfaces _instances];
    (split; [done|]);
    rewrite Ht, <- !app_assoc, drop_app_length;
    rewrite !invocations_app, !deliveries_app, Hcalls, Hdel;
    unfold K; simpl; rewrite !Nat.eqb_refl;
    repeat (split; [done|]); [by rewrite lookup_insert_eq|done].
Qed.

Lemma service_with_provided_dependencies_resolves_witness :
  (exists w',
     resolve 10 (One "logger") (KTop 0) (new_World logging) = Normal w' /\
     pending w' = [] /\
     invocations 16 (trace w') = [[VObj 1; VArr [VObj 2; VObj 3]]] /\
     deliveries 0 (trace w') = [(VNull, VArr [VObj 1; VArr [VObj 2; VObj 3]])] /\
     _instances (container w') !! "logger" = Some (VArr [VObj 1; VArr [VObj 2; VObj 3]])) /\
  (exists w',
     resolve 10 (One "coffee_maker") (KTop 0) (new_World (brewing_with CoffeeMaker))
       = Normal w' /\
     invocations 17 (trace w') = [[VObj 1; VObj 2]] /\
     deliveries 0 (trace w') = [(VNull, VNew 17 0)] /\
     _instances (container w') !! "coffee_maker" = Some (VNew 17 0)).
Proof.
  split.
  - destruct (service_with_provided_dependencies_resolves 0 InjectSync logger
                "logger" default_register_options [VObj 1; VArr [VObj 2; VObj 3]]
                (VArr [VObj 1; VArr [VObj 2; VObj 3]]) 0 (new_World logging))
      as (w' & Hres & Hp & Hcalls & Hdel & _ & _ & Hinst).
    + vm_compute. reflexivity.
    + right. left. vm_compute. reflexivity.
    + constructor; [by_instance|constructor; [|constructor]].
      right. exists ["file_stream"; "stdout_stream"], [VObj 2; VObj 3].
      split; [vm_compute; reflexivity|]. split; [vm_compute; reflexivity|].
      split; [discriminate|]. split; [|reflexivity].
      constructor; [|constructor; [|constructor]];
        (eexists; split; [vm_compute; reflexivity|right; intros ?; vm_compute; discriminate]).
    + reflexivity.
    + exists w'. split; [exact Hres|]. split; [exact Hp|]. split; [exact Hcalls|].
      split; [exact Hdel|exact Hinst].
  - destruct (service_with_provided_dependencies_resolves 0 InjectCtor CoffeeMaker
                "coffee_maker" default_register_options [VObj 1; VObj 2]
                (VNew 17 0) 0 (new_World (brewing_with CoffeeMaker)))
      as (w' & Hres & _ & Hcalls & Hdel & _ & _ & Hinst).
    + vm_compute. reflexivity.
    + right. left. vm_compute. reflexivity.
    + constructor; [by_instance|constructor; [by_instance|constructor]].
    + split; reflexivity.
    + exists w'. split; [exact Hres|]. split; [exact Hcalls|]. split; [exact Hdel|exact Hinst].
Defined.

(** X15. An exception raised by a factory is not caught, whatever the
    registration: for a factory that [register] stored as it is, and for
    one that [register], [registerSync] or [registerCtor] wrapped and
    whose dependencies are registered instances or interfaces implemented
    by registered instances, the exception leaves [resolve] as it was
    raised, after the factory was applied to the values of its
    dependencies; the client's callback is not called and nothing is
    cached under the name of the service.  (Under [registerCtor] a
    function that is not a constructor is not applied at all: the
    exception that leaves [resolve] is the [TypeError] of [new].) *)
Theorem factory_exception_escapes_resolve
    (fuel : nat) (name : string) (af : asyncFactory) (f : jsfun) (cfg : Config)
    (vs : list value) (e : value) (id : nat) (w : World) :
  _registry (container w) !! name = Some {| factory := af; config := cfg |} ->
  cache_unused name cfg (container w) ->
  (af = Direct f /\ vs = []) \/
  (exists i, af = injecting i f /\ Forall2 (provided (container w)) (injected i f) vs) ->
  body f vs (calls_of (fid f) (trace w)) = Throws e ->
  exists w',
    resolve (8 + fuel) (One name) (KTop id) w
      = Thrown (if reaches af then e else not_a_constructor) w' /\
    pending w' = pending w /\
    invocations (fid f) (drop (length (trace w)) (trace w'))
      = (if reaches af then [vs] else []) /\
    deliveries id (drop (length (trace w)) (trace w')) = [] /\
    _instances (container w') !! name = _instances (container w) !! name.
Proof.
  intros Hr Hc Haf Hbody. change (8 + fuel) with (S (7 + fuel)).
  rewrite (resolve_cache_unused _ _ _ _ _ Hr Hc). cbn [factory config].
  set (K := KStore name (singleton cfg) (KTop id)).
  destruct Haf as [[-> ->]|(i & -> & Hall)].
  - cbn [run_factory reaches]. rewrite (apply_fn_throws _ _ _ _ _ e) by done.
    eexists. split; [reflexivity|]. cbn [pending trace container log].
    rewrite drop_app_length. simpl. by rewrite Nat.eqb_refl.
  - rewrite run_factory_injecting.
    destruct (injection_provided fuel i f vs K w Hall) as (n & w1 & Hn & Hq & Hres).
    pose proof (behave_quietly _ f vs _ _ Hq) as Hb. rewrite Hbody in Hb.
    change (exec (7 + fuel) (Resolve (Many (injected i f)) (injector i f K)) w)
      with (resolve (7 + fuel) (Many (injected i f)) (injector i f K) w).
    rewrite Hres.
    destruct (quietly_trace _ _ _ Hq) as (extra & Ht & Hdel & Hcalls & _).
    pose proof (quietly_cache _ _ _ name (injecting i f) cfg Hq Hr
                  (injecting_not_instance i f)) as Hcache.
    assert (Hentered : exists w',
      Thrown e (log (ECall (fid f) vs) w1) = Thrown e w' /\
      pending w' = pending w /\
      invocations (fid f) (drop (length (trace w)) (trace w')) = [vs] /\
      deliveries id (drop (length (trace w)) (trace w')) = [] /\
      _instances (container w') !! name = _instances (container w) !! name).
    { eexists. split; [reflexivity|]. cbn [pending trace container log].
      split; [by apply (quietly_pending _ _ _ Hq)|].
      rewrite Ht, <- app_assoc, drop_app_length.
      rewrite invocations_app, deliveries_app, Hcalls, Hdel.
      simpl. by rewrite Nat.eqb_refl. }
    destruct i; cbn [supply injecting reaches]; unfold apply_sync, apply_new;
      rewrite ?(apply_fn_throws _ _ _ _ _ e Hb); try exact Hentered.
    destruct (is_constructor f); [exact Hentered|].
    exists w1. split; [done|]. split; [by apply (quietly_pending _ _ _ Hq)|].
    by rewrite Ht, drop_app_length.
Qed.

Lemma factory_exception_escapes_resolve_witness :
  exists w',
    resolve 8 (One "coffee_maker") (KTop 0)
      (registered (ByRegister (Fn leaks)) "coffee_maker" brewing)
      = Thrown (VError "no water") w' /\
    pending w' = [] /\
    invocations 15 (trace w') = [[VObj 1; VObj 2]] /\
    deliveries 0 (trace w') = [] /\
    _instances (container w') !! "coffee_maker" = None.
Proof.
  apply (factory_exception_escapes_resolve 0 "coffee_maker" (ViaCall leaks) leaks
           default_register_options [VObj 1; VObj 2] (VError "no water") 0
           (registered (ByRegister (Fn leaks)) "coffee_maker" brewing)).
  - vm_compute. reflexivity.
  - right. left. vm_compute. reflexivity.
  - right. exists InjectCall. split; [reflexivity|].
    constructor; [by_instance|constructor; [by_instance|constructor]].
  - reflexivity.
Defined.

(** ** The other entry points keep the registrations *)

Lemma frame_keeps_registrations w o : ends (frame w) o -> keeps_registrations w o.
Proof.
  unfold keeps_registrations.
  destruct o as [w'|e w'|]; simpl; [| |done]; intros (Hr & Hi & Hs & new & Ht & Hc);
    (split; [done|]); (split; [done|]); (split; [done|]); by exists new.
Qed.

(** X16. [call], [callSync] and [callCtor], like [resolve], never
    modify the registry or the interface index, whatever the function they
    are given does with its arguments and its callback (return, raise,
    call back at once or later, ask the container to resolve names) and
    in whatever order the event loop then runs the pending callbacks,
    from a world whose pending callbacks were made under its registry; an
    entry of the instance cache that was not there before is under a name
    whose registration is a singleton, and is the value the factory of
    that registration reported without error. *)
Theorem injection_calls_keep_registrations
    (fuel fuel' : nat) (f : jsfun) (callback : cont) (sched : list nat) (w : World) :
  sound w -> cont_registered (container w) callback ->
  keeps_registrations w (and_then (call (exec fuel) f callback w) (run fuel' sched)) /\
  keeps_registrations w (and_then (callSync (exec fuel) f callback w) (run fuel' sched)) /\
  keeps_registrations w (and_then (callCtor (exec fuel) f callback w) (run fuel' sched)).
Proof.
  intros Hs Hk.
  repeat split; apply frame_keeps_registrations, and_then_run_frame;
    [unfold call|unfold callSync|unfold callCtor]; by apply resolve_framed.
Qed.

Lemma injection_calls_keep_registrations_witness :
  exists w',
    final (and_then (call (exec 9) asks_for_kept_and_fresh (KTop 0) (new_World mixed_lifetimes))
             (run 9 [1; 0])) = Some w' /\
    _registry (container w') = _registry mixed_lifetimes /\
    _interfaces (container w') = _interfaces mixed_lifetimes /\
    (exists new, trace w' = new /\ cache_justified new (new_World mixed_lifetimes) w') /\
    _instances (container w') = {[ "kept" := VObj 1 ]} /\
    deliveries 0 (trace w') = [(VNull, VArr [VObj 1; VObj 2])].
Proof.
  destruct (injection_calls_keep_registrations 9 9 asks_for_kept_and_fresh (KTop 0) [1; 0]
              (new_World mixed_lifetimes)) as (Hcall & _ & _).
  - apply sound_new_World.
  - exact I.
  - unfold keeps_registrations in Hcall.
    destruct (final _) as [w'|] eqn:Hfinal; [|vm_compute in Hfinal; discriminate].
    destruct Hcall as (Hr & Hi & _ & Hnew).
    exists w'. split; [reflexivity|]. split; [exact Hr|]. split; [exact Hi|].
    split; [exact Hnew|].
    vm_compute in Hfinal. injection Hfinal as <-. split; vm_compute; reflexivity.
Defined.

(** ** Interfaces, from registration to resolution *)

Lemma registerInstance_valid s v options c :
  s <> "" -> v <> VUndefined ->
  registerInstance (VStr s) v options c =
  Returned (store s (Instance v) (xtend default_register_options options) c).
Proof.
  intros Hs Hv. unfold registerInstance.
  rewrite (proj2 (checked_name_Some (VStr s) s)) by done. by destruct v.
Qed.

Lemma store_implementing_tag s af tag c :
  _interfaces (store s af (xtend default_register_options (implementing [tag])) c) !! tag =
  Some (default [] (_interfaces c !! tag) ++ [s]).
Proof.
  rewrite store_interfaces_lookup. cbn [xtend implementing opt_interfaces interfaces default].
  change (id [tag]) with [tag].
  rewrite bool_decide_eq_true_2 by (by apply list_elem_of_singleton).
  by rewrite filter_cons_True, filter_nil.
Qed.

(** The container after [register_implementations]. *)
Lemma register_implementations_spec tag svcs c :
  NoDup svcs.*1 ->
  Forall (fun nv : string * value => nv.1 <> "" /\ nv.1 <> tag /\ nv.2 <> VUndefined) svcs ->
  _registry c !! tag = None ->
  let c' := register_implementations tag svcs c in
  _instances c' = _instances c /\
  _registry c' !! tag = None /\
  (svcs <> [] -> _interfaces c' !! tag = Some (default [] (_interfaces c !! tag) ++ svcs.*1)) /\
  forall nv, nv ∈ svcs ->
    _registry c' !! nv.1 =
      Some {| factory := Instance nv.2;
              config := xtend default_register_options (implementing [tag]) |}.
Proof.
  induction svcs as [|nv svcs IH] using rev_ind; intros Hnd Hall Htag; cbn zeta.
  { repeat split; try done. intros nv Hnv. by apply elem_of_nil in Hnv. }
  rewrite fmap_app in Hnd. apply NoDup_app in Hnd as (Hnd & Hfresh & _).
  apply Forall_app in Hall as [Hall Hnv]. apply Forall_singleton in Hnv as (Hs & Hnt & Hv).
  destruct (IH Hnd Hall Htag) as (Hinst & Htag' & Hifs & Hreg).
  unfold register_implementations in *. rewrite foldl_app. cbn [foldl].
  set (c1 := foldl _ c svcs) in *.
  rewrite registerInstance_valid by done. cbn [or_else].
  split; [by rewrite store_instances|].
  split; [rewrite store_registry, lookup_insert_ne; done|].
  split.
  - intros _. rewrite store_implementing_tag, fmap_app. cbn [fmap list_fmap].
    destruct svcs as [|nv' svcs'].
    + simpl. unfold c1. simpl. done.
    + rewrite Hifs by done. simpl. by rewrite <- app_assoc.
  - intros nv' [Hin|Hin]%elem_of_app.
    + rewrite store_registry, lookup_insert_ne; [by apply Hreg|].
      intros Heq. apply (Hfresh nv'.1).
      * by apply list_elem_of_fmap_2.
      * rewrite <- Heq. simpl. by apply list_elem_of_singleton.
    + apply list_elem_of_singleton in Hin as ->.
      by rewrite store_registry, lookup_insert_eq.
Qed.

(** X17. Services registered one after the other with
    [registerInstance] as implementations of an interface, under distinct
    names, resolve together under the name of the interface: the client's
    callback gets the array of the instances, in the order of the
    registrations, before [resolve] returns. *)
Theorem registered_implementations_resolve_in_order
    (fuel : nat) (tag : string) (svcs : list (string * value)) (c : Container)
    (id : nat) (w : World) :
  svcs <> [] ->
  NoDup svcs.*1 ->
  Forall (fun nv : string * value => nv.1 <> "" /\ nv.1 <> tag /\ nv.2 <> VUndefined) svcs ->
  (forall name, name ∈ svcs.*1 -> _instances c !! name = None) ->
  _registry c !! tag = None ->
  _interfaces c !! tag = None ->
  container w = register_implementations tag svcs c ->
  exists w',
    resolve (5 + fuel) (One tag) (KTop id) w = Normal w' /\
    pending w' = pending w /\
    deliveries id (drop (length (trace w)) (trace w')) = [(VNull, VArr svcs.*2)].
Proof.
  intros Hne Hnd Hall Hcache Htag Hnone Hw.
  destruct (register_implementations_spec tag svcs c Hnd Hall Htag)
    as (Hinst & Htag' & Hifs & Hreg).
  specialize (Hifs Hne). rewrite Hnone in Hifs. simpl in Hifs.
  rewrite <- Hw in Hinst, Htag', Hifs, Hreg.
  rewrite (resolve_interface _ _ _ _ _ Htag' Hifs) by (by destruct svcs).
  apply resolve_settled_list.
  apply Forall2_fmap, Forall_Forall2_diag, Forall_forall. intros nv Hnv.
  eexists. split; [by apply Hreg|]. right. intros cached.
  rewrite Hinst, Hcache; [done|]. by apply list_elem_of_fmap_2.
Qed.

Lemma registered_implementations_resolve_in_order_witness :
  exists w',
    resolve 5 (One "plugin") (KTop 0)
      (new_World (register_implementations "plugin" plugins new_Container)) = Normal w' /\
    pending w' = [] /\
    deliveries 0 (trace w') = [(VNull, VArr [VObj 1; VObj 2])].
Proof.
  apply (registered_implementations_resolve_in_order 0 "plugin" plugins new_Container 0
           (new_World (register_implementations "plugin" plugins new_Container))).
  - discriminate.
  - apply (bool_decide_unpack _). vm_compute. exact I.
  - repeat constructor; discriminate.
  - intros name _. apply lookup_empty.
  - apply lookup_empty.
  - apply lookup_empty.
  - reflexivity.
Defined.

(** X18. The implementations of an interface are not deduplicated: a
    name registered again under an interface it already implements is
    listed twice, and the interface then resolves to the instance of the
    last registration, twice. *)
Theorem reregistered_implementation_is_listed_twice
    (fuel : nat) (r : registration) (s tag : string) (v : value) (c c1 c2 : Container)
    (id : nat) (w : World) :
  perform r (VStr s) (implementing [tag]) c = Returned c1 ->
  registerInstance (VStr s) v (implementing [tag]) c1 = Returned c2 ->
  s <> tag ->
  _registry c !! tag = None ->
  _interfaces c !! tag = None ->
  _instances c !! s = None ->
  container w = c2 ->
  _interfaces c2 !! tag = Some [s; s] /\
  exists w',
    resolve (5 + fuel) (One tag) (KTop id) w = Normal w' /\
    pending w' = pending w /\
    deliveries id (drop (length (trace w)) (trace w')) = [(VNull, VArr [v; v])].
Proof.
  intros (s1 & af1 & Hn1 & _ & ->)%perform_returned H2 Hne Htag Hnone Hcache Hw.
  apply checked_name_Some in Hn1 as [[= <-] Hs].
  change (registerInstance (VStr s) v (implementing [tag]) ?c)
    with (perform (ByRegisterInstance v) (VStr s) (implementing [tag]) c) in H2.
  apply perform_returned in H2 as (s2 & af2 & Hn2 & Hnorm & ->).
  apply checked_name_Some in Hn2 as [[= <-] _].
  assert (af2 = Instance v) as -> by (destruct v; simpl in Hnorm; congruence).
  set (cfg := xtend default_register_options (implementing [tag])) in *.
  set (c1 := store s af1 cfg c) in *. set (c2 := store s (Instance v) cfg c1) in *.
  assert (Hifs : _interfaces c2 !! tag = Some [s; s]).
  { unfold c2, c1, cfg. by rewrite !store_implementing_tag, Hnone. }
  split; [done|].
  assert (Hreg : _registry c2 !! s = Some {| factory := Instance v; config := cfg |}).
  { unfold c2. by rewrite store_registry, lookup_insert_eq. }
  assert (Htag2 : _registry c2 !! tag = None).
  { unfold c2, c1. by rewrite !store_registry, !lookup_insert_ne. }
  assert (Hinst : _instances c2 !! s = None).
  { unfold c2, c1. by rewrite !store_instances. }
  rewrite <- Hw in Hifs, Hreg, Htag2, Hinst.
  rewrite (resolve_interface _ _ _ _ _ Htag2 Hifs) by done.
  apply resolve_settled_list.
  assert (Hs2 : settled (container w) s v).
  { exists cfg. split; [done|]. right. intros cached. by rewrite Hinst. }
  by repeat constructor.
Qed.

Lemma reregistered_implementation_is_listed_twice_witness :
  let c1 := or_else (registerSync (VStr "out") (Fn constant_obj) (implementing ["stream"])
                       new_Container) new_Container in
  let c2 := or_else (registerInstance (VStr "out") (VObj 8) (implementing ["stream"]) c1) c1 in
  _interfaces c2 !! "stream" = Some ["out"; "out"] /\
  exists w',
    resolve 5 (One "stream") (KTop 0) (new_World c2) = Normal w' /\
    pending w' = [] /\
    deliveries 0 (trace w') = [(VNull, VArr [VObj 8; VObj 8])].
Proof.
  intros c1 c2.
  apply (reregistered_implementation_is_listed_twice 0 (ByRegisterSync (Fn constant_obj))
           "out" "stream" (VObj 8) new_Container c1 c2 0 (new_World c2)).
  - reflexivity.
  - reflexivity.
  - discriminate.
  - apply lookup_empty.
  - apply lookup_empty.
  - apply lookup_empty.
  - reflexivity.
Defined.

(** ** Resolution agrees with its reading in direct style *)

Lemma calls_in_app tr1 tr2 : calls_in (tr1 ++ tr2) = calls_in tr1 ++ calls_in tr2.
Proof. unfold calls_in. apply omap_app. Qed.

Lemma times_app f cs1 cs2 : times f (cs1 ++ cs2) = times f cs1 + times f cs2.
Proof. unfold times. by rewrite filter_app, length_app. Qed.

Lemma calls_of_times f tr : calls_of f tr = times f (calls_in tr).
Proof.
  induction tr as [|ev tr IH]; [done|].
  rewrite calls_of_cons, IH. change (ev :: tr) with ([ev] ++ tr).
  rewrite calls_in_app, times_app. f_equal.
  destruct ev as [g args|k err v]; [|done]. unfold times. simpl.
  destruct (Nat.eqb_spec f g) as [->|Hne].
  - by rewrite filter_cons_True.
  - by rewrite filter_cons_False by (simpl; congruence).
Qed.

Lemma behave_times f args w :
  behave f args w = body f args (times (fid f) (calls_in (trace w))).
Proof. unfold behave. by rewrite calls_of_times. Qed.

Lemma follows_events b w w1 extra :
  pending w1 = pending w ->
  trace w1 = trace w ++ extra -> (forall id, deliveries id extra = []) ->
  (forall j jb, j < b -> jobs w !! j = Some jb -> jobs w1 !! j = Some jb) ->
  follows b w w1.
Proof. intros Hp Ht Hd Hj. split; [done|]. split; [done|]. by exists extra. Qed.

Lemma follows_refl b w : follows b w w.
Proof. apply (follows_events b w w []); try done. by rewrite app_nil_r. Qed.

Lemma follows_weaken b b' w w1 : b' <= b -> follows b w w1 -> follows b' w w1.
Proof.
  intros Hb (Hp & Hj & Ht). split; [done|]. split; [|done].
  intros j jb Hlt. apply Hj. lia.
Qed.

Lemma follows_trans b w w1 w2 : follows b w w1 -> follows b w1 w2 -> follows b w w2.
Proof.
  intros (Hp & Hj & e & Ht & Hd) (Hp' & Hj' & e' & Ht' & Hd').
  split; [congruence|]. split; [intros j jb Hlt Hjb; by apply Hj', Hj|].
  exists (e ++ e'). split; [by rewrite Ht', Ht, app_assoc|].
  intros id. by rewrite deliveries_app, Hd, Hd'.
Qed.

Lemma follows_item b w j i v jb :
  b <= j -> follows b w (set_job j jb (log (EInvoke (KMapItem j i) VNull v) w)).
Proof.
  intros Hb. apply (follows_events _ _ _ [EInvoke (KMapItem j i) VNull v]); try done.
  intros j' jb' Hlt Hj'. cbn [jobs set_job log]. by rewrite list_lookup_insert_ne by lia.
Qed.

Lemma follows_new_job w jb : follows (length (jobs w)) w (add_job jb w).
Proof.
  apply (follows_events _ _ _ []); try done; [by rewrite app_nil_r|].
  intros j jb' _ Hj. cbn [jobs add_job]. by apply lookup_app_l_Some.
Qed.

Lemma follows_job b w w1 j jb :
  follows b w w1 -> j < b -> jobs w !! j = Some jb -> jobs w1 !! j = Some jb.
Proof. intros (_ & Hj & _). apply Hj. Qed.

(** The callback [resolve] gives to a factory, called without error:
    the instance is cached for a singleton and handed on. *)
Lemma exec_store fuel name sing k err v w :
  truthy err = false ->
  exists w1,
    exec (S fuel) (Invoke (KStore name sing k) err v) w = invoke fuel k VNull v w1 /\
    follows (length (jobs w)) w w1 /\
    container w1 = cache_put sing name v (container w) /\
    calls_in (trace w1) = calls_in (trace w).
Proof.
  intros Herr. rewrite exec_invoke, invoke_KStore by done.
  eexists. split; [reflexivity|]. unfold cache_put.
  destruct (truthy sing); (split; [|split]);
    try (apply (follows_events _ _ _ [EInvoke (KStore name sing k) err v]); done);
    try done;
    cbn [trace log set_instance]; by rewrite calls_in_app, app_nil_r.
Qed.

Lemma answers_more F F' c cs t v c' cs' :
  F <= F' -> answers F c cs t v c' cs' -> answers F' c cs t v c' cs'.
Proof.
  intros HF H fuel k w Hfuel Hc Hcs.
  destruct (H fuel k w) as (n & w1 & Hn & Hrest); [lia|done|done|].
  exists n, w1. split; [lia|done].
Qed.

Lemma loops_more F F' c cs t v c' cs' :
  F <= F' -> loops F c cs t v c' cs' -> loops F' c cs t v c' cs'.
Proof.
  intros HF H. destruct t as [name|names]; [done|].
  intros fuel j hole index w jb Hfuel. apply H. lia.
Qed.

(** The factory of an injection, applied to the values of its
    dependencies, reports [v]: the callback of [resolve] is called with
    it. *)
Lemma exec_injector fuel i f k vs v w :
  produces i f vs (times (fid f) (calls_in (trace w))) v ->
  exists err w1,
    truthy err = false /\
    exec (S fuel) (Invoke (injector i f k) VNull (VArr vs)) w = exec fuel (Invoke k err v) w1 /\
    follows (length (jobs w)) w w1 /\
    container w1 = container w /\
    calls_in (trace w1) = calls_in (trace w) ++ [(fid f, vs)].
Proof.
  intros Hprod. set (ev := EInvoke (injector i f k) VNull (VArr vs)).
  assert (Hb : behave f vs (log ev w) = body f vs (times (fid f) (calls_in (trace w)))).
  { rewrite behave_times, trace_log, calls_in_app. unfold ev. simpl. by rewrite app_nil_r. }
  assert (Hn : calls_of (fid f) (trace (log ev w)) = times (fid f) (calls_in (trace w))).
  { rewrite calls_of_times, trace_log, calls_in_app. unfold ev. simpl. by rewrite app_nil_r. }
  assert (Hfinal :
    follows (length (jobs w)) w (log (ECall (fid f) vs) (log ev w)) /\
    container (log (ECall (fid f) vs) (log ev w)) = container w /\
    calls_in (trace (log (ECall (fid f) vs) (log ev w)))
      = calls_in (trace w) ++ [(fid f, vs)]).
  { split; [|split; [done|]].
    - apply (follows_events _ _ _ [ev; ECall (fid f) vs]); try done.
      + cbn [trace log]. by rewrite <- app_assoc.
      + intros id. unfold ev. by destruct i.
    - cbn [trace log]. rewrite !calls_in_app. unfold ev. simpl. by rewrite app_nil_r. }
  rewrite exec_invoke, invoke_injector by done. fold ev. unfold produces in Hprod.
  destruct i, (body f vs (times (fid f) (calls_in (trace w)))) as [r|e|err v'|err v'|t next] eqn:E;
    try done; cbn [supply]; unfold apply_sync, apply_new, apply_fn; rewrite ?Hb, ?Hn;
    cbn [run_body returned].
  - destruct Hprod as [Herr ->]. exists err, (log (ECall (fid f) vs) (log ev w)).
    split; [done|]. by split.
  - subst r. exists VNull, (log (ECall (fid f) vs) (log ev w)).
    split; [done|]. by split.
  - destruct Hprod as [-> <-]. exists VNull, (log (ECall (fid f) vs) (log ev w)).
    split; [done|]. by split.
Qed.

(** [follows] only adds [async.map] calls. *)
Lemma follows_jobs b w w1 : follows b w w1 -> b <= length (jobs w) -> b <= length (jobs w1).
Proof.
  intros Hf Hb. destruct b as [|b]; [lia|].
  destruct (lookup_lt_is_Some_2 (jobs w) b) as [jb Hjb]; [lia|].
  apply (follows_job _ _ _ _ _ Hf) in Hjb; [|lia].
  apply lookup_lt_Some in Hjb. lia.
Qed.

Lemma yields_length c cs t v c' cs' :
  yields c cs t v c' cs' ->
  forall names, t = Many names -> length (args_of v) = length names.
Proof.
  induction 1 as [| | | | | | |c cs init vs c1 cs1 last v c2 cs2 H1 IH1 H2 IH2];
    intros names E; try discriminate.
  - by injection E as <-.
  - injection E as <-. cbn [args_of] in *. rewrite !length_app. simpl.
    by rewrite (IH1 init eq_refl).
Qed.

(** Every step of the direct reading is a step of [resolve], and of the
    loop of [async.map]. *)
Lemma yields_answers c cs t v c' cs' :
  yields c cs t v c' cs' ->
  (exists F, answers F c cs t v c' cs') /\ (exists F, loops F c cs t v c' cs').
Proof.
  induction 1 as
    [c cs name r v Hr Hs Hi Ht
    |c cs name v cfg Hr Hc
    |c cs name f cfg err v Hr Hc Hbody Herr
    |c cs name f cfg t next answer c1 cs1 err v Hr Hc Hbody Hasked [[F0 IHa] _] Hnext Herr
    |c cs name i f cfg vs v c1 cs1 Hr Hc Hdeps [[F0 IHa] _] Hprod
    |c cs name impls v c1 cs1 Hr Hi Hne Himpls [[F0 IHa] _]
    |c cs
    |c cs init vs c1 cs1 last v c2 cs2 Hinit [_ [F2 IHl]] Hlast [[F3 IHa] _]].
  - (* a cached singleton *)
    split; [exists 1|by exists 0]. intros fuel k w Hfuel <- <-.
    destruct fuel as [|fuel]; [lia|].
    exists fuel, w. split; [lia|]. split; [apply follows_refl|]. split; [done|].
    split; [done|]. by apply (resolve_cached _ _ r).
  - (* a registered instance *)
    split; [exists 2|by exists 0]. intros fuel k w Hfuel <- <-.
    destruct fuel as [|[|fuel]]; [lia..|].
    rewrite (resolve_cache_unused _ _ _ _ _ Hr Hc). cbn [factory config run_factory].
    destruct (exec_store fuel name (singleton cfg) k VNull v w) as (w1 & -> & Hf & Hc1 & Hcs1);
      [done|].
    exists fuel, w1. split; [lia|]. by repeat (split; [done|]).
  - (* a factory stored as it is *)
    split; [exists 2|by exists 0]. intros fuel k w Hfuel <- <-.
    destruct fuel as [|[|fuel]]; [lia..|].
    rewrite (resolve_cache_unused _ _ _ _ _ Hr Hc). cbn [factory config run_factory].
    rewrite (apply_fn_calls_back _ _ _ _ _ err v) by (by rewrite behave_times).
    destruct (exec_store fuel name (singleton cfg) k err v (log (ECall (fid f) []) w))
      as (w1 & -> & Hf & Hc1 & Hcs1); [done|].
    exists fuel, w1. split; [lia|]. split.
    { apply (follows_trans _ _ (log (ECall (fid f) []) w)); [|done].
      by apply (follows_events _ _ _ [ECall (fid f) []]). }
    split; [done|]. split; [|done].
    rewrite Hcs1. cbn [trace log]. by rewrite calls_in_app.
  - (* a factory that asks the container first *)
    split; [exists (F0 + 3)|by exists 0]. intros fuel k w Hfuel <- <-.
    destruct fuel as [|[|fuel]]; [lia..|].
    rewrite (resolve_cache_unused _ _ _ _ _ Hr Hc). cbn [factory config run_factory].
    set (K := KStore name (singleton cfg) k).
    rewrite (apply_fn_resolves _ _ _ _ _ t next) by (by rewrite behave_times).
    set (w0 := log (ECall (fid f) []) w).
    destruct (IHa (S fuel) (KUser next K) w0) as (n & w1 & Hn & Hf1 & Hc1 & Hcs1 & Hres);
      [lia|done|by unfold w0; cbn [trace log]; rewrite calls_in_app|].
    change (exec (S fuel) (Resolve t (KUser next K)) w0)
      with (resolve (S fuel) t (KUser next K) w0).
    rewrite Hres. destruct n as [|[|n]]; [lia..|].
    unfold invoke. rewrite exec_invoke, invoke_KUser, Hnext. cbn [run_body].
    set (w2 := log (EInvoke (KUser next K) VNull answer) w1).
    destruct (exec_store n name (singleton cfg) k err v w2) as (w3 & He3 & Hf3 & Hc3 & Hcs3);
      [done|].
    unfold K. rewrite He3.
    assert (Hf0 : follows (length (jobs w)) w w0).
    { by apply (follows_events _ _ _ [ECall (fid f) []]). }
    assert (Hf2 : follows (length (jobs w)) w w2).
    { apply (follows_trans _ _ w0); [done|]. apply (follows_trans _ _ w1); [done|].
      by apply (follows_events _ _ _ [EInvoke (KUser next K) VNull answer]). }
    exists n, w3. split; [lia|]. split.
    { apply (follows_trans _ _ w2); [done|].
      apply (follows_weaken (length (jobs w2))); [|done].
      by apply (follows_jobs _ w). }
    split; [by rewrite Hc3; unfold w2; cbn [container log]; rewrite Hc1|].
    split; [|done].
    rewrite Hcs3. unfold w2. cbn [trace log]. by rewrite calls_in_app, app_nil_r.
  - (* a wrapped factory *)
    split; [exists (F0 + 3)|by exists 0]. intros fuel k w Hfuel <- <-.
    destruct fuel as [|fuel]; [lia|].
    rewrite (resolve_cache_unused _ _ _ _ _ Hr Hc). cbn [factory config].
    rewrite run_factory_injecting.
    set (K := KStore name (singleton cfg) k).
    destruct (IHa fuel (injector i f K) w) as (n & w1 & Hn & Hf1 & Hc1 & Hcs1 & Hres);
      [lia|done|done|].
    change (exec fuel (Resolve (Many (injected i f)) (injector i f K)) w)
      with (resolve fuel (Many (injected i f)) (injector i f K) w).
    rewrite Hres. destruct n as [|[|n]]; [lia..|].
    destruct (exec_injector (S n) i f K vs v w1) as (err & w2 & Herr & He & Hf2 & Hc2 & Hcs2).
    { by rewrite Hcs1. }
    unfold invoke. rewrite He.
    destruct (exec_store n name (singleton cfg) k err v w2) as (w3 & He3 & Hf3 & Hc3 & Hcs3);
      [done|].
    unfold K. rewrite He3.
    assert (Hlen1 : length (jobs w) <= length (jobs w1)).
    { destruct (lt_dec (length (jobs w1)) (length (jobs w))) as [Hlt|]; [|lia].
      destruct (lookup_lt_is_Some_2 (jobs w) (length (jobs w1))) as [jb Hjb]; [lia|].
      apply (follows_job _ _ _ _ _ Hf1) in Hjb; [|lia].
      apply lookup_lt_Some in Hjb. lia. }
    assert (Hlen2 : length (jobs w1) <= length (jobs w2)).
    { destruct (lt_dec (length (jobs w2)) (length (jobs w1))) as [Hlt|]; [|lia].
      destruct (lookup_lt_is_Some_2 (jobs w1) (length (jobs w2))) as [jb Hjb]; [lia|].
      apply (follows_job _ _ _ _ _ Hf2) in Hjb; [|lia].
      apply lookup_lt_Some in Hjb. lia. }
    exists n, w3. split; [lia|]. split.
    { apply (follows_trans _ _ w1); [done|].
      apply (follows_trans _ _ w2); [by apply (follows_weaken (length (jobs w1)))|].
      apply (follows_weaken (length (jobs w2))); [lia|done]. }
    split; [by rewrite Hc3, Hc2, Hc1|]. split; [by rewrite Hcs3, Hcs2, Hcs1|done].
  - (* an interface *)
    split; [exists F0|by exists 0]. intros fuel k w Hfuel <- <-.
    rewrite (resolve_interface _ _ _ _ _ Hr Hi Hne). by apply IHa.
  - (* the empty list *)
    split; [exists 1|exists 0].
    + intros fuel k w Hfuel <- <-. destruct fuel as [|fuel]; [lia|].
      unfold resolve. rewrite exec_resolve. cbn [resolve_]. rewrite async_map_nil.
      eexists fuel, _. split; [lia|]. split; [|split; [|split; [|reflexivity]]]; [|done..].
      apply (follows_events _ _ _ []); try done; [by rewrite app_nil_r|].
      intros j jb Hlt Hj. cbn [jobs set_job add_job].
      rewrite list_lookup_insert_ne by lia. by apply lookup_app_l_Some.
    + intros fuel j hole index w jb _ <- <- Hj Hf Hseen _ _.
      exists w, jb. cbn [map_loop length args_of]. rewrite !Nat.add_0_r, app_nil_r.
      split; [done|]. split; [apply follows_refl|]. by repeat (split; [done|]).
  - (* a list and one more name *)
    assert (Hloop : loops (S (F2 + F3)) c cs (Many (init ++ [last])) (VArr (vs ++ [v])) c2 cs2).
    { intros fuel j hole index w jb Hfuel Hc Hcs Hj Hf Hseen Hhole Hopen.
      rewrite length_app in Hhole, Hopen. cbn [length] in Hhole, Hopen.
      rewrite map_loop_app.
      destruct (IHl fuel j hole index w jb)
        as (w' & jb' & -> & Hf' & Hc' & Hcs' & Hj' & Hfd' & Hd' & Htot' & Hcomp' & Hseen' & Hres');
        try done; [lia..|].
      cbn [map_loop args_of] in *. rewrite outcome_eta.
      destruct (IHa fuel (KMapItem j (index + length init)) w')
        as (n & w1 & Hn & Hf1 & Hc1 & Hcs1 & Hres1); [lia|done|done|].
      change (exec fuel (Resolve (One last) ?k') w') with (resolve fuel (One last) k' w').
      rewrite Hres1. destruct n as [|n]; [lia|].
      assert (Hlt : j < length (jobs w')) by (by apply lookup_lt_Some in Hj').
      pose proof (follows_job _ _ _ _ _ Hf1 Hlt Hj') as Hj1.
      rewrite (invoke_item_more n j _ v w1 jb' Hj1)
        by (try lia; intros Hin; apply Hseen' in Hin; lia).
      eexists _, _. split; [reflexivity|].
      split.
      { apply (follows_trans _ _ w'); [done|].
        apply (follows_trans _ _ w1); [apply (follows_weaken (length (jobs w'))); [lia|done]|].
        by apply follows_item. }
      split; [done|].
      split; [cbn [trace set_job log]; by rewrite calls_in_app, app_nil_r|].
      split; [cbn [jobs set_job log]; apply list_lookup_insert_eq;
              by apply lookup_lt_Some in Hj1|].
      cbn [fired done_cb total completed seen results].
      split; [done|]. split; [done|]. split; [done|].
      split; [rewrite length_app; simpl; lia|].
      split.
      { intros x [->|Hx]%elem_of_cons; [rewrite length_app; simpl; lia|].
        apply Hseen' in Hx. rewrite length_app. simpl. lia. }
      intros Hlen. rewrite (Hres' Hlen), app_assoc. f_equal.
      pose proof (yields_length _ _ _ _ _ _ Hinit init eq_refl) as Hvs.
      cbn [args_of] in Hvs.
      rewrite <- arr_set_end. f_equal. rewrite length_app, Hlen, Hvs. done. }
    split; [|by eexists].
    exists (S (S (F2 + F3))). intros fuel k w Hfuel <- <-.
    destruct fuel as [|fuel]; [lia|].
    unfold resolve. rewrite exec_resolve. cbn [resolve_].
    rewrite async_map_loop by (by destruct init).
    set (jb := mkJob [] 0 (length (init ++ [last])) false [] k).
    set (j := length (jobs w)).
    rewrite map_loop_app.
    destruct (IHl fuel j (length init) 0 (add_job jb w) jb)
      as (w' & jb' & -> & Hf' & Hc' & Hcs' & Hj' & Hfd' & Hd' & Htot' & Hcomp' & Hseen' & Hres');
      try done; [lia| | |right; simpl; lia| |].
    { unfold j. cbn [jobs add_job]. rewrite lookup_app_r by done. by rewrite Nat.sub_diag. }
    { intros x Hx. by apply elem_of_nil in Hx. }
    { unfold jb. cbn [completed total]. rewrite length_app. simpl. lia. }
    cbn [map_loop args_of] in *. rewrite outcome_eta.
    destruct (IHa fuel (KMapItem j (0 + length init)) w')
      as (n & w1 & Hn & Hf1 & Hc1 & Hcs1 & Hres1); [lia|done|done|].
    change (exec fuel (Resolve (One last) ?k') w') with (resolve fuel (One last) k' w').
    rewrite Hres1. destruct n as [|n]; [lia|].
    assert (Hlt : j < length (jobs w')) by (by apply lookup_lt_Some in Hj').
    pose proof (follows_job _ _ _ _ _ Hf1 Hlt Hj') as Hj1.
    rewrite (invoke_item_last n j _ v w1 jb' Hj1); [| | |done].
    2:{ intros Hin. apply Hseen' in Hin. lia. }
    2:{ rewrite Hcomp', Htot'. unfold jb. cbn [completed total]. rewrite length_app. simpl. lia. }
    rewrite Hd'. unfold jb at 2. cbn [done_cb].
    assert (Hvs : arr_set (0 + length init) v (results jb') = vs ++ [v]).
    { rewrite Hres' by done. unfold jb. cbn [results app].
      pose proof (yields_length _ _ _ _ _ _ Hinit init eq_refl) as Hlen.
      cbn [args_of] in Hlen.
      simpl. rewrite <- Hlen. apply arr_set_end. }
    rewrite Hvs.
    eexists n, _. split; [lia|]. split; [|split; [|split; [|reflexivity]]].
    + apply (follows_trans _ _ (add_job jb w)); [apply follows_new_job|].
      apply (follows_trans _ _ w'); [done|].
      apply (follows_trans _ _ w1); [apply (follows_weaken (length (jobs w'))); [lia|done]|].
      by apply follows_item.
    + done.
    + cbn [trace set_job log]. by rewrite calls_in_app, app_nil_r.
Qed.

(** X19. [resolve] computes what the direct reading says.  Whenever a
    name or a list of names evaluates to [v] in direct style ([yields]:
    cached singletons, registered instances, factories that call back or
    return at once, constructors applied with [new], whose service is the
    object they return or else the new instance, factories that ask the
    container for names first, their dependencies and interfaces to any
    depth, from left to right), [resolve], given budget enough and
    whatever else the world holds, calls the client's callback once, with
    [null] and [v], before it returns, and leaves the container and the
    calls of user functions that the direct reading says. *)
Theorem resolve_agrees_with_direct_evaluation
    (c : Container) (cs : call_log) (t : target) (v : value)
    (c' : Container) (cs' : call_log) :
  yields c cs t v c' cs' ->
  exists F, forall fuel id w,
    F <= fuel -> container w = c -> calls_in (trace w) = cs ->
    exists w',
      resolve fuel t (KTop id) w = Normal w' /\
      container w' = c' /\
      calls_in (trace w') = cs' /\
      pending w' = pending w /\
      deliveries id (drop (length (trace w)) (trace w')) = [(VNull, v)].
Proof.
  intros [[F Ha] _]%yields_answers. exists (S F). intros fuel id w Hfuel Hc Hcs.
  destruct (Ha fuel (KTop id) w)
    as (n & w1 & Hn & (Hp & _ & extra & Ht & Hd) & Hc1 & Hcs1 & Hres); [lia|done|done|].
  destruct n as [|n]; [lia|].
  exists (log (EInvoke (KTop id) VNull v) w1). split.
  { rewrite Hres. unfold invoke. by rewrite exec_invoke, invoke_KTop. }
  cbn [container pending trace log]. split; [done|].
  split; [by rewrite calls_in_app, app_nil_r|]. split; [done|].
  rewrite Ht, <- app_assoc, drop_app_length, deliveries_app, Hd. simpl.
  by rewrite Nat.eqb_refl.
Qed.

(** The two services the asking factories of the tests ask for, in
    direct style. *)
Lemma two_services_yield (c : Container) (cs : call_log) :
  _registry c !! "serviceA" =
    Some {| factory := ViaCallSync (constant 20 (VObj 1)); config := default_register_options |} ->
  _registry c !! "serviceB" =
    Some {| factory := ViaCallSync (constant 21 (VObj 2)); config := default_register_options |} ->
  _instances c = ∅ ->
  exists c1,
    yields c cs (Many ["serviceA"; "serviceB"]) (VArr [VObj 1; VObj 2]) c1
      (cs ++ [(20, []); (21, [])]) /\
    _instances c1 = {[ "serviceA" := VObj 1; "serviceB" := VObj 2 ]}.
Proof.
  intros Ha Hb Hi. eexists. split.
  - change (cs ++ [(20, []); (21, [])]) with (cs ++ [(20, @nil value)] ++ [(21, [])]).
    rewrite app_assoc.
    eapply (yields_snoc _ _ ["serviceA"] [VObj 1] _ _ "serviceB" (VObj 2)).
    + eapply (yields_snoc _ _ [] [] _ _ "serviceA" (VObj 1)); [apply yields_nil|].
      eapply (yields_injected _ _ "serviceA" InjectSync (constant 20 (VObj 1))
                default_register_options [] (VObj 1)).
      * exact Ha.
      * right. left. by rewrite Hi.
      * apply yields_nil.
      * reflexivity.
    + eapply (yields_injected _ _ "serviceB" InjectSync (constant 21 (VObj 2))
                default_register_options [] (VObj 2)).
      * exact Hb.
      * right. left. cbn. by rewrite lookup_insert_ne, Hi.
      * apply yields_nil.
      * reflexivity.
  - cbn. rewrite Hi. by apply insert_insert_ne.
Qed.

(** The logger of the README in direct style: its two dependencies are
    an instance and an interface with two implementations. *)
Lemma logging_yields :
  exists c',
    yields logging [] (One "logger") (VArr [VObj 1; VArr [VObj 2; VObj 3]])
      c' [(16, [VObj 1; VArr [VObj 2; VObj 3]])].
Proof.
  eexists.
  eapply (yields_injected _ _ "logger" InjectSync logger default_register_options
           [VObj 1; VArr [VObj 2; VObj 3]] _ _ []).
  - vm_compute. reflexivity.
  - right. left. vm_compute. reflexivity.
  - eapply (yields_snoc _ _ ["bunyan"] [VObj 1] _ _ "loggerStream" (VArr [VObj 2; VObj 3])).
    + eapply (yields_snoc _ _ [] [] _ _ "bunyan" (VObj 1)); [apply yields_nil|].
      eapply (yields_instance _ _ "bunyan" (VObj 1) default_register_options).
      * vm_compute. reflexivity.
      * right. left. vm_compute. reflexivity.
    + eapply (yields_interface _ _ "loggerStream" ["file_stream"; "stdout_stream"]).
      * vm_compute. reflexivity.
      * vm_compute. reflexivity.
      * discriminate.
      * eapply (yields_snoc _ _ ["file_stream"] [VObj 2] _ _ "stdout_stream" (VObj 3)).
        -- eapply (yields_snoc _ _ [] [] _ _ "file_stream" (VObj 2)); [apply yields_nil|].
           eapply (yields_instance _ _ "file_stream" (VObj 2)
                    (xtend default_register_options (implementing ["loggerStream"]))).
           ++ vm_compute. reflexivity.
           ++ right. left. vm_compute. reflexivity.
        -- eapply (yields_instance _ _ "stdout_stream" (VObj 3)
                    (xtend default_register_options (implementing ["loggerStream"]))).
           ++ vm_compute. reflexivity.
           ++ right. left. vm_compute. reflexivity.
  - reflexivity.
Qed.

(** The coffee maker of the README, registered with [registerCtor], in
    direct style: the service is the new instance of [CoffeeMaker]. *)
Lemma coffee_maker_yields :
  exists c',
    yields (brewing_with CoffeeMaker) [] (One "coffee_maker") (VNew 17 0)
      c' [(17, [VObj 1; VObj 2])].
Proof.
  eexists.
  eapply (yields_injected _ _ "coffee_maker" InjectCtor CoffeeMaker default_register_options
           [VObj 1; VObj 2] _ _ []).
  - vm_compute. reflexivity.
  - right. left. vm_compute. reflexivity.
  - eapply (yields_snoc _ _ ["heater"] [VObj 1] _ _ "pump" (VObj 2)).
    + eapply (yields_snoc _ _ [] [] _ _ "heater" (VObj 1)); [apply yields_nil|].
      eapply (yields_instance _ _ "heater" (VObj 1) default_register_options).
      * vm_compute. reflexivity.
      * right. left. vm_compute. reflexivity.
    + eapply (yields_instance _ _ "pump" (VObj 2) default_register_options).
      * vm_compute. reflexivity.
      * right. left. vm_compute. reflexivity.
  - split; reflexivity.
Qed.

(** The service of the tests that asks the container for its two
    dependencies, in direct style. *)
Lemma asking_service_yields :
  exists c',
    yields with_asking_service [] (One "serviceC") (VArr [VObj 1; VObj 2])
      c' [(19, []); (20, []); (21, [])] /\
    _instances c' =
      {[ "serviceC" := VArr [VObj 1; VObj 2]; "serviceA" := VObj 1; "serviceB" := VObj 2 ]}.
Proof.
  destruct (two_services_yield with_asking_service [(19, [])]) as (c1 & Hy & Hi);
    [vm_compute; reflexivity..|].
  eexists. split.
  - eapply (yields_asking _ _ "serviceC" asks_for_two default_register_options
             (Many ["serviceA"; "serviceB"]) _ (VArr [VObj 1; VObj 2]) c1 _ VNull).
    + vm_compute. reflexivity.
    + right. left. vm_compute. reflexivity.
    + reflexivity.
    + exact Hy.
    + reflexivity.
    + reflexivity.
  - cbn. by rewrite Hi.
Qed.

Lemma resolve_agrees_with_direct_evaluation_witness :
  (exists F, forall fuel,
     F <= fuel ->
     exists w',
       resolve fuel (One "logger") (KTop 0) (new_World logging) = Normal w' /\
       calls_in (trace w') = [(16, [VObj 1; VArr [VObj 2; VObj 3]])] /\
       pending w' = [] /\
       deliveries 0 (trace w') = [(VNull, VArr [VObj 1; VArr [VObj 2; VObj 3]])]) /\
  (exists F, forall fuel,
     F <= fuel ->
     exists w',
       resolve fuel (One "coffee_maker") (KTop 0) (new_World (brewing_with CoffeeMaker))
         = Normal w' /\
       calls_in (trace w') = [(17, [VObj 1; VObj 2])] /\
       deliveries 0 (trace w') = [(VNull, VNew 17 0)]) /\
  (exists F, forall fuel,
     F <= fuel ->
     exists w',
       resolve fuel (One "serviceC") (KTop 0) (new_World with_asking_service) = Normal w' /\
       calls_in (trace w') = [(19, []); (20, []); (21, [])] /\
       _instances (container w') =
         {[ "serviceC" := VArr [VObj 1; VObj 2];
            "serviceA" := VObj 1; "serviceB" := VObj 2 ]} /\
       deliveries 0 (trace w') = [(VNull, VArr [VObj 1; VObj 2])]).
Proof.
  split; [|split].
  - destruct logging_yields as [c' Hy].
    destruct (resolve_agrees_with_direct_evaluation _ _ _ _ _ _ Hy) as [F H].
    exists F. intros fuel Hfuel.
    destruct (H fuel 0 (new_World logging) Hfuel eq_refl eq_refl)
      as (w' & Hres & _ & Hcalls & Hp & Hdel).
    exists w'. split; [exact Hres|]. split; [exact Hcalls|]. split; [exact Hp|exact Hdel].
  - destruct coffee_maker_yields as [c' Hy].
    destruct (resolve_agrees_with_direct_evaluation _ _ _ _ _ _ Hy) as [F H].
    exists F. intros fuel Hfuel.
    destruct (H fuel 0 (new_World (brewing_with CoffeeMaker)) Hfuel eq_refl eq_refl)
      as (w' & Hres & _ & Hcalls & _ & Hdel).
    exists w'. split; [exact Hres|]. split; [exact Hcalls|exact Hdel].
  - destruct asking_service_yields as (c' & Hy & Hi).
    destruct (resolve_agrees_with_direct_evaluation _ _ _ _ _ _ Hy) as [F H].
    exists F. intros fuel Hfuel.
    destruct (H fuel 0 (new_World with_asking_service) Hfuel eq_refl eq_refl)
      as (w' & Hres & Hc & Hcalls & _ & Hdel).
    exists w'. split; [exact Hres|]. split; [exact Hcalls|].
    split; [by rewrite Hc|exact Hdel].
Defined.

(** ** What a factory hands to its callback *)

(** A factory stored as it is that asks the container for [t] first:
    [resolve] calls it, resolves [t] for it and hands it the answer, and
    the factory goes on with [next]. *)
Lemma resolve_asking F name f cfg t next answer c1 cs1 w :
  _registry (container w) !! name = Some {| factory := Direct f; config := cfg |} ->
  cache_unused name cfg (container w) ->
  behave f [] w = Resolves t next ->
  answers F (container w) (calls_in (trace w) ++ [(fid f, [])]) t answer c1 cs1 ->
  forall fuel k, F + 3 <= fuel ->
  exists n w1 extra,
    fuel <= n + F + 3 /\
    resolve fuel (One name) k w =
      run_body (exec n) (next VNull answer) (KStore name (singleton cfg) k) w1 /\
    container w1 = c1 /\ pending w1 = pending w /\
    trace w1 = trace w ++ extra /\ (forall id, deliveries id extra = []).
Proof.
  intros Hr Hc Hb Ha fuel k Hfuel.
  destruct fuel as [|[|fuel]]; [lia..|].
  rewrite (resolve_cache_unused _ _ _ _ _ Hr Hc). cbn [factory config run_factory].
  set (K := KStore name (singleton cfg) k).
  rewrite (apply_fn_resolves _ _ _ _ _ t next) by done.
  set (w0 := log (ECall (fid f) []) w).
  destruct (Ha (S fuel) (KUser next K) w0)
    as (n & w1 & Hn & (Hp1 & _ & e1 & Ht1 & Hd1) & Hc1 & _ & Hres);
    [lia|done|by unfold w0; cbn [trace log]; rewrite calls_in_app|].
  change (exec (S fuel) (Resolve t (KUser next K)) w0)
    with (resolve (S fuel) t (KUser next K) w0).
  rewrite Hres. destruct n as [|n]; [lia|].
  unfold invoke. rewrite exec_invoke, invoke_KUser.
  exists n, (log (EInvoke (KUser next K) VNull answer) w1),
    ([ECall (fid f) []] ++ e1 ++ [EInvoke (KUser next K) VNull answer]).
  split; [lia|]. split; [done|]. split; [done|]. split; [done|]. split.
  - cbn [trace log]. rewrite Ht1. unfold w0. cbn [trace log]. by rewrite <- !app_assoc.
  - intros id. by rewrite !deliveries_app, Hd1.
Qed.

(** X7. The callback [resolve] hands to the factory of a service, when
    it is called with a truthy first argument -- by whatever factory and
    at whatever time -- passes exactly that error on, with no value
    (whatever the factory passed beside the error), and leaves the
    container as it is: nothing is cached.  Hence, for a service
    registered with [register] whose factory [f] is stored as it is:
    when [f] calls its callback with such an error at once, without
    calling the container, the resolution hands exactly that error to
    the client, and the container is left as it was; and when [f] first
    has the container resolve [t], which yields [answer] with every
    factory involved answering before it returns, and then calls its
    callback with such an error, the resolution hands exactly that error
    to the client, and the container is left as the resolution of [t]
    left it. *)
Theorem factory_error_is_delivered_and_not_cached
    (name : string) (f : jsfun) (cfg : Config) (id : nat) (w : World) (err v : value) :
  truthy err = true ->
  (forall fuel sing,
     invoke (2 + fuel) (KStore name sing (KTop id)) err v w =
       Normal (log (EInvoke (KTop id) err VUndefined)
                 (log (EInvoke (KStore name sing (KTop id)) err v) w))) /\
  (_registry (container w) !! name = Some {| factory := Direct f; config := cfg |} ->
   cache_unused name cfg (container w) ->
   (behave f [] w = CallsBack err v ->
    forall fuel, exists w1,
      resolve (3 + fuel) (One name) (KTop id) w = Normal w1 /\
      container w1 = container w /\
      pending w1 = pending w /\
      invocations (fid f) (drop (length (trace w)) (trace w1)) = [[]] /\
      deliveries id (drop (length (trace w)) (trace w1)) = [(err, VUndefined)]) /\
   (forall t next answer c1 cs1,
      behave f [] w = Resolves t next ->
      yields (container w) (calls_in (trace w) ++ [(fid f, [])]) t answer c1 cs1 ->
      next VNull answer = CallsBack err v ->
      exists F, forall fuel, F <= fuel ->
        exists w1,
          resolve fuel (One name) (KTop id) w = Normal w1 /\
          container w1 = c1 /\
          pending w1 = pending w /\
          deliveries id (drop (length (trace w)) (trace w1)) = [(err, VUndefined)])).
Proof.
  intros Herr. split; [|intros Hr Hc; split].
  - intros fuel sing. unfold invoke. change (2 + fuel) with (S (S fuel)).
    rewrite exec_invoke, invoke_KStore_error by done. by rewrite exec_invoke, invoke_KTop.
  - intros Hb fuel. change (3 + fuel) with (2 + S fuel).
    rewrite (resolve_direct_calls_back _ _ _ _ _ _ _ _ Hr Hc Hb).
    rewrite invoke_KStore_error by done. rewrite exec_invoke, invoke_KTop.
    eexists. split; [reflexivity|]. cbn [container pending trace log].
    repeat split; rewrite <- !app_assoc, drop_app_length; simpl; by rewrite Nat.eqb_refl.
  - intros t next answer c1 cs1 Hb Hy Hnext.
    destruct (yields_answers _ _ _ _ _ _ Hy) as [[F Ha] _]. exists (F + 5).
    intros fuel Hfuel.
    destruct (resolve_asking F name f cfg t next answer c1 cs1 w Hr Hc Hb Ha fuel (KTop id))
      as (n & w1 & extra & Hn & Hres & Hc1 & Hp1 & Ht1 & Hd1); [lia|].
    rewrite Hres, Hnext. cbn [run_body]. destruct n as [|[|n]]; [lia..|].
    rewrite exec_invoke, invoke_KStore_error by done. rewrite exec_invoke, invoke_KTop.
    eexists. split; [reflexivity|]. cbn [container pending trace log].
    split; [done|]. split; [done|].
    rewrite Ht1, <- !app_assoc, drop_app_length, deliveries_app, Hd1. simpl.
    by rewrite Nat.eqb_refl.
Qed.

Lemma factory_error_is_delivered_and_not_cached_witness :
  (exists w1,
     resolve 3 (One "db") (KTop 0) (registered (ByRegister (Fn fails)) "db" new_Container)
       = Normal w1 /\
     container w1 = container (registered (ByRegister (Fn fails)) "db" new_Container) /\
     pending w1 = [] /\
     invocations 7 (trace w1) = [[]] /\
     deliveries 0 (trace w1) = [(VError "no database", VUndefined)]) /\
  (exists F, forall fuel, F <= fuel ->
     exists w1,
       resolve fuel (One "serviceC") (KTop 0) (new_World with_failing_asker) = Normal w1 /\
       _instances (container w1) = {[ "serviceA" := VObj 1; "serviceB" := VObj 2 ]} /\
       pending w1 = [] /\
       deliveries 0 (trace w1) = [(VError "unusable", VUndefined)]).
Proof.
  split.
  - destruct (factory_error_is_delivered_and_not_cached "db" fails default_register_options 0
                (registered (ByRegister (Fn fails)) "db" new_Container)
                (VError "no database") (VStr "partial") eq_refl) as (_ & Hresolve).
    destruct Hresolve as [Hnow _].
    + vm_compute. reflexivity.
    + right. left. vm_compute. reflexivity.
    + apply (Hnow eq_refl 0).
  - destruct (two_services_yield (container (new_World with_failing_asker)) [(24, [])])
      as (c1 & Hy & Hi); [vm_compute; reflexivity..|].
    destruct (factory_error_is_delivered_and_not_cached "serviceC" asks_then_fails
                default_register_options 0 (new_World with_failing_asker)
                (VError "unusable") (VArr [VObj 1; VObj 2]) eq_refl) as (_ & Hresolve).
    destruct Hresolve as [_ Hasks].
    + vm_compute. reflexivity.
    + right. left. vm_compute. reflexivity.
    + destruct (Hasks _ _ _ c1 _ eq_refl Hy eq_refl) as [F H].
      exists F. intros fuel Hfuel.
      destruct (H fuel Hfuel) as (w1 & Hres & Hc1 & Hp & Hd).
      exists w1. split; [exact Hres|]. split; [by rewrite Hc1|].
      split; [exact Hp|exact Hd].
Defined.

(** X8. The callback [resolve] hands to the factory of a service, when
    it is called with a falsy first argument -- by whatever factory and
    at whatever time -- stores the value in the cache under the name
    when the registration is a singleton, leaves the cache alone when it
    is transient, and passes [null] for error, whatever falsy value the
    factory passed, and the value on.  Hence, for a service registered
    with [register] whose factory [f] is stored as it is: when [f] calls
    its callback so at once, without calling the container, the
    resolution succeeds with the value, and the container differs by
    that entry of the cache only; and when [f] first has the container
    resolve [t], which yields [answer] with every factory involved
    answering before it returns, and then calls its callback so, the
    resolution succeeds with the value, and the container is as the
    resolution of [t] left it but for that entry. *)
Theorem factory_result_is_delivered_with_null_error
    (name : string) (f : jsfun) (cfg : Config) (id : nat) (w : World) (err v : value) :
  truthy err = false ->
  (forall fuel sing,
     invoke (2 + fuel) (KStore name sing (KTop id)) err v w =
       Normal (log (EInvoke (KTop id) VNull v)
                 (let w' := log (EInvoke (KStore name sing (KTop id)) err v) w in
                  if truthy sing then set_instance name v w' else w'))) /\
  (_registry (container w) !! name = Some {| factory := Direct f; config := cfg |} ->
   cache_unused name cfg (container w) ->
   (behave f [] w = CallsBack err v ->
    forall fuel, exists w1,
      resolve (3 + fuel) (One name) (KTop id) w = Normal w1 /\
      _registry (container w1) = _registry (container w) /\
      _interfaces (container w1) = _interfaces (container w) /\
      _instances (container w1) =
        (if truthy (singleton cfg) then <[name := v]> (_instances (container w))
         else _instances (container w)) /\
      pending w1 = pending w /\
      invocations (fid f) (drop (length (trace w)) (trace w1)) = [[]] /\
      deliveries id (drop (length (trace w)) (trace w1)) = [(VNull, v)]) /\
   (forall t next answer c1 cs1,
      behave f [] w = Resolves t next ->
      yields (container w) (calls_in (trace w) ++ [(fid f, [])]) t answer c1 cs1 ->
      next VNull answer = CallsBack err v ->
      exists F, forall fuel, F <= fuel ->
        exists w1,
          resolve fuel (One name) (KTop id) w = Normal w1 /\
          container w1 = cache_put (singleton cfg) name v c1 /\
          pending w1 = pending w /\
          deliveries id (drop (length (trace w)) (trace w1)) = [(VNull, v)])).
Proof.
  intros Herr. split; [|intros Hr Hc; split].
  - intros fuel sing. unfold invoke. change (2 + fuel) with (S (S fuel)).
    rewrite exec_invoke, invoke_KStore by done. by rewrite exec_invoke, invoke_KTop.
  - intros Hb fuel. change (3 + fuel) with (2 + S fuel).
    rewrite (resolve_direct_calls_back _ _ _ _ _ _ _ _ Hr Hc Hb).
    rewrite invoke_KStore by done. rewrite exec_invoke, invoke_KTop.
    eexists. split; [reflexivity|].
    destruct (truthy (singleton cfg)); cbn [container pending trace log set_instance
      _registry _interfaces _instances];
      repeat split; rewrite <- !app_assoc, drop_app_length; simpl; by rewrite Nat.eqb_refl.
  - intros t next answer c1 cs1 Hb Hy Hnext.
    destruct (yields_answers _ _ _ _ _ _ Hy) as [[F Ha] _]. exists (F + 5).
    intros fuel Hfuel.
    destruct (resolve_asking F name f cfg t next answer c1 cs1 w Hr Hc Hb Ha fuel (KTop id))
      as (n & w1 & extra & Hn & Hres & Hc1 & Hp1 & Ht1 & Hd1); [lia|].
    rewrite Hres, Hnext. cbn [run_body]. destruct n as [|[|n]]; [lia..|].
    rewrite exec_invoke, invoke_KStore by done. rewrite exec_invoke, invoke_KTop.
    eexists. split; [reflexivity|]. unfold cache_put.
    destruct (truthy (singleton cfg));
      cbn [container pending trace log set_instance]; rewrite ?Hc1;
      (split; [by rewrite <- ?Hc1|]); (split; [done|]);
      rewrite Ht1, <- !app_assoc, drop_app_length, deliveries_app, Hd1; simpl;
      by rewrite Nat.eqb_refl.
Qed.

Lemma factory_result_is_delivered_with_null_error_witness :
  (exists w1,
     resolve 3 (One "svc") (KTop 0)
       (registered (ByRegister (Fn answers_with_zero)) "svc" new_Container) = Normal w1 /\
     _instances (container w1) !! "svc" = Some (VStr "ready") /\
     invocations 8 (trace w1) = [[]] /\
     deliveries 0 (trace w1) = [(VNull, VStr "ready")]) /\
  (exists F, forall fuel, F <= fuel ->
     exists w1,
       resolve fuel (One "serviceC") (KTop 0) (new_World with_asking_service) = Normal w1 /\
       _instances (container w1) =
         {[ "serviceC" := VArr [VObj 1; VObj 2];
            "serviceA" := VObj 1; "serviceB" := VObj 2 ]} /\
       pending w1 = [] /\
       deliveries 0 (trace w1) = [(VNull, VArr [VObj 1; VObj 2])]).
Proof.
  split.
  - destruct (factory_result_is_delivered_with_null_error "svc" answers_with_zero
                default_register_options 0
                (registered (ByRegister (Fn answers_with_zero)) "svc" new_Container)
                (VNum 0) (VStr "ready") eq_refl) as (_ & Hresolve).
    destruct Hresolve as [Hnow _].
    + vm_compute. reflexivity.
    + right. left. vm_compute. reflexivity.
    + destruct (Hnow eq_refl 0) as (w1 & Hres & _ & _ & Hinst & _ & Hcalls & Hdel).
      exists w1. split; [exact Hres|]. split; [|split; [exact Hcalls|exact Hdel]].
      rewrite Hinst. reflexivity.
  - destruct (two_services_yield (container (new_World with_asking_service)) [(19, [])])
      as (c1 & Hy & Hi); [vm_compute; reflexivity..|].
    destruct (factory_result_is_delivered_with_null_error "serviceC" asks_for_two
                default_register_options 0 (new_World with_asking_service)
                VNull (VArr [VObj 1; VObj 2]) eq_refl) as (_ & Hresolve).
    destruct Hresolve as [_ Hasks].
    + vm_compute. reflexivity.
    + right. left. vm_compute. reflexivity.
    + destruct (Hasks _ _ _ c1 _ eq_refl Hy eq_refl) as [F H].
      exists F. intros fuel Hfuel.
      destruct (H fuel Hfuel) as (w1 & Hres & Hc1 & Hp & Hd).
      exists w1. split; [exact Hres|]. split; [|split; [exact Hp|exact Hd]].
      rewrite Hc1. cbn. by rewrite Hi.
Defined.

(** The test of the repository: [serviceC] asks the container for
    [serviceA] and [serviceB] and answers with them. *)
Example asking_service_resolves :
  exists w1,
    resolve 12 (One "serviceC") (KTop 0) (new_World with_asking_service) = Normal w1 /\
    calls_in (trace w1) = [(19, []); (20, []); (21, [])] /\
    deliveries 0 (trace w1) = [(VNull, VArr [VObj 1; VObj 2])].
Proof. eexists. split; [vm_compute; reflexivity|]. split; reflexivity. Qed.

(** ** Lists whose elements answer at once or later *)

Lemma same_services_refl c : same_services c c.
Proof. by repeat split. Qed.

Lemma same_services_trans c c1 c2 :
  same_services c c1 -> same_services c1 c2 -> same_services c c2.
Proof.
  intros (Hr & Hi & Hc & Hs) (Hr' & Hi' & Hc' & Hs').
  split; [congruence|]. split; [congruence|]. split; [|by intros n v Hn; apply Hs', Hs].
  intros other Hother. rewrite Hc', Hc; [done..|].
  unfold instance_name. by rewrite Hr.
Qed.

Lemma quietly_same_services b w w1 :
  quietly b w w1 -> same_services (container w) (container w1).
Proof. by intros (_ & _ & _ & Hr & Hi & Hc & Hs). Qed.

Lemma same_services_provided c c1 name v :
  same_services c c1 -> provided c name v -> provided c1 name v.
Proof.
  intros (Hr & Hi & _ & Hs) [H|(impls & vs & Hreg & Hifs & Hne & Hall & ->)].
  - left. by apply Hs.
  - right. exists impls, vs. rewrite Hr, Hi. repeat (split; [done|]). split; [|done].
    eapply Forall2_impl; [exact Hall|]. intros n v. apply Hs.
Qed.

Lemma same_services_slow c c1 name v :
  same_services c c1 -> slow c name v -> slow c1 name v.
Proof.
  intros Hsame (af & f & cfg & vs & Hreg & Hcache & Haf & Hbody).
  pose proof Hsame as (Hr & Hi & Hc & Hs).
  exists af, f, cfg, vs. rewrite Hr. split; [done|]. split; [|split; [|done]].
  - assert (Hname : _instances c1 !! name = _instances c !! name).
    { apply Hc. intros (v' & cfg' & Hreg'). rewrite Hreg in Hreg'.
      injection Hreg' as -> _. by destruct Haf as [[[=] _]|[[=] _]]. }
    unfold cache_unused. by rewrite Hname.
  - destruct Haf as [?|[-> Hall]]; [by left|right]. split; [done|].
    eapply Forall2_impl; [exact Hall|]. intros n v'. by apply same_services_provided.
Qed.

Lemma same_services_answering c c1 e :
  same_services c c1 -> answering c e -> answering c1 e.
Proof.
  intros Hsame. unfold answering. destruct (el_later e);
    [by apply same_services_slow|by apply same_services_provided].
Qed.

Lemma calmly_step b w w1 extra :
  container w1 = container w -> trace w1 = trace w ++ extra ->
  (forall id, deliveries id extra = []) ->
  (forall j jb, j < b -> jobs w !! j = Some jb -> jobs w1 !! j = Some jb) ->
  calmly b w w1.
Proof.
  intros Hc Ht Hd Hj. split; [done|]. split; [by exists extra|].
  rewrite Hc. apply same_services_refl.
Qed.

Lemma calmly_refl b w : calmly b w w.
Proof. apply (calmly_step b w w []); try done. by rewrite app_nil_r. Qed.

Lemma calmly_trans b w w1 w2 : calmly b w w1 -> calmly b w1 w2 -> calmly b w w2.
Proof.
  intros (Hj & (e & Ht & Hd) & Hs) (Hj' & (e' & Ht' & Hd') & Hs').
  split; [intros j jb Hlt Hjb; by apply Hj', Hj|]. split.
  - exists (e ++ e'). split; [by rewrite Ht', Ht, app_assoc|].
    intros id. by rewrite deliveries_app, Hd, Hd'.
  - by apply (same_services_trans _ (container w1)).
Qed.

Lemma calmly_weaken b b' w w1 : b' <= b -> calmly b w w1 -> calmly b' w w1.
Proof.
  intros Hb (Hj & Ht & Hs). split; [|done]. intros j jb Hlt. apply Hj. lia.
Qed.

Lemma quietly_calmly b w w1 : quietly b w w1 -> calmly b w w1.
Proof.
  intros Hq. destruct (quietly_trace _ _ _ Hq) as (extra & Ht & Hd & _).
  split; [intros j jb; by apply (quietly_job _ _ _ _ _ Hq)|].
  split; [by exists extra|]. by apply (quietly_same_services b w).
Qed.

Lemma calmly_job b w w1 j jb :
  calmly b w w1 -> j < b -> jobs w !! j = Some jb -> jobs w1 !! j = Some jb.
Proof. intros (Hj & _). apply Hj. Qed.

(** A slow service, resolved: [resolve] returns with the answer left to
    the event loop. *)
Lemma resolve_slow fuel name v k w :
  slow (container w) name v ->
  exists sing w1,
    resolve (8 + fuel) (One name) k w =
      Normal (defer (Deferred (KStore name sing k) VNull v) w1) /\
    pending w1 = pending w /\ calmly (length (jobs w)) w w1.
Proof.
  intros (af & f & cfg & vs & Hr & Hc & [[-> ->]|[-> Hall]] & Hbody).
  - exists (singleton cfg), (log (ECall (fid f) []) w). split; [|split; [done|]].
    + change (8 + fuel) with (1 + (7 + fuel)).
      apply resolve_direct_later; [done..|]. unfold behave. apply Hbody.
    + by apply (calmly_step _ _ _ [ECall (fid f) []]).
  - set (K := KStore name (singleton cfg) k).
    destruct (injection_provided fuel InjectCall f vs K w Hall) as (n & w1 & Hn & Hq & Hres).
    exists (singleton cfg), (log (ECall (fid f) vs) w1). split; [|split].
    + change (8 + fuel) with (S (7 + fuel)).
      rewrite (resolve_cache_unused _ _ _ _ _ Hr Hc). cbn [factory config run_factory].
      unfold call. cbn [injected injector supply] in Hres.
      etransitivity; [exact Hres|]. apply apply_fn_calls_back_later. unfold behave. apply Hbody.
    + cbn [pending log]. by apply (quietly_pending _ _ _ Hq).
    + apply (calmly_trans _ _ w1); [by apply quietly_calmly|].
      by apply (calmly_step _ _ _ [ECall (fid f) vs]).
Qed.

Lemma later_ones_cons e els :
  later_ones (e :: els) = (if el_later e then 1 else 0) + later_ones els.
Proof.
  unfold later_ones. rewrite filter_cons.
  destruct (el_later e); by destruct (decide _).
Qed.

Lemma later_ones_le els : later_ones els <= length els.
Proof. apply length_filter. Qed.

(** The elements all answer at once: they are provided. *)
Lemma answering_all_now c els :
  Forall (answering c) els -> later_ones els = 0 ->
  Forall2 (provided c) (el_name <$> els) (el_value <$> els).
Proof.
  induction 1 as [|e els He _ IH]; [constructor|].
  rewrite later_ones_cons. unfold answering in He.
  destruct (el_later e); [simpl; lia|]. intros Hz. constructor; [done|]. by apply IH.
Qed.

(** ** The state of the [async.map] call while answers are awaited *)

Lemma awaiting_lt k vs index rem jb i :
  awaiting k vs index rem jb -> i ∈ seen jb -> i < length (results jb).
Proof.
  intros H Hi. destruct (aw_seen _ _ _ _ _ H i Hi) as (Hlt & Hres & _).
  pose proof (aw_index _ _ _ _ _ H) as Hle.
  destruct (lookup_lt_is_Some_2 vs i) as [v Hv]; [lia|].
  rewrite Hv in Hres. by apply lookup_lt_Some in Hres.
Qed.

Lemma awaiting_index_fresh k vs index rem jb :
  awaiting k vs index rem jb -> index ∉ wt_index <$> rem.
Proof.
  intros H (t & -> & Ht)%list_elem_of_fmap.
  destruct (aw_rem _ _ _ _ _ H t Ht). lia.
Qed.

(** The element [index] answers at once. *)
Lemma awaiting_now k vs index rem jb v :
  awaiting k vs index rem jb ->
  vs !! index = Some v ->
  awaiting k vs (S index) rem
    (mkJob (arr_set index v (results jb)) (S (completed jb)) (total jb) (fired jb)
           (index :: seen jb) (done_cb jb)).
Proof.
  intros H Hv. pose proof (awaiting_index_fresh _ _ _ _ _ H) as Hfresh.
  pose proof (fun i => awaiting_lt _ _ _ _ _ i H) as Hlt.
  destruct H as [Hf Hd Ht Hi Hc Hs Hr Hn Hcov Hl].
  split; cbn [fired done_cb total completed seen results]; try done.
  - by apply lookup_lt_Some in Hv.
  - lia.
  - intros i [->|Hin]%elem_of_cons.
    + split; [lia|]. split; [|done]. by rewrite arr_set_lookup.
    + destruct (Hs i Hin) as (? & ? & ?). split; [lia|]. split; [|done].
      rewrite arr_set_lookup_other; [done|lia|by apply Hlt].
  - intros t Ht'. destruct (Hr t Ht'). split; [lia|done].
  - intros i Hlt'. destruct (decide (i = index)) as [->|Hne].
    + left. by left.
    + destruct (Hcov i) as [?|?]; [lia|left; by right|by right].
  - rewrite arr_set_length. lia.
Qed.

(** The element [index] is going to answer later. *)
Lemma awaiting_later k vs index rem jb t :
  awaiting k vs index rem jb ->
  wt_index t = index -> vs !! index = Some (wt_value t) ->
  awaiting k vs (S index) (rem ++ [t]) jb.
Proof.
  intros H Hidx Hv. pose proof (awaiting_index_fresh _ _ _ _ _ H) as Hfresh.
  destruct H as [Hf Hd Ht Hi Hc Hs Hr Hn Hcov Hl].
  split; try done.
  - by apply lookup_lt_Some in Hv.
  - rewrite length_app. simpl. lia.
  - intros i Hin. destruct (Hs i Hin) as (? & ? & Hnot). split; [lia|]. split; [done|].
    rewrite fmap_app. intros [?|Hlast]%elem_of_app; [done|].
    apply list_elem_of_singleton in Hlast. lia.
  - intros t' [Ht'|Ht']%elem_of_app.
    + destruct (Hr t' Ht'). split; [lia|done].
    + apply list_elem_of_singleton in Ht' as ->. rewrite Hidx. split; [lia|done].
  - rewrite fmap_app. apply NoDup_app. split; [done|]. split.
    + intros x Hx Hlast. apply list_elem_of_singleton in Hlast. subst x.
      rewrite Hidx in Hx. by apply Hfresh.
    + apply NoDup_singleton.
  - intros i Hlt'. rewrite fmap_app. destruct (decide (i = index)) as [->|Hne].
    + right. apply elem_of_app. right. rewrite <- Hidx. by apply list_elem_of_singleton.
    + destruct (Hcov i) as [?|?]; [lia|by left|]. right. apply elem_of_app. by left.
  - lia.
Qed.

Lemma NoDup_fmap_delete {A B} (f : A -> B) (l : list A) q t :
  NoDup (f <$> l) -> l !! q = Some t -> f t ∉ f <$> delete q l.
Proof.
  intros Hnd Hq. rewrite <- (take_drop_middle l q t Hq) in Hnd.
  rewrite delete_take_drop, !fmap_app in *. rewrite fmap_cons in Hnd.
  apply NoDup_app in Hnd as (_ & Hcross & Hrest).
  apply NoDup_cons in Hrest as [Hnot _].
  intros [Hin|Hin]%elem_of_app; [|done].
  apply (Hcross _ Hin). by left.
Qed.

Lemma elem_of_delete_other {A} (l : list A) q t x :
  x ∈ l -> l !! q = Some t -> x <> t -> x ∈ delete q l.
Proof.
  intros Hx Hq Hne. rewrite <- (take_drop_middle l q t Hq) in Hx.
  rewrite delete_take_drop.
  apply elem_of_app in Hx as [?|[?|?]%elem_of_cons]; [|done|];
    apply elem_of_app; [by left|by right].
Qed.

(** The answer [t] arrives. *)
Lemma awaiting_answer k vs index rem jb q t :
  awaiting k vs index rem jb ->
  rem !! q = Some t ->
  awaiting k vs index (delete q rem)
    (mkJob (arr_set (wt_index t) (wt_value t) (results jb)) (S (completed jb)) (total jb)
           (fired jb) (wt_index t :: seen jb) (done_cb jb)).
Proof.
  intros H Hq. pose proof (fun i => awaiting_lt _ _ _ _ _ i H) as Hlt.
  destruct H as [Hf Hd Ht Hi Hc Hs Hr Hn Hcov Hl].
  assert (Hin : t ∈ rem) by (by eapply list_elem_of_lookup_2).
  destruct (Hr t Hin) as [Hidx Hv].
  assert (Hkeep : forall i, i ∉ wt_index <$> rem -> i ∉ wt_index <$> delete q rem).
  { intros i Hnot (t' & -> & Ht')%list_elem_of_fmap. apply Hnot.
    apply list_elem_of_fmap. exists t'. split; [done|]. by apply list_elem_of_delete_inv in Ht'. }
  split; cbn [fired done_cb total completed seen results]; try done.
  - rewrite length_delete by (by eexists). destruct rem; [done|]. simpl in *. lia.
  - intros i [->|Hi']%elem_of_cons.
    + split; [done|]. split; [by rewrite arr_set_lookup|]. by apply NoDup_fmap_delete.
    + destruct (Hs i Hi') as (? & ? & Hnot). split; [done|]. split; [|by apply Hkeep].
      rewrite arr_set_lookup_other; [done| |by apply Hlt].
      intros ->. apply Hnot. apply list_elem_of_fmap. by exists t.
  - intros t' Ht'. apply Hr. by apply list_elem_of_delete_inv in Ht'.
  - eapply sublist_NoDup; [exact Hn|]. apply fmap_sublist, sublist_delete.
  - intros i Hlt'. destruct (Hcov i Hlt') as [?|(t' & -> & Ht')%list_elem_of_fmap].
    + left. by right.
    + destruct (decide (wt_index t' = wt_index t)) as [Heq|Hne].
      * left. rewrite Heq. by left.
      * right. apply list_elem_of_fmap. exists t'. split; [done|].
        apply (elem_of_delete_other _ _ t); [done..|]. by intros ->.
  - rewrite arr_set_length. lia.
Qed.

(** Every element has answered: the array is the list of the values. *)
Lemma awaiting_full k vs jb : awaiting k vs (length vs) [] jb -> results jb = vs.
Proof.
  intros [Hf Hd Ht Hi Hc Hs Hr Hn Hcov Hl]. apply list_eq. intros i.
  destruct (decide (i < length vs)) as [Hlt|Hge].
  - destruct (Hcov i Hlt) as [Hin|Hin]; [|by apply elem_of_nil in Hin].
    by destruct (Hs i Hin) as (_ & ? & _).
  - rewrite !lookup_ge_None_2; [done|lia..].
Qed.

(** ** The loop of [async.map] over such elements *)

Lemma map_loop_answering fuel j k vs pre :
  forall els index w jb rem,
  Forall (answering (container w)) els ->
  jobs w !! j = Some jb ->
  pending w = pre ++ (task_of j <$> rem) ->
  awaiting k vs index rem jb ->
  (forall q e, els !! q = Some e -> vs !! (index + q) = Some (el_value e)) ->
  0 < length rem + later_ones els ->
  exists w' jb' rem',
    map_loop (exec (8 + fuel)) j (el_name <$> els) index w = Normal w' /\
    jobs w' !! j = Some jb' /\
    pending w' = pre ++ (task_of j <$> rem') /\
    length rem' = length rem + later_ones els /\
    awaiting k vs (index + length els) rem' jb' /\
    calmly j w w'.
Proof.
  induction els as [|e els IH]; intros index w jb rem Hall Hj Hp Haw Hvs Hsome.
  { exists w, jb, rem. cbn [fmap list_fmap map_loop length]. rewrite !Nat.add_0_r.
    split; [done|]. split; [done|]. split; [done|]. split; [done|]. split; [done|].
    apply calmly_refl. }
  apply Forall_cons in Hall as [He Hall].
  assert (Hlt : j < length (jobs w)) by (by apply lookup_lt_Some in Hj).
  assert (Hv : vs !! index = Some (el_value e)).
  { rewrite <- (Nat.add_0_r index). by apply (Hvs 0 e). }
  assert (Hvs' : forall q e', els !! q = Some e' -> vs !! (S index + q) = Some (el_value e')).
  { intros q e' Hq. replace (S index + q) with (index + S q) by lia.
    by apply (Hvs (S q) e'). }
  rewrite later_ones_cons in Hsome. rewrite later_ones_cons.
  cbn [fmap list_fmap map_loop length].
  replace (index + S (length els)) with (S index + length els) by lia.
  change (exec (8 + fuel) (Resolve (One (el_name e)) ?k') w)
    with (resolve (8 + fuel) (One (el_name e)) k' w).
  unfold answering in He. destruct (el_later e) eqn:Hlater.
  - (* the element answers later *)
    destruct (resolve_slow fuel (el_name e) (el_value e) (KMapItem j index) w He)
      as (sing & w1 & -> & Hp1 & Hcalm1).
    set (t := {| wt_index := index; wt_name := el_name e; wt_singleton := sing;
                 wt_value := el_value e |}).
    set (w2 := defer (Deferred (KStore (el_name e) sing (KMapItem j index)) VNull (el_value e))
                 w1).
    assert (Hcalm2' : calmly (S j) w w2).
    { apply (calmly_trans _ _ w1); [apply (calmly_weaken (length (jobs w))); [lia|done]|].
      apply (calmly_step _ _ _ []); try done. by rewrite app_nil_r. }
    assert (Hcalm2 : calmly j w w2) by (apply (calmly_weaken (S j)); [lia|done]).
    assert (Hall2 : Forall (answering (container w2)) els).
    { eapply Forall_impl; [exact Hall|]. intros e'. apply same_services_answering.
      by destruct Hcalm2 as (_ & _ & ?). }
    assert (Hj2 : jobs w2 !! j = Some jb).
    { apply (calmly_job _ _ _ _ _ Hcalm2'); [lia|done]. }
    assert (Hp2 : pending w2 = pre ++ (task_of j <$> rem ++ [t])).
    { unfold w2. cbn [pending defer]. by rewrite Hp1, Hp, fmap_app, <- app_assoc. }
    assert (Haw2 : awaiting k vs (S index) (rem ++ [t]) jb) by (by apply awaiting_later).
    assert (Hsome2 : 0 < length (rem ++ [t]) + later_ones els).
    { rewrite length_app. simpl. lia. }
    destruct (IH (S index) w2 jb (rem ++ [t]) Hall2 Hj2 Hp2 Haw2 Hvs' Hsome2)
      as (w' & jb' & rem' & Hloop & Hj' & Hp' & Hlen' & Haw' & Hcalm').
    exists w', jb', rem'. split; [done|]. split; [done|]. split; [done|].
    split; [rewrite Hlen', length_app; simpl; lia|]. split; [done|].
    by apply (calmly_trans _ _ w2).
  - (* the element answers at once *)
    destruct (resolve_provided_step (3 + fuel) (el_name e) (el_value e) (KMapItem j index) w He)
      as (n & w1 & Hn & Hq1 & Hres).
    change (5 + (3 + fuel)) with (8 + fuel) in Hres. rewrite Hres.
    destruct n as [|n]; [lia|].
    pose proof (quietly_job _ _ _ _ _ Hq1 Hlt Hj) as Hj1.
    pose proof (later_ones_le els) as Hle.
    assert (Hbound : index + S (length els) <= length vs).
    { destruct (decide (els = [])) as [->|Hne]; [apply lookup_lt_Some in Hv; simpl; lia|].
      destruct (lookup_lt_is_Some_2 els (length els - 1)) as [e' He'];
        [destruct els; [done|simpl; lia]|].
      apply Hvs', lookup_lt_Some in He'. lia. }
    rewrite (invoke_item_more n j index (el_value e) w1 jb Hj1).
    2:{ intros Hin. destruct (aw_seen _ _ _ _ _ Haw index Hin). lia. }
    2:{ pose proof (aw_count _ _ _ _ _ Haw). pose proof (aw_total _ _ _ _ _ Haw).
        simpl in Hsome. lia. }
    set (jb1 := mkJob (arr_set index (el_value e) (results jb)) (S (completed jb)) (total jb)
                      (fired jb) (index :: seen jb) (done_cb jb)).
    set (w2 := set_job j jb1 (log (EInvoke (KMapItem j index) VNull (el_value e)) w1)).
    assert (Hcalm2 : calmly j w w2).
    { apply (calmly_trans _ _ w1).
      - apply (calmly_weaken (length (jobs w))); [lia|]. by apply quietly_calmly.
      - apply (calmly_step _ _ _ [EInvoke (KMapItem j index) VNull (el_value e)]); try done.
        intros j' jb' Hlt' Hj'. unfold w2. cbn [jobs set_job log].
        by rewrite list_lookup_insert_ne by lia. }
    assert (Hall2 : Forall (answering (container w2)) els).
    { eapply Forall_impl; [exact Hall|]. intros e'. apply same_services_answering.
      by destruct Hcalm2 as (_ & _ & ?). }
    assert (Hj2 : jobs w2 !! j = Some jb1).
    { unfold w2. cbn [jobs set_job log]. apply list_lookup_insert_eq.
      by apply lookup_lt_Some in Hj1. }
    assert (Hp2 : pending w2 = pre ++ (task_of j <$> rem)).
    { unfold w2. cbn [pending set_job log]. by rewrite (quietly_pending _ _ _ Hq1). }
    assert (Haw2 : awaiting k vs (S index) rem jb1) by (by apply awaiting_now).
    assert (Hsome2 : 0 < length rem + later_ones els) by (simpl in Hsome; lia).
    destruct (IH (S index) w2 jb1 rem Hall2 Hj2 Hp2 Haw2 Hvs' Hsome2)
      as (w' & jb' & rem' & Hloop & Hj' & Hp' & Hlen' & Haw' & Hcalm').
    exists w', jb', rem'. split; [done|]. split; [done|]. split; [done|].
    split; [by rewrite Hlen'|]. split; [done|].
    by apply (calmly_trans _ _ w2).
Qed.

(** ** The answers arrive, in any order *)

Lemma lookup_pending_task {A} (pre l : list A) i :
  length pre <= i -> (pre ++ l) !! i = l !! (i - length pre).
Proof. apply lookup_app_r. Qed.

Lemma delete_app_r {A} (pre l : list A) q :
  delete (length pre + q) (pre ++ l) = pre ++ delete q l.
Proof. induction pre as [|x pre IH]; [done|]. simpl. by rewrite IH. Qed.

(** The callback [resolve] gave to a factory, called without error for
    an element of the [async.map] call [j]. *)
Lemma invoke_store_item fuel name sing j i v w :
  exists w1,
    invoke (S fuel) (KStore name sing (KMapItem j i)) VNull v w =
      invoke fuel (KMapItem j i) VNull v w1 /\
    jobs w1 = jobs w /\ pending w1 = pending w /\
    trace w1 = trace w ++ [EInvoke (KStore name sing (KMapItem j i)) VNull v] /\
    _registry (container w1) = _registry (container w) /\
    _interfaces (container w1) = _interfaces (container w).
Proof.
  unfold invoke. rewrite exec_invoke, invoke_KStore by done.
  eexists. split; [reflexivity|]. by destruct (truthy sing).
Qed.

Lemma run_awaiting fuel j k vs pre :
  forall sched rem w jb,
  jobs w !! j = Some jb ->
  pending w = pre ++ (task_of j <$> rem) ->
  awaiting k vs (length vs) rem jb ->
  rem <> [] ->
  picks (length pre) (length rem) sched ->
  exists w2 extra,
    run (2 + fuel) sched w = invoke fuel k VNull (VArr vs) w2 /\
    pending w2 = pre /\
    trace w2 = trace w ++ extra /\ (forall id, deliveries id extra = []) /\
    _registry (container w2) = _registry (container w) /\
    _interfaces (container w2) = _interfaces (container w).
Proof.
  change (2 + fuel) with (S (S fuel)).
  induction sched as [|i rest IH]; intros rem w jb Hj Hp Haw Hne Hpicks.
  { destruct rem; [done|]. by simpl in Hpicks. }
  destruct (length rem) as [|m] eqn:Hm; [by destruct rem|].
  cbn [picks] in Hpicks. destruct Hpicks as [Hi Hrest].
  set (q := i - length pre).
  destruct (lookup_lt_is_Some_2 rem q) as [t Ht]; [unfold q; lia|].
  assert (Hlook : pending w !! i = Some (task_of j t)).
  { rewrite Hp, lookup_app_r by lia. fold q. by rewrite list_lookup_fmap, Ht. }
  cbn [run]. rewrite Hlook. unfold task_of at 1.
  destruct (invoke_store_item (S fuel) (wt_name t) (wt_singleton t) j (wt_index t) (wt_value t)
              (drop_task i w)) as (w1 & -> & Hj1 & Hp1 & Ht1 & Hr1 & Hi1).
  cbn [jobs pending trace container drop_task] in Hj1, Hp1, Ht1, Hr1, Hi1.
  assert (Hp1' : pending w1 = pre ++ (task_of j <$> delete q rem)).
  { rewrite Hp1, Hp. replace i with (length pre + q) by (unfold q; lia).
    by rewrite delete_app_r, list_fmap_delete. }
  rewrite <- Hj1 in Hj.
  pose proof (awaiting_answer _ _ _ _ _ q t Haw Ht) as Haw'.
  assert (Hin : t ∈ rem) by (by eapply list_elem_of_lookup_2).
  assert (Hfresh : wt_index t ∉ seen jb).
  { intros Hseen. destruct (aw_seen _ _ _ _ _ Haw _ Hseen) as (_ & _ & Hnot).
    apply Hnot, list_elem_of_fmap. by exists t. }
  pose proof (aw_count _ _ _ _ _ Haw) as Hcount.
  pose proof (aw_total _ _ _ _ _ Haw) as Htotal.
  set (ev := EInvoke (KMapItem j (wt_index t)) VNull (wt_value t)).
  destruct m as [|m].
  - (* the last answer *)
    destruct rem as [|t0 [|t1 rem]]; [done| |done].
    assert (q = 0) as Hq0 by (unfold q; simpl in Hi; lia).
    rewrite Hq0 in *. simpl in Ht. injection Ht as ->.
    destruct rest; [|done].
    rewrite (invoke_item_last fuel j (wt_index t) (wt_value t) w1 jb Hj Hfresh);
      [|simpl in Hcount; lia|by apply (aw_fired _ _ _ _ _ Haw)].
    cbn [run]. rewrite outcome_eta.
    cbn [delete] in Haw', Hp1'. apply awaiting_full in Haw'. cbn [results] in Haw'.
    rewrite Haw', (aw_done _ _ _ _ _ Haw).
    eexists _, [_; ev]. split; [reflexivity|].
    cbn [pending trace container set_job log].
    split; [by rewrite Hp1', app_nil_r|]. split; [by rewrite Ht1, <- app_assoc|].
    by repeat split.
  - (* other answers are still awaited *)
    rewrite (invoke_item_more fuel j (wt_index t) (wt_value t) w1 jb Hj Hfresh)
      by lia.
    set (jb1 := mkJob _ _ _ _ _ _) in *.
    set (w2 := set_job j jb1 (log ev w1)).
    destruct (IH (delete q rem) w2 jb1) as (w3 & extra & Hrun & Hp3 & Ht3 & Hd3 & Hr3 & Hi3).
    + unfold w2. cbn [jobs set_job log]. apply list_lookup_insert_eq.
      by apply lookup_lt_Some in Hj.
    + done.
    + done.
    + intros Hnil. apply (f_equal length) in Hnil.
      rewrite length_delete in Hnil by (by eexists). simpl in Hnil. lia.
    + rewrite length_delete by (by eexists). by rewrite Hm.
    + cbv beta iota. unfold w2, ev in Hrun. rewrite Hrun.
      exists w3, ([EInvoke (KStore (wt_name t) (wt_singleton t) (KMapItem j (wt_index t)))
                     VNull (wt_value t); ev] ++ extra).
      split; [done|]. split; [done|].
      split; [rewrite Ht3; unfold w2; cbn [trace set_job log]; by rewrite Ht1, <- !app_assoc|].
      split; [intros id; by rewrite deliveries_app, Hd3|].
      by rewrite Hr3, Hi3.
Qed.

(** A list of which at least one element answers later. [resolve]
    returns with as many answers left to the event loop and the callback
    not called; once they have all arrived, in whatever order, the
    callback is called with the array of the values, in the order of the
    list. *)
Lemma resolve_answering_later fuel els k w :
  Forall (answering (container w)) els ->
  0 < later_ones els ->
  exists w1,
    resolve (9 + fuel) (Many (el_name <$> els)) k w = Normal w1 /\
    length (pending w1) = length (pending w) + later_ones els /\
    take (length (pending w)) (pending w1) = pending w /\
    calmly (length (jobs w)) w w1 /\
    forall sched, picks (length (pending w)) (later_ones els) sched ->
      exists w2 extra,
        run (2 + fuel) sched w1 = invoke fuel k VNull (VArr (el_value <$> els)) w2 /\
        pending w2 = pending w /\
        trace w2 = trace w ++ extra /\ (forall id, deliveries id extra = []) /\
        _registry (container w2) = _registry (container w) /\
        _interfaces (container w2) = _interfaces (container w).
Proof.
  intros Hall Hsome. change (9 + fuel) with (S (8 + fuel)).
  unfold resolve. rewrite exec_resolve. cbn [resolve_].
  rewrite async_map_loop by (destruct els; [by vm_compute in Hsome; lia|done]).
  set (j := length (jobs w)).
  set (jb0 := mkJob [] 0 (length (el_name <$> els)) false [] k).
  assert (Hall0 : Forall (answering (container (add_job jb0 w))) els) by done.
  assert (Hj0 : jobs (add_job jb0 w) !! j = Some jb0).
  { unfold j. cbn [jobs add_job]. rewrite lookup_app_r by done. by rewrite Nat.sub_diag. }
  assert (Hp0 : pending (add_job jb0 w) = pending w ++ (task_of j <$> [])).
  { cbn [pending add_job]. by rewrite app_nil_r. }
  assert (Haw0 : awaiting k (el_value <$> els) 0 [] jb0).
  { split; cbn [fired done_cb total completed seen results jb0]; try done.
    - by rewrite !length_fmap.
    - lia.
    - intros i Hi. by apply elem_of_nil in Hi.
    - intros t Ht. by apply elem_of_nil in Ht.
    - apply NoDup_nil_2.
    - intros i Hi. lia. }
  assert (Hvs0 : forall q e, els !! q = Some e ->
                   (el_value <$> els) !! (0 + q) = Some (el_value e)).
  { intros q e Hq. cbn [Nat.add]. by rewrite list_lookup_fmap, Hq. }
  assert (Hsome0 : 0 < length (@nil waiting) + later_ones els) by (simpl; lia).
  destruct (map_loop_answering fuel j k (el_value <$> els) (pending w) els 0 (add_job jb0 w)
              jb0 [] Hall0 Hj0 Hp0 Haw0 Hvs0 Hsome0)
    as (w1 & jb1 & rem & Hloop & Hj1 & Hp1 & Hlen & Haw & Hcalm).
  simpl in Hlen. rewrite Nat.add_0_l, <- (length_fmap el_value) in Haw.
  assert (Hcalm0 : calmly j w w1).
  { apply (calmly_trans _ _ (add_job jb0 w)); [|done].
    apply (calmly_step _ _ _ []); try done; [by rewrite app_nil_r|].
    intros j' jb' _ Hj'. cbn [jobs add_job]. by apply lookup_app_l_Some. }
  exists w1. split; [done|].
  split; [by rewrite Hp1, length_app, length_fmap, Hlen|].
  split; [by rewrite Hp1, take_app_length|]. split; [done|].
  intros sched Hpicks.
  destruct (run_awaiting fuel j k (el_value <$> els) (pending w) sched rem w1 jb1)
    as (w2 & extra & Hrun & Hp2 & Ht2 & Hd2 & Hr2 & Hi2); try done.
  { intros ->. simpl in Hlen. lia. }
  { by rewrite Hlen. }
  destruct Hcalm0 as (_ & (e1 & Ht1 & Hd1) & (Hr1 & Hi1 & _)).
  exists w2, (e1 ++ extra). split; [done|]. split; [done|].
  split; [by rewrite Ht2, Ht1, app_assoc|].
  split; [intros id; by rewrite deliveries_app, Hd1, Hd2|].
  by rewrite Hr2, Hi2.
Qed.

(** The same for a client: the callback [KTop id] has not been called
    when [resolve] returns unless every element answers at once, and has
    been called once, with the array of the values in the order of the
    list, when the answers have arrived. *)
Lemma list_of_answering fuel id els w :
  Forall (answering (container w)) els ->
  let m := later_ones els in
  let vs := el_value <$> els in
  exists w1,
    resolve (10 + fuel) (Many (el_name <$> els)) (KTop id) w = Normal w1 /\
    length (pending w1) = length (pending w) + m /\
    deliveries id (drop (length (trace w)) (trace w1)) =
      (if m =? 0 then [(VNull, VArr vs)] else []) /\
    forall sched, picks (length (pending w)) m sched ->
      exists w2,
        run (3 + fuel) sched w1 = Normal w2 /\
        pending w2 = pending w /\
        deliveries id (drop (length (trace w)) (trace w2)) = [(VNull, VArr vs)].
Proof.
  intros Hall m vs. destruct (decide (m = 0)) as [Hm|Hm].
  - (* every element answers at once *)
    rewrite Hm. cbn [Nat.eqb].
    destruct (resolve_provided_list_then (3 + fuel) (el_name <$> els) vs (KTop id) w)
      as (n & w1 & Hn & Hq & Hres); [by apply answering_all_now|].
    destruct n as [|n]; [lia|].
    destruct (quietly_trace _ _ _ Hq) as (extra & Ht & Hd & _).
    exists (log (EInvoke (KTop id) VNull (VArr vs)) w1).
    assert (Hdel : deliveries id
              (drop (length (trace w)) (trace (log (EInvoke (KTop id) VNull (VArr vs)) w1))) =
              [(VNull, VArr vs)]).
    { cbn [trace log]. rewrite Ht, <- app_assoc, drop_app_length, deliveries_app, Hd. simpl.
      by rewrite Nat.eqb_refl. }
    split; [|split; [|split; [done|]]].
    + change (10 + fuel) with (7 + (3 + fuel)). rewrite Hres.
      unfold invoke. by rewrite exec_invoke, invoke_KTop.
    + cbn [pending log]. rewrite (quietly_pending _ _ _ Hq). lia.
    + intros [|i rest] Hpicks; [|done].
      eexists. split; [reflexivity|]. split; [|done].
      cbn [pending log]. by apply (quietly_pending _ _ _ Hq).
  - (* some answer later *)
    destruct (resolve_answering_later (S fuel) els (KTop id) w Hall) as
      (w1 & Hres & Hlen & _ & (_ & (e1 & Ht1 & Hd1) & _) & Hrun); [fold m; lia|].
    exists w1. split; [done|]. split; [done|]. split.
    + apply Nat.eqb_neq in Hm. rewrite Hm, Ht1, drop_app_length. apply Hd1.
    + intros sched Hpicks.
      destruct (Hrun sched Hpicks) as (w2 & extra & Hrun2 & Hp2 & Ht2 & Hd2 & _).
      exists (log (EInvoke (KTop id) VNull (VArr vs)) w2). split; [|split; [done|]].
      * change (3 + fuel) with (2 + S fuel). rewrite Hrun2.
        unfold invoke. by rewrite exec_invoke, invoke_KTop.
      * cbn [trace log]. rewrite Ht2, <- app_assoc, drop_app_length, deliveries_app, Hd2.
        simpl. by rewrite Nat.eqb_refl.
Qed.

(** ** Lists of names *)

(** What a list yields is an array of what its names yield, one by one. *)
Lemma yields_list_inv c cs t v c' cs' :
  yields c cs t v c' cs' ->
  forall names, t = Many names ->
  exists vs, v = VArr vs /\
    Forall2 (fun name vi => exists c1 cs1 c2 cs2, yields c1 cs1 (One name) vi c2 cs2)
      names vs.
Proof.
  induction 1 as
    [| | | | | | c cs
    |c cs init vs c1 cs1 last v c2 cs2 Hinit IHinit Hlast _]; intros names [= <-].
  - exists []. split; [done|]. constructor.
  - destruct (IHinit init eq_refl) as (vs' & [= <-] & Hall).
    exists (vs ++ [v]). split; [done|]. apply Forall2_app; [done|].
    constructor; [|constructor]. by exists c1, cs1, c2, cs2.
Qed.

(** C5. [resolve] of a list of names hands the [i]-th name to [resolve]
    with the element callback [KMapItem j i] of the [async.map] call [j]
    it makes.  First, for every list, every callback and every run (any
    order in which the event loop completes the pending resolutions):
    once each of these callbacks has been called, and none with an error,
    the callback of the list has been called without error with an array
    as long as the list whose [i]-th element is a value the [i]-th
    resolution passed to its callback.  Second, when each name of the
    list is an element that answers with its value at once (a registered
    instance, an interface of registered instances) or from a later turn
    of the event loop (a service whose factory calls back later): the
    call returns, leaving one pending answer per element that answers
    later, with the client's callback called already only if there is
    none; and whatever the order in which the event loop then runs the
    pending answers, the run returns with the client's callback called
    exactly once, without error, with the array of the elements' values
    in the order of the names.  Third, when the list yields [v] with
    every factory involved answering before it returns, [v] is an array
    of what the names yield one by one, and [resolve] returns within some
    budget with the client's callback called once with it. *)
Theorem list_resolution_is_aligned (names : list string) (w : World) :
  (forall fuel fuel' callback sched w',
     world_below w ->
     cont_below (length (jobs w)) callback ->
     final (and_then (resolve fuel (Many names) callback w) (run fuel' sched)) = Some w' ->
     let j := length (jobs w) in
     let new := drop (length (trace w)) (trace w') in
     (forall i, i < length names -> exists err v, In (EInvoke (KMapItem j i) err v) new) ->
     (forall i err v, In (EInvoke (KMapItem j i) err v) new -> truthy err = false) ->
     exists vs,
       In (EInvoke callback VNull (VArr vs)) new /\
       length vs = length names /\
       forall i, i < length names ->
         exists err v, vs !! i = Some v /\ In (EInvoke (KMapItem j i) err v) new) /\
  (forall fuel id els,
     names = el_name <$> els ->
     Forall (answering (container w)) els ->
     let m := later_ones els in
     let vs := el_value <$> els in
     exists w1,
       resolve (10 + fuel) (Many names) (KTop id) w = Normal w1 /\
       length (pending w1) = length (pending w) + m /\
       deliveries id (drop (length (trace w)) (trace w1)) =
         (if m =? 0 then [(VNull, VArr vs)] else []) /\
       forall sched, picks (length (pending w)) m sched ->
         exists w2,
           run (3 + fuel) sched w1 = Normal w2 /\
           pending w2 = pending w /\
           deliveries id (drop (length (trace w)) (trace w2)) = [(VNull, VArr vs)]) /\
  (forall v c' cs',
     yields (container w) (calls_in (trace w)) (Many names) v c' cs' ->
     exists vs,
       v = VArr vs /\
       Forall2 (fun name vi => exists c1 cs1 c2 cs2, yields c1 cs1 (One name) vi c2 cs2)
         names vs /\
       exists F, forall fuel id, F <= fuel ->
         exists w',
           resolve fuel (Many names) (KTop id) w = Normal w' /\
           pending w' = pending w /\
           deliveries id (drop (length (trace w)) (trace w')) = [(VNull, VArr vs)]).
Proof.
  split; [|split].
  - intros fuel fuel' callback sched w'. apply list_resolution_aligned_aux.
  - intros fuel id els ->. apply list_of_answering.
  - intros v c' cs' Hy.
    destruct (yields_list_inv _ _ _ _ _ _ Hy names eq_refl) as (vs & -> & Hall).
    exists vs. split; [done|]. split; [done|].
    destruct (yields_answers _ _ _ _ _ _ Hy) as [[F Ha] _]. exists (S F).
    intros fuel id Hfuel.
    destruct (Ha fuel (KTop id) w)
      as (n & w1 & Hn & (Hp & _ & extra & Ht & Hd) & _ & _ & Hres); [lia|done|done|].
    destruct n as [|n]; [lia|].
    exists (log (EInvoke (KTop id) VNull (VArr vs)) w1). split.
    { rewrite Hres. unfold invoke. by rewrite exec_invoke, invoke_KTop. }
    split; [done|]. cbn [trace log].
    rewrite Ht, <- app_assoc, drop_app_length, deliveries_app, Hd. simpl.
    by rewrite Nat.eqb_refl.
Qed.

(** On a sample container: the name is a service whose factory, stored
    as it is, calls back later. *)
Ltac by_slow_factory f :=
  exists (Direct f), f; eexists _, [];
  split; [vm_compute; reflexivity|];
  split; [right; left; vm_compute; reflexivity|];
  split; [by left|done].

Lemma slow_services_answer :
  Forall (answering (container (new_World with_slow_services)))
    slow_three.
Proof.
  repeat constructor; unfold answering; cbn [el_later el_name el_value].
  - by_slow_factory (later 11 (VObj 1)).
  - by_slow_factory (later 12 (VObj 2)).
  - by_slow_factory (later 13 (VObj 3)).
Qed.

Lemma list_resolution_is_aligned_witness :
  exists w1,
    resolve 10 (Many ["a"; "b"; "c"]) (KTop 0) (new_World with_slow_services) = Normal w1 /\
    length (pending w1) = 3 /\
    deliveries 0 (trace w1) = [] /\
    exists w2,
      run 3 [2; 0; 0] w1 = Normal w2 /\
      pending w2 = [] /\
      deliveries 0 (trace w2) = [(VNull, VArr [VObj 1; VObj 2; VObj 3])].
Proof.
  destruct (list_resolution_is_aligned ["a"; "b"; "c"] (new_World with_slow_services))
    as (_ & Hlist & _).
  destruct (Hlist 0 0 slow_three eq_refl slow_services_answer) as (w1 & Hres & Hlen & Hd & Hrun).
  exists w1. split; [exact Hres|]. split; [exact Hlen|]. split; [exact Hd|].
  apply (Hrun [2; 0; 0]). simpl. lia.
Defined.

(** The answers came in the order ["c"], ["a"], ["b"]; the result is in
    the order of the names. *)
Example out_of_order_delivers_in_order :
  deliveries 0 (trace (world_of out_of_order (new_World new_Container))) =
  [(VNull, VArr [VObj 1; VObj 2; VObj 3])].
Proof. vm_compute. reflexivity. Qed.

(** ** Interfaces *)

(** C6. A name that is not in the registry and has implementations in
    the interface index is resolved as the list of these implementations,
    for every callback, and the index holds the implementations in the
    order of their registrations: a registration that returns appends
    the name, once per occurrence of the interface in its
    [interfaces] option, to what the index held.  Hence, first, in every
    run, once each implementation's resolution has called its callback,
    and none with an error, the callback has been called without error
    with an array, one element per implementation.  Second, when each
    implementation is an element that answers with its value at once or
    from a later turn of the event loop: [resolve] returns, leaving one
    pending answer per implementation that answers later; and whatever
    the order in which the event loop runs them, the client's callback is
    called exactly once, without error, with the array of the
    implementations' values in the order of the index -- an array also
    when there is one implementation only. *)
Theorem interface_resolves_to_array_of_implementations
    (name : string) (impls : list string) (w : World) :
  _registry (container w) !! name = None ->
  _interfaces (container w) !! name = Some impls ->
  impls <> [] ->
  (forall fuel callback,
     resolve fuel (One name) callback w = resolve fuel (Many impls) callback w) /\
  (forall fuel fuel' callback sched w',
     world_below w ->
     cont_below (length (jobs w)) callback ->
     final (and_then (resolve fuel (One name) callback w) (run fuel' sched)) = Some w' ->
     let j := length (jobs w) in
     let new := drop (length (trace w)) (trace w') in
     (forall i, i < length impls -> exists err v, In (EInvoke (KMapItem j i) err v) new) ->
     (forall i err v, In (EInvoke (KMapItem j i) err v) new -> truthy err = false) ->
     exists vs,
       In (EInvoke callback VNull (VArr vs)) new /\
       length vs = length impls /\
       forall i, i < length impls ->
         exists err v, vs !! i = Some v /\ In (EInvoke (KMapItem j i) err v) new) /\
  (forall fuel id els,
     impls = el_name <$> els ->
     Forall (answering (container w)) els ->
     let m := later_ones els in
     let vs := el_value <$> els in
     exists w1,
       resolve (10 + fuel) (One name) (KTop id) w = Normal w1 /\
       length (pending w1) = length (pending w) + m /\
       deliveries id (drop (length (trace w)) (trace w1)) =
         (if m =? 0 then [(VNull, VArr vs)] else []) /\
       forall sched, picks (length (pending w)) m sched ->
         exists w2,
           run (3 + fuel) sched w1 = Normal w2 /\
           pending w2 = pending w /\
           deliveries id (drop (length (trace w)) (trace w2)) = [(VNull, VArr vs)]) /\
  (forall r key options c c' s tags tag,
     perform r key options c = Returned c' ->
     checked_name key = Some s ->
     interfaces (xtend default_register_options options) = Some tags ->
     tag ∈ tags ->
     _interfaces c' !! tag =
       Some (default [] (_interfaces c !! tag)
             ++ replicate (length (filter (eq tag) tags)) s)).
Proof.
  intros Hreg Hitf Hne.
  assert (Hsame : forall fuel0 callback,
    resolve fuel0 (One name) callback w = resolve fuel0 (Many impls) callback w).
  { intros [|fuel0] callback; [done|]. unfold resolve. rewrite !exec_resolve.
    cbn [resolve_]. rewrite Hreg, Hitf. by destruct impls. }
  split; [apply Hsame|]. split; [|split].
  - intros fuel fuel' callback sched w' Hw Hk Hfinal. rewrite Hsame in Hfinal.
    by apply (list_resolution_aligned_aux fuel fuel' impls callback w sched w').
  - intros fuel id els -> Hall. rewrite Hsame. by apply list_of_answering.
  - intros r key options c c' s tags tag Hperf Hname Htags Hin.
    destruct (perform_returned _ _ _ _ _ Hperf) as (s' & af & Hname' & _ & ->).
    rewrite Hname in Hname'. injection Hname' as <-. by apply store_interfaces.
Qed.

Lemma stream_implementations_answer :
  Forall (answering (container (new_World with_slow_services)))
    slow_streams.
Proof.
  repeat constructor; unfold answering; cbn [el_later el_name el_value].
  - by_slow_factory (later 12 (VObj 2)).
  - by_slow_factory (later 13 (VObj 3)).
Qed.

Lemma interface_resolves_to_array_of_implementations_witness :
  exists w1,
    resolve 10 (One "stream") (KTop 0) (new_World with_slow_services) = Normal w1 /\
    length (pending w1) = 2 /\
    deliveries 0 (trace w1) = [] /\
    exists w2,
      run 3 [1; 0] w1 = Normal w2 /\
      pending w2 = [] /\
      deliveries 0 (trace w2) = [(VNull, VArr [VObj 2; VObj 3])].
Proof.
  destruct (interface_resolves_to_array_of_implementations "stream" ["b"; "c"]
              (new_World with_slow_services))
    as (_ & _ & Hlist & _).
  - vm_compute. reflexivity.
  - vm_compute. reflexivity.
  - discriminate.
  - destruct (Hlist 0 0 slow_streams eq_refl stream_implementations_answer)
      as (w1 & Hres & Hlen & Hd & Hrun).
    exists w1. split; [exact Hres|]. split; [exact Hlen|]. split; [exact Hd|].
    apply (Hrun [1; 0]). simpl. lia.
Defined.

(** ["c"] answered before ["b"]; the array follows the registrations. *)
Example streams_deliver_in_registration_order :
  _interfaces with_slow_services !! "stream" = Some ["b"; "c"] /\
  deliveries 0 (trace (world_of streams_out_of_order (new_World new_Container))) =
  [(VNull, VArr [VObj 2; VObj 3])].
Proof. split; vm_compute; reflexivity. Qed.

(** One implementation: an array with one element. *)
Example single_implementation_resolves_to_array :
  exists w',
    resolve 9 (One "tag") (KTop 0) (new_World with_single_implementation) = Normal w' /\
    deliveries 0 (trace w') = [(VNull, VArr [VObj 7])].
Proof. eexists. split; [vm_compute; reflexivity|reflexivity]. Qed.

(** ** Declared dependencies *)






(** The factory of ["svc"] calls its parameters [a] and [b] and requires
    ["b"] and ["a"], which answer later, ["a"] first: it is applied to
    the instance of ["b"], then that of ["a"]. *)
Example require_overrides_parameter_order :
  exists w1 w2,
    resolve 14 (One "svc") (KTop 0) (new_World with_swapped) = Normal w1 /\
    invocations 23 (trace w1) = [] /\
    run 6 [1; 0] w1 = Normal w2 /\
    invocations 23 (trace w2) = [[VObj 2; VObj 1]] /\
    deliveries 0 (trace w2) = [(VNull, VArr [VObj 2; VObj 1])].
Proof.
  do 2 eexists. split; [vm_compute; reflexivity|]. split; [reflexivity|].
  split; [vm_compute; reflexivity|]. split; reflexivity.
Qed.

(** The factory of ["svc"] names its parameters [a] and [b] and requires
    ["x"] and ["y"]: it is applied to the instances of ["x"] and ["y"]. *)
Example require_overrides_parameter_names :
  exists w',
    resolve 9 (One "svc") (KTop 0) (new_World with_pair) = Normal w' /\
    invocations 4 (trace w') = [[VObj 1; VObj 2]] /\
    deliveries 0 (trace w') = [(VNull, VArr [VObj 1; VObj 2])].
Proof. eexists. split; [vm_compute; reflexivity|]. split; reflexivity. Qed.

